(** * Real Schur decomposition by the implicit double-shift QR iteration

    A shallow embedding of the two [SchurDecomposition] classes of the
    repository and of [TridiagonalSymmetric]:

    - [AbsoluteThreshold] is [schur_decomposition/schur_decomposition.h]
      (deflation by [near_zero], one test after each sweep);
    - [RelativeThreshold] is the second [schur_decomposition.h] of the
      repository, the one with the include guard
      [_SCHUR_DECOMPOSITION_SCHUR_DECOMPOSITION_H] (deflation by
      [zero_under_diagonal], cascading);
    - [Tridiagonal] is [schur_decomposition/tridiagonal_symmetric.h].

    The template parameter [Scalar] is the class [Arithmetic]: the
    operations of the scalar type, with nothing assumed of their laws, so
    that what is proved holds of [double] ([Double_Arithmetic], IEEE
    binary64) as of any other instance; [Z_Arithmetic] serves the integer
    examples.  A dense Eigen matrix is its
    extents together with its coefficient function, and every indexed
    access and every block carries Eigen's range assertion, so that an
    access outside the matrix is a [Fault] of the run.  The members of the
    C++ object are the record [SchurDecomposition], threaded through a
    state-and-error monad [M]; a fault keeps the state reached, so that
    what was written before it stays visible.  Standard assertions
    ([assert]) are modelled as enabled.

    [hessenberg_reduction.h] and [householder_reflection.h] are not among
    the sources: the two classes use them through the interface
    [HessenbergReduction].

    [int] values ([cur_size_], [step], extents) are [Z]: they stay between
    [-2] and the matrix extent plus four, so no wrap-around can occur.

    The file gives the definitions first, then the facts about the member
    functions, then the statements about the specification, then further
    facts and statements about the code (X1 to X17). *)

From Stdlib Require Import ZArith Lia List Bool Ring.
From Corelib Require Import PrimFloat.
Import ListNotations.
Open Scope Z_scope.

Set Implicit Arguments.

(** ** The scalar type *)

(** [template <typename Scalar>] with [std::is_arithmetic_v<Scalar>]: the
    operations the classes use. *)
Class Arithmetic (Scalar : Type) : Type := {
  zero : Scalar;
  one : Scalar;
  add : Scalar -> Scalar -> Scalar;
  mul : Scalar -> Scalar -> Scalar;
  sub : Scalar -> Scalar -> Scalar;
  opp : Scalar -> Scalar;
  div : Scalar -> Scalar -> Scalar;
  abs : Scalar -> Scalar;
  ltb : Scalar -> Scalar -> bool;
  leb : Scalar -> Scalar -> bool
}.

#[export] Instance Z_Arithmetic : Arithmetic Z := {
  zero := 0;
  one := 1;
  add := Z.add;
  mul := Z.mul;
  sub := Z.sub;
  opp := Z.opp;
  div := Z.quot;
  abs := Z.abs;
  ltb := Z.ltb;
  leb := Z.leb
}.

(** [double]: IEEE 754 binary64, rounding to nearest. *)
#[export] Instance Double_Arithmetic : Arithmetic float := {
  zero := 0%float;
  one := 1%float;
  add := PrimFloat.add;
  mul := PrimFloat.mul;
  sub := PrimFloat.sub;
  opp := PrimFloat.opp;
  div := PrimFloat.div;
  abs := PrimFloat.abs;
  ltb := PrimFloat.ltb;
  leb := PrimFloat.leb
}.

(** ** Dense matrices and block views (the part of Eigen the classes use) *)

Section Eigen.
Context {Scalar : Type} {A : Arithmetic Scalar}.

(** [Eigen::Matrix<Scalar, -1, -1>]; a vector is a matrix of one column. *)
Record DynamicMatrix : Type := {
  rows : Z;
  cols : Z;
  coeff : Z -> Z -> Scalar
}.

(** The assertion of [operator()(row, col)]. *)
Definition in_range (m : DynamicMatrix) (i j : Z) : bool :=
  (0 <=? i) && (i <? rows m) && (0 <=? j) && (j <? cols m).

(** [m(i, j) = v], once the index is known to be in range. *)
Definition set_coeff (m : DynamicMatrix) (i j : Z) (v : Scalar) : DynamicMatrix :=
  {| rows := rows m;
     cols := cols m;
     coeff := fun i' j' => if (i' =? i) && (j' =? j) then v else coeff m i' j' |}.

(** [Eigen::Block]: a view by offsets and extents. *)
Record Extent : Type := {
  startRow : Z;
  startCol : Z;
  blockRows : Z;
  blockCols : Z
}.

(** The assertion of the [Block] constructor. *)
Definition valid_block (m : DynamicMatrix) (b : Extent) : bool :=
  (0 <=? startRow b) && (0 <=? blockRows b) && (startRow b <=? rows m - blockRows b)
  && (0 <=? startCol b) && (0 <=? blockCols b) && (startCol b <=? cols m - blockCols b).

Definition inside (b : Extent) (i j : Z) : bool :=
  (startRow b <=? i) && (i <? startRow b + blockRows b)
  && (startCol b <=? j) && (j <? startCol b + blockCols b).

(** The coefficients seen through a view. *)
Definition block_values (m : DynamicMatrix) (b : Extent) : DynamicMatrix :=
  {| rows := blockRows b;
     cols := blockCols b;
     coeff := fun i j =>
       if (0 <=? i) && (i <? blockRows b) && (0 <=? j) && (j <? blockCols b)
       then coeff m (startRow b + i) (startCol b + j) else zero |}.

(** Assignment through a view: only the coefficients inside it change. *)
Definition block_assign (m : DynamicMatrix) (b : Extent) (v : DynamicMatrix) : DynamicMatrix :=
  {| rows := rows m;
     cols := cols m;
     coeff := fun i j =>
       if inside b i j then coeff v (i - startRow b) (j - startCol b) else coeff m i j |}.

(** Eigen's reduction [sum()]: the first coefficient, then the others added
    in turn. *)
Definition sum_coeffs (l : list Scalar) : Scalar :=
  match l with
  | [] => zero
  | x :: r => fold_left add r x
  end.

Definition indices (n : Z) : list Z := map Z.of_nat (seq 0 (Z.to_nat n)).

(** [trace()]: the sum of the diagonal. *)
Definition trace (m : DynamicMatrix) : Scalar :=
  sum_coeffs (map (fun i => coeff m i i) (indices (Z.min (rows m) (cols m)))).

(** The elimination step of Eigen's LU decomposition with partial
    pivoting: the entry under the pivot is divided by the pivot, unless the
    pivot compares equal to zero. *)
Definition elimination_factor (x pivot : Scalar) : Scalar :=
  if leb (abs pivot) zero && leb zero (abs pivot) then x else div x pivot.

(** [determinant()] of a block whose extents are known at run time only:
    Eigen takes [partialPivLu().determinant()].  For the 2x2 blocks the
    classes pass: of the two rows the one with the larger absolute value
    in column 0 comes first (the first row on a tie); the other entry of
    column 0 becomes the elimination factor; the last entry is lowered by
    the product of that factor and the entry right of the pivot; the
    determinant is the sign of the row exchange times the product of the
    diagonal. *)
Definition determinant (m : DynamicMatrix) : Scalar :=
  let exchange := ltb (abs (coeff m 0 0)) (abs (coeff m 1 0)) in
  let first := if exchange then 1 else 0 in
  let second := if exchange then 0 else 1 in
  let pivot := coeff m first 0 in
  let factor := elimination_factor (coeff m second 0) pivot in
  let corner := sub (coeff m second 1) (mul factor (coeff m first 1)) in
  mul (if exchange then opp one else one) (mul pivot corner).

(** [a * b]. *)
Definition mat_mul (a b : DynamicMatrix) : DynamicMatrix :=
  {| rows := rows a;
     cols := cols b;
     coeff := fun i j =>
       sum_coeffs (map (fun k => mul (coeff a i k) (coeff b k j)) (indices (cols a))) |}.

(** [c * a]. *)
Definition mat_scale (c : Scalar) (a : DynamicMatrix) : DynamicMatrix :=
  {| rows := rows a; cols := cols a; coeff := fun i j => mul c (coeff a i j) |}.

Definition mat_sub (a b : DynamicMatrix) : DynamicMatrix :=
  {| rows := rows a; cols := cols a; coeff := fun i j => sub (coeff a i j) (coeff b i j) |}.

Definition mat_add (a b : DynamicMatrix) : DynamicMatrix :=
  {| rows := rows a; cols := cols a; coeff := fun i j => add (coeff a i j) (coeff b i j) |}.

(** [Matrix3::Identity()] and its like. *)
Definition identity (n : Z) : DynamicMatrix :=
  {| rows := n; cols := n; coeff := fun i j => if i =? j then one else zero |}.

(** [m.col(j)]. *)
Definition col (m : DynamicMatrix) (j : Z) : DynamicMatrix :=
  {| rows := rows m; cols := 1; coeff := fun i _ => coeff m i j |}.

(** A [Vector3] filled entry by entry. *)
Definition vector3 (x0 x1 x2 : Scalar) : DynamicMatrix :=
  {| rows := 3;
     cols := 1;
     coeff := fun i _ => if i =? 0 then x0 else if i =? 1 then x1 else x2 |}.

End Eigen.

Arguments DynamicMatrix Scalar : clear implicits.

(** ** The collaborators whose headers are not among the sources *)

(** [hessenberg_reduction.h] and [householder_reflection.h]: the classes
    [HessenbergReduction] and [HessenbergReduction::HouseholderReflector]
    are used through this interface only.  A reflector is built from a
    column vector and applied to the coefficients of a block, giving the
    coefficients to write back through the view; [None] is an assertion of
    the collaborator failing. *)
Class HessenbergReduction (Scalar : Type) : Type := {
  HouseholderReflector : Type;
  make_reflector : DynamicMatrix Scalar -> option HouseholderReflector;
  reflect_left_values :
    HouseholderReflector -> DynamicMatrix Scalar -> option (DynamicMatrix Scalar);
  reflect_right_values :
    HouseholderReflector -> DynamicMatrix Scalar -> option (DynamicMatrix Scalar);
  hessenberg_run :
    DynamicMatrix Scalar -> DynamicMatrix Scalar ->
    option (DynamicMatrix Scalar * DynamicMatrix Scalar)
}.

(** ** The object and the monad of its member functions *)

Section Members.
Context {Scalar : Type} {A : Arithmetic Scalar} {H : HessenbergReduction Scalar}.

(** The data members.  A pointer member is [None] when null, and otherwise
    holds the present contents of the caller's buffer it points to. *)
Record SchurDecomposition : Type := {
  precision_ : Scalar;
  p_schur_form_ : option (DynamicMatrix Scalar);
  p_unitary_ : option (DynamicMatrix Scalar);
  cur_size_ : Z
}.

Inductive Error : Type :=
| AssertionFailed
| NullPointer
| IndexOutOfRange (row col : Z)
| BlockOutOfRange (b : Extent)
| CollaboratorFailed.

(** What a member function does from a state: it returns, or stops at a
    fault, or (only for the unbounded QR loop) exhausts the sweeps allowed. *)
Inductive Outcome (R : Type) : Type :=
| Ok (r : R) (s : SchurDecomposition)
| Fault (e : Error) (s : SchurDecomposition)
| OutOfFuel (s : SchurDecomposition).

Arguments Ok {R} r s.
Arguments Fault {R} e s.
Arguments OutOfFuel {R} s.

Definition M (R : Type) : Type := SchurDecomposition -> Outcome R.

Definition ret {R : Type} (r : R) : M R := fun s => Ok r s.

Definition bind {R R' : Type} (m : M R) (f : R -> M R') : M R' :=
  fun s =>
    match m s with
    | Ok r s' => f r s'
    | Fault e s' => Fault e s'
    | OutOfFuel s' => OutOfFuel s'
    end.

Definition fail {R : Type} (e : Error) : M R := fun s => Fault e s.

Definition state_of {R : Type} (o : Outcome R) : SchurDecomposition :=
  match o with
  | Ok _ s => s
  | Fault _ s => s
  | OutOfFuel s => s
  end.

End Members.

Arguments SchurDecomposition Scalar : clear implicits.
Arguments Outcome Scalar R : clear implicits.
Arguments M Scalar R : clear implicits.
Arguments Ok {Scalar R} r s.
Arguments Fault {Scalar R} e s.
Arguments OutOfFuel {Scalar R} s.

Declare Scope member_scope.
Delimit Scope member_scope with member.
Notation "x <- m ;; k" := (bind m (fun x => k))
  (at level 61, m at next level, right associativity) : member_scope.
Notation "m ;; k" := (bind m (fun _ => k))
  (at level 61, right associativity) : member_scope.
Open Scope member_scope.

(** ** Members and statements common to the two classes *)

Section Shared.
Context {Scalar : Type} {A : Arithmetic Scalar} {H : HessenbergReduction Scalar}.

Local Abbreviation Matrix := (DynamicMatrix Scalar).
Local Abbreviation Member := (M Scalar).

Definition assert (b : bool) : Member unit :=
  if b then ret tt else fail AssertionFailed.

Definition get_cur_size : Member Z := fun s => Ok (cur_size_ s) s.

Definition set_cur_size (c : Z) : Member unit :=
  fun s =>
    Ok tt {| precision_ := precision_ s;
             p_schur_form_ := p_schur_form_ s;
             p_unitary_ := p_unitary_ s;
             cur_size_ := c |}.

(** [Precision get_precision() const]. *)
Definition get_precision : Member Scalar := fun s => Ok (precision_ s) s.

(** [void set_precision(Precision precision)]. *)
Definition set_precision (precision : Scalar) : Member unit :=
  assert (leb zero precision) ;;
  fun s =>
    Ok tt {| precision_ := precision;
             p_schur_form_ := p_schur_form_ s;
             p_unitary_ := p_unitary_ s;
             cur_size_ := cur_size_ s |}.

(** [assert(pointer)]. *)
Definition non_null (q : option Matrix) : bool :=
  match q with
  | Some _ => true
  | None => false
  end.

(** The two buffers of the caller the object points into. *)
Inductive Buffer : Type := SchurForm | Unitary.

Definition pointer (p : Buffer) (s : SchurDecomposition Scalar) : option Matrix :=
  match p with
  | SchurForm => p_schur_form_ s
  | Unitary => p_unitary_ s
  end.

Definition set_pointer (p : Buffer) (q : option Matrix) : Member unit :=
  fun s =>
    Ok tt
      match p with
      | SchurForm =>
          {| precision_ := precision_ s;
             p_schur_form_ := q;
             p_unitary_ := p_unitary_ s;
             cur_size_ := cur_size_ s |}
      | Unitary =>
          {| precision_ := precision_ s;
             p_schur_form_ := p_schur_form_ s;
             p_unitary_ := q;
             cur_size_ := cur_size_ s |}
      end.

(** Reading through the pointer. *)
Definition deref (p : Buffer) : Member Matrix :=
  fun s =>
    match pointer p s with
    | Some m => Ok m s
    | None => Fault NullPointer s
    end.

(** Writing through the pointer. *)
Definition store (p : Buffer) (m : Matrix) : Member unit :=
  fun s =>
    match pointer p s with
    | Some _ => set_pointer p (Some m) s
    | None => Fault NullPointer s
    end.

(** Reading the coefficient [(i, j)] of a buffer, [operator()]. *)
Definition at_ (p : Buffer) (i j : Z) : Member Scalar :=
  m <- deref p ;;
  if in_range m i j then ret (coeff m i j) else fail (IndexOutOfRange i j).

(** Assigning [v] to the coefficient [(i, j)] of a buffer. *)
Definition assign (p : Buffer) (i j : Z) (v : Scalar) : Member unit :=
  m <- deref p ;;
  if in_range m i j then store p (set_coeff m i j v) else fail (IndexOutOfRange i j).

(** A view into one of the buffers. *)
Record Block : Type := {
  owner : Buffer;
  extent : Extent
}.

(** [p->block(startRow, startCol, blockRows, blockCols)]. *)
Definition block (p : Buffer) (r0 c0 nr nc : Z) : Member Block :=
  m <- deref p ;;
  let e := {| startRow := r0; startCol := c0; blockRows := nr; blockCols := nc |} in
  if valid_block m e then ret {| owner := p; extent := e |}
  else fail (BlockOutOfRange e).

(** The coefficients of a view, copied out. *)
Definition values (b : Block) : Member Matrix :=
  m <- deref (owner b) ;;
  ret (block_values m (extent b)).

(** [HouseholderReflector(vector)]. *)
Definition Reflector (v : Matrix) : Member HouseholderReflector :=
  match make_reflector v with
  | Some r => ret r
  | None => fail CollaboratorFailed
  end.

(** [reflector.reflect_left(b)]: the view is overwritten. *)
Definition reflect_left (r : HouseholderReflector) (b : Block) : Member unit :=
  m <- deref (owner b) ;;
  match reflect_left_values r (block_values m (extent b)) with
  | Some v => store (owner b) (block_assign m (extent b) v)
  | None => fail CollaboratorFailed
  end.

(** [reflector.reflect_right(b)]: the view is overwritten. *)
Definition reflect_right (r : HouseholderReflector) (b : Block) : Member unit :=
  m <- deref (owner b) ;;
  match reflect_right_values r (block_values m (extent b)) with
  | Some v => store (owner b) (block_assign m (extent b) v)
  | None => fail CollaboratorFailed
  end.

(** [int size()]. *)
Definition size : Member Z :=
  m <- deref SchurForm ;;
  assert (rows m =? cols m) ;;
  ret (rows m).

(** [void reduce_to_hessenberg_form()]: the reduction works on both buffers
    through the two pointers. *)
Definition reduce_to_hessenberg_form : Member unit :=
  t <- deref SchurForm ;;
  u <- deref Unitary ;;
  match hessenberg_run t u with
  | Some (t', u') => store SchurForm t' ;; store Unitary u'
  | None => fail CollaboratorFailed
  end.

(** [Scalar find_bottom_corner_trace()]. *)
Definition find_bottom_corner_trace : Member Scalar :=
  c <- get_cur_size ;;
  b <- block SchurForm (c - 1) (c - 1) 2 2 ;;
  m <- values b ;;
  ret (trace m).

(** [Scalar find_bottom_corner_det()]. *)
Definition find_bottom_corner_det : Member Scalar :=
  c <- get_cur_size ;;
  b <- block SchurForm (c - 1) (c - 1) 2 2 ;;
  m <- values b ;;
  ret (determinant m).

(** A counted [for (int step = first; ...; ++step)] whose bound the body
    does not write: [n] passes, the value of [step] after the loop is
    returned. *)
Fixpoint for_steps (n : nat) (step : Z) (body : Z -> Member unit) : Member Z :=
  match n with
  | O => ret step
  | S n' => body step ;; for_steps n' (step + 1) body
  end.

End Shared.

(** ** The class with the relative threshold and the cascading deflation *)

Module RelativeThreshold.
Section Class.
Context {Scalar : Type} {A : Arithmetic Scalar} {H : HessenbergReduction Scalar}.

Local Abbreviation Matrix := (DynamicMatrix Scalar).
Local Abbreviation Member := (M Scalar).

(** [SchurDecomposition(Precision precision)]: the pointer members point
    nowhere yet and [cur_size_] holds whatever it holds. *)
Definition construct (precision : Scalar) (indeterminate : Z)
  : option (SchurDecomposition Scalar) :=
  if leb zero precision
  then Some {| precision_ := precision;
               p_schur_form_ := None;
               p_unitary_ := None;
               cur_size_ := indeterminate |}
  else None.

(** [void set_internal_resources(data, schur_form, unitary)]. *)
Definition set_internal_resources (data : Matrix) (schur_form unitary : option Matrix)
  : Member unit :=
  assert (non_null schur_form) ;;
  set_pointer SchurForm schur_form ;;
  assert (rows data =? cols data) ;;
  store SchurForm data ;;
  assert (non_null unitary) ;;
  set_pointer Unitary unitary.

(** [Vector3 find_matching_column()]. *)
Definition find_matching_column : Member Matrix :=
  trace <- find_bottom_corner_trace ;;
  det <- find_bottom_corner_det ;;
  t00 <- at_ SchurForm 0 0 ;;
  t01 <- at_ SchurForm 0 1 ;;
  t10 <- at_ SchurForm 1 0 ;;
  t11 <- at_ SchurForm 1 1 ;;
  t21 <- at_ SchurForm 2 1 ;;
  ret (vector3
         (add (sub (add (mul t00 t00) (mul t01 t10)) (mul trace t00)) det)
         (mul t10 (sub (add t00 t11) trace))
         (mul t10 t21)).

(** [DynamicVector get_reflected_column(int step, int rows)]. *)
Definition get_reflected_column (step rows : Z) : Member Matrix :=
  b <- block SchurForm (step + 1) step rows 1 ;;
  values b.

(** The first statement of [update_schur_form]. *)
Definition update_schur_form_left (r : HouseholderReflector) (step length : Z)
  : Member unit :=
  n <- size ;;
  b <- block SchurForm (step + 1) (Z.max step 0) length (n - Z.max step 0) ;;
  reflect_left r b.

(** The second statement of [update_schur_form]. *)
Definition update_schur_form_right (r : HouseholderReflector) (step length : Z)
  : Member unit :=
  c <- get_cur_size ;;
  b <- block SchurForm 0 (step + 1) (Z.min c (step + 4) + 1) length ;;
  reflect_right r b.

(** [void update_schur_form(reflector, int step, int length)]. *)
Definition update_schur_form (r : HouseholderReflector) (step length : Z)
  : Member unit :=
  update_schur_form_left r step length ;;
  update_schur_form_right r step length.

(** [void update_unitary(reflector, int step, int length)]. *)
Definition update_unitary (r : HouseholderReflector) (step length : Z)
  : Member unit :=
  n <- size ;;
  b <- block Unitary 0 (step + 1) n length ;;
  reflect_right r b.

(** [void set_matching_column()]. *)
Definition set_matching_column : Member unit :=
  v <- find_matching_column ;;
  r <- Reflector v ;;
  update_schur_form r (-1) 3 ;;
  update_unitary r (-1) 3.

(** The body of the loop of [restore_hessenberg_form]. *)
Definition restore_step (step : Z) : Member unit :=
  v <- get_reflected_column step 3 ;;
  r <- Reflector v ;;
  update_schur_form r step 3 ;;
  update_unitary r step 3.

(** [void restore_hessenberg_form()]: [step] runs from [0] while
    [step <= cur_size_ - 3], and the value it ends with is used once more. *)
Definition restore_hessenberg_form : Member unit :=
  c <- get_cur_size ;;
  step <- for_steps (Z.to_nat (c - 2)) 0 restore_step ;;
  v <- get_reflected_column step 2 ;;
  r <- Reflector v ;;
  update_schur_form r step 2 ;;
  update_unitary r step 2.

(** [void make_QR_iteration()]. *)
Definition make_QR_iteration : Member unit :=
  set_matching_column ;;
  restore_hessenberg_form.

(** [bool zero_under_diagonal(int index)]. *)
Definition zero_under_diagonal (index : Z) : Member bool :=
  x <- at_ SchurForm index (index - 1) ;;
  d <- at_ SchurForm index index ;;
  d' <- at_ SchurForm (index - 1) (index - 1) ;;
  p <- get_precision ;;
  ret (ltb (abs x) (mul p (add (abs d) (abs d')))).

(** [void decrement_cur_size(int decrement)]. *)
Definition decrement_cur_size (decrement : Z) : Member unit :=
  c <- get_cur_size ;;
  assign SchurForm (c + 1 - decrement) (c - decrement) zero ;;
  c' <- get_cur_size ;;
  set_cur_size (c' - decrement).

(** The body of the loop of [try_to_deflate]; the value returned is
    [check_deflation] at its end. *)
Definition try_to_deflate_body : Member bool :=
  c <- get_cur_size ;;
  z <- zero_under_diagonal c ;;
  if z then decrement_cur_size 1 ;; ret true
  else
    c' <- get_cur_size ;;
    z' <- zero_under_diagonal (c' - 1) ;;
    if z' then decrement_cur_size 2 ;; ret true
    else ret false.

(** [while (check_deflation)], by passes. *)
Fixpoint try_to_deflate_loop (passes : nat) : Member unit :=
  match passes with
  | O => fun s => OutOfFuel s
  | S passes' =>
      check_deflation <- try_to_deflate_body ;;
      if check_deflation then try_to_deflate_loop passes' else ret tt
  end.

(** [void try_to_deflate()].  A pass that goes on needs [cur_size_ >= 1]
    and lowers it, so [cur_size_ + 1] passes are never used up (lemma
    [try_to_deflate_returns]). *)
Definition try_to_deflate : Member unit :=
  c <- get_cur_size ;;
  try_to_deflate_loop (S (Z.to_nat c)).

(** [while (cur_size_ >= 2)] of [run_QR_algorithm]: nothing bounds the
    number of sweeps, so the model is given the number it may run. *)
Fixpoint QR_loop (sweeps : nat) : Member unit :=
  fun s =>
    if 2 <=? cur_size_ s
    then
      match sweeps with
      | O => OutOfFuel s
      | S sweeps' => (make_QR_iteration ;; try_to_deflate ;; QR_loop sweeps') s
      end
    else Ok tt s.

(** [void run_QR_algorithm()]. *)
Definition run_QR_algorithm (sweeps : nat) : Member unit :=
  n <- size ;;
  set_cur_size (n - 1) ;;
  c <- get_cur_size ;;
  (if 2 <=? c then try_to_deflate else ret tt) ;;
  QR_loop sweeps.

(** [void run(data, schur_form, unitary)]. *)
Definition run (data : Matrix) (schur_form unitary : option Matrix) (sweeps : nat)
  : Member unit :=
  set_internal_resources data schur_form unitary ;;
  reduce_to_hessenberg_form ;;
  run_QR_algorithm sweeps.

End Class.
End RelativeThreshold.

(** ** The class with the absolute threshold *)

Module AbsoluteThreshold.
Section Class.
Context {Scalar : Type} {A : Arithmetic Scalar} {H : HessenbergReduction Scalar}.

Local Abbreviation Matrix := (DynamicMatrix Scalar).
Local Abbreviation Member := (M Scalar).

(** [SchurDecomposition(Precision precision)]. *)
Definition construct (precision : Scalar) (indeterminate : Z)
  : option (SchurDecomposition Scalar) :=
  if leb zero precision
  then Some {| precision_ := precision;
               p_schur_form_ := None;
               p_unitary_ := None;
               cur_size_ := indeterminate |}
  else None.

(** [void set_internal_members(data, schur_form, unitary)]. *)
Definition set_internal_members (data : Matrix) (schur_form unitary : option Matrix)
  : Member unit :=
  assert (rows data =? cols data) ;;
  assert (non_null schur_form) ;;
  assert (non_null unitary) ;;
  set_pointer SchurForm schur_form ;;
  set_pointer Unitary unitary ;;
  store SchurForm data.

(** [bool near_zero(Scalar value)]. *)
Definition near_zero (value : Scalar) : Member bool :=
  p <- get_precision ;;
  ret (ltb (abs value) p).

(** [Vector3 find_starter_column()]. *)
Definition find_starter_column : Member Matrix :=
  trace <- find_bottom_corner_trace ;;
  det <- find_bottom_corner_det ;;
  b <- block SchurForm 0 0 3 3 ;;
  top_corner <- values b ;;
  let starter_block :=
    mat_add (mat_sub (mat_mul top_corner top_corner) (mat_scale trace top_corner))
            (mat_scale det (identity 3)) in
  ret (col starter_block 0).

(** [void start()]. *)
Definition start : Member unit :=
  v <- find_starter_column ;;
  r <- Reflector v ;;
  n <- size ;;
  b <- block SchurForm 0 0 3 n ;;
  reflect_left r b ;;
  c <- get_cur_size ;;
  b1 <- block SchurForm 0 0 (Z.min c 3 + 1) 3 ;;
  reflect_right r b1 ;;
  n1 <- size ;;
  b2 <- block Unitary 0 0 n1 3 ;;
  reflect_right r b2.

(** The loop body of [process], first part: the reflector of the step and
    its application from the left. *)
Definition process_left (step : Z) : Member HouseholderReflector :=
  b <- block SchurForm (step + 1) step 3 1 ;;
  v <- values b ;;
  r <- Reflector v ;;
  n <- size ;;
  b1 <- block SchurForm (step + 1) step 3 (n - step) ;;
  reflect_left r b1 ;;
  ret r.

(** The loop body of [process], second part: the application from the
    right to the Schur form. *)
Definition process_right (r : HouseholderReflector) (step : Z) : Member unit :=
  c <- get_cur_size ;;
  b <- block SchurForm 0 (step + 1) (Z.min c (step + 4) + 1) 3 ;;
  reflect_right r b.

(** The loop body of [process], last part: the accumulation. *)
Definition process_unitary (r : HouseholderReflector) (step : Z) : Member unit :=
  n <- size ;;
  b <- block Unitary 0 (step + 1) n 3 ;;
  reflect_right r b.

(** The loop body of [process]. *)
Definition process_step (step : Z) : Member unit :=
  r <- process_left step ;;
  process_right r step ;;
  process_unitary r step.

(** [void process()]: [step] runs from [0] while [step <= cur_size_ - 3]. *)
Definition process : Member unit :=
  c <- get_cur_size ;;
  for_steps (Z.to_nat (c - 2)) 0 process_step ;;
  ret tt.

(** [void finish()]. *)
Definition finish : Member unit :=
  c <- get_cur_size ;;
  b <- block SchurForm (c - 1) (c - 2) 2 1 ;;
  v <- values b ;;
  r <- Reflector v ;;
  n <- size ;;
  b1 <- block SchurForm (c - 1) (c - 2) 2 (n - c + 2) ;;
  reflect_left r b1 ;;
  c1 <- get_cur_size ;;
  b2 <- block SchurForm 0 (c1 - 1) (c1 + 1) 2 ;;
  reflect_right r b2 ;;
  c2 <- get_cur_size ;;
  n1 <- size ;;
  b3 <- block Unitary 0 (c2 - 1) n1 2 ;;
  reflect_right r b3.

(** [void deflate_once()]. *)
Definition deflate_once : Member unit :=
  c <- get_cur_size ;;
  assign SchurForm c (c - 1) zero ;;
  c' <- get_cur_size ;;
  set_cur_size (c' - 1).

(** [void deflate_twice()]. *)
Definition deflate_twice : Member unit :=
  c <- get_cur_size ;;
  assign SchurForm (c - 1) (c - 2) zero ;;
  c' <- get_cur_size ;;
  set_cur_size (c' - 2).

(** [void try_deflate()]. *)
Definition try_deflate : Member unit :=
  c <- get_cur_size ;;
  x <- at_ SchurForm c (c - 1) ;;
  z <- near_zero x ;;
  if z then deflate_once
  else
    c' <- get_cur_size ;;
    x' <- at_ SchurForm (c' - 1) (c' - 2) ;;
    z' <- near_zero x' ;;
    if z' then deflate_twice else ret tt.

(** The loop of [run_QR_algorithm], [for (...; cur_size_ >= 2;)], given the
    number of sweeps it may run. *)
Fixpoint QR_loop (sweeps : nat) : Member unit :=
  fun s =>
    if 2 <=? cur_size_ s
    then
      match sweeps with
      | O => OutOfFuel s
      | S sweeps' => (start ;; process ;; finish ;; try_deflate ;; QR_loop sweeps') s
      end
    else Ok tt s.

(** [void run_QR_algorithm()]. *)
Definition run_QR_algorithm (sweeps : nat) : Member unit :=
  n <- size ;;
  set_cur_size (n - 1) ;;
  QR_loop sweeps.

(** [void run(data, schur_form, unitary)]. *)
Definition run (data : Matrix) (schur_form unitary : option Matrix) (sweeps : nat)
  : Member unit :=
  set_internal_members data schur_form unitary ;;
  reduce_to_hessenberg_form ;;
  run_QR_algorithm sweeps.

End Class.
End AbsoluteThreshold.

(** ** [TridiagonalSymmetric] *)

Module Tridiagonal.
Section Class.
Context {Scalar : Type}.

(** What freshly allocated storage holds. *)
Variable indeterminate : Z -> Scalar.

(** [size_t]: 64 bits, unsigned. *)
Definition to_size_t (z : Z) : Z := z mod 2 ^ 64.

(** [Eigen::Index]: 64 bits, signed. *)
Definition to_Index (z : Z) : Z :=
  let w := z mod 2 ^ 64 in
  if w <? 2 ^ 63 then w else w - 2 ^ 64.

(** [DynamicVector(n)]: [n] coefficients, not initialised. *)
Definition DynamicVector (n : Z) : DynamicMatrix Scalar :=
  {| rows := n; cols := 1; coeff := fun i _ => indeterminate i |}.

(** Eigen's [size()] of a vector. *)
Definition length_of (v : DynamicMatrix Scalar) : Z := rows v * cols v.

Record TridiagonalSymmetric : Type := {
  major_diagonal_ : DynamicMatrix Scalar;
  side_diagonal_ : DynamicMatrix Scalar;
  size_ : Z
}.

(** [TridiagonalSymmetric(int size)]; [None] is the assertion failing. *)
Definition construct (size : Z) : option TridiagonalSymmetric :=
  let size_0 := to_size_t size in
  if 2 <=? size
  then Some {| major_diagonal_ := DynamicVector (to_Index size_0);
               side_diagonal_ := DynamicVector (to_Index (to_size_t (size_0 - 1)));
               size_ := size_0 |}
  else None.

Definition get_major_diagonal (t : TridiagonalSymmetric) : DynamicMatrix Scalar :=
  major_diagonal_ t.

Definition get_side_diagonal (t : TridiagonalSymmetric) : DynamicMatrix Scalar :=
  side_diagonal_ t.

Definition get_size (t : TridiagonalSymmetric) : Z := size_ t.

(** What a holder of the object can do to it: assign through one of the
    two references the non-const accessors hand out. *)
Inductive Write : Type :=
| ThroughMajorDiagonal (v : DynamicMatrix Scalar)
| ThroughSideDiagonal (v : DynamicMatrix Scalar).

Definition write (t : TridiagonalSymmetric) (w : Write) : TridiagonalSymmetric :=
  match w with
  | ThroughMajorDiagonal v =>
      {| major_diagonal_ := v; side_diagonal_ := side_diagonal_ t; size_ := size_ t |}
  | ThroughSideDiagonal v =>
      {| major_diagonal_ := major_diagonal_ t; side_diagonal_ := v; size_ := size_ t |}
  end.

End Class.
End Tridiagonal.

(** ** A collaborator over [Z] for the examples *)

(** The reflector exchanges the first two coordinates (it is [I - v v^T]
    for [v = e0 - e1]); the reduction leaves the matrix as it is, which is
    right for an input already in Hessenberg form, and sets the accumulator
    to the identity. *)
Definition exchange_rows (m : DynamicMatrix Z) : DynamicMatrix Z :=
  {| rows := rows m;
     cols := cols m;
     coeff := fun i j => coeff m (if i =? 0 then 1 else if i =? 1 then 0 else i) j |}.

Definition exchange_cols (m : DynamicMatrix Z) : DynamicMatrix Z :=
  {| rows := rows m;
     cols := cols m;
     coeff := fun i j => coeff m i (if j =? 0 then 1 else if j =? 1 then 0 else j) |}.

#[export] Instance Z_collaborator : HessenbergReduction Z := {
  HouseholderReflector := unit;
  make_reflector := fun _ => Some tt;
  reflect_left_values := fun _ m => Some (exchange_rows m);
  reflect_right_values := fun _ m => Some (exchange_cols m);
  hessenberg_run := fun t _ => Some (t, identity (rows t))
}.

(** A matrix over [Z] from its rows. *)
Definition of_rows (n : Z) (l : list (list Z)) : DynamicMatrix Z :=
  {| rows := n;
     cols := n;
     coeff := fun i j => nth (Z.to_nat j) (nth (Z.to_nat i) l []) 0 |}.

(** ** The two deflation criteria, as the specification words them *)

Section Criteria.
Context {Scalar : Type} {A : Arithmetic Scalar}.

(** [|T(i, i-1)| < precision * (|T(i, i)| + |T(i-1, i-1)|)]. *)
Definition relative_test (precision : Scalar) (t : DynamicMatrix Scalar) (i : Z) : bool :=
  ltb (abs (coeff t i (i - 1)))
      (mul precision (add (abs (coeff t i i)) (abs (coeff t (i - 1) (i - 1))))).

(** [|T(i, i-1)| < precision]. *)
Definition absolute_test (precision : Scalar) (t : DynamicMatrix Scalar) (i : Z) : bool :=
  ltb (abs (coeff t i (i - 1))) precision.

(** The object after a deflation by [k]: the entry [(cur_size_ + 1 - k,
    cur_size_ - k)] of the Schur form [t] is zero and [cur_size_] is [k]
    less. *)
Definition deflated (s : SchurDecomposition Scalar) (t : DynamicMatrix Scalar) (k : Z)
  : SchurDecomposition Scalar :=
  {| precision_ := precision_ s;
     p_schur_form_ :=
       Some (set_coeff t (cur_size_ s + 1 - k) (cur_size_ s - k) zero);
     p_unitary_ := p_unitary_ s;
     cur_size_ := cur_size_ s - k |}.


End Criteria.

(** ** The shift polynomial, as the specification words it *)

Section ShiftPolynomial.
Context {Scalar : Type} {A : Arithmetic Scalar}.

(** The trailing 2x2 block of the active region. *)
Definition bottom_corner (c : Z) : Extent :=
  {| startRow := c - 1; startCol := c - 1; blockRows := 2; blockCols := 2 |}.

(** The trace of the trailing 2x2 block of the active region. *)
Definition bottom_trace (t : DynamicMatrix Scalar) (c : Z) : Scalar :=
  add (coeff t (c - 1) (c - 1)) (coeff t c c).

(** What [determinant()] returns for the trailing 2x2 block of the active
    region. *)
Definition bottom_determinant (t : DynamicMatrix Scalar) (c : Z) : Scalar :=
  determinant (block_values t (bottom_corner c)).


End ShiftPolynomial.

(** ** Properties of states and of Schur forms used by the statements *)

Section StateProperties.
Context {Scalar : Type} {A : Arithmetic Scalar}.

(** Neither test of the deflation fires. *)
Definition settled (s : SchurDecomposition Scalar) : Prop :=
  RelativeThreshold.zero_under_diagonal (cur_size_ s) s = Ok false s /\
  RelativeThreshold.zero_under_diagonal (cur_size_ s - 1) s = Ok false s.

(** [t'] has the extents of [t] and its entries outside rows
    [0 .. min(c, step + 4)] of columns [step + 1 .. step + 3]. *)
Definition unchanged_outside_band (c step : Z) (t t' : DynamicMatrix Scalar) : Prop :=
  rows t' = rows t /\ cols t' = cols t /\
  forall i j,
    ~ (0 <= i <= Z.min c (step + 4) /\ step + 1 <= j <= step + 3) ->
    coeff t' i j = coeff t i j.

End StateProperties.

(** ** Concrete objects over [Z] *)

(** An object whose Schur form is [t], with the identity as accumulator. *)
Definition object_of (precision : Z) (t : DynamicMatrix Z) (c : Z) : SchurDecomposition Z :=
  {| precision_ := precision;
     p_schur_form_ := Some t;
     p_unitary_ := Some (identity (rows t));
     cur_size_ := c |}.

(** A 3x3 Hessenberg matrix with a zero diagonal and a zero last
    subdiagonal entry. *)
Definition hollow3 : DynamicMatrix Z :=
  of_rows 3 [[0; 1; 1]; [5; 0; 1]; [0; 0; 0]].

(** A 3x3 Hessenberg matrix whose last subdiagonal entry is within the
    relative tolerance and whose first one is not. *)
Definition ripe3 : DynamicMatrix Z :=
  of_rows 3 [[1; 2; 3]; [5; 1; 4]; [0; 0; 1]].

(** A 4x4 Hessenberg matrix with two zero subdiagonal entries at the end. *)
Definition twice4 : DynamicMatrix Z :=
  of_rows 4 [[1; 2; 3; 4]; [5; 1; 4; 2]; [0; 0; 1; 3]; [0; 0; 0; 1]].

(** A 4x4 Hessenberg matrix with no small subdiagonal entry. *)
Definition firm4 : DynamicMatrix Z :=
  of_rows 4 [[1; 2; 3; 4]; [5; 1; 4; 2]; [0; 5; 1; 3]; [0; 0; 5; 1]].

(** A 4x4 Hessenberg matrix whose trailing 2x2 block has converged: its
    entry [(2, 1)] is zero, its entry [(3, 2)] is not small. *)
Definition block4 : DynamicMatrix Z :=
  of_rows 4 [[1; 2; 3; 4]; [5; 1; 4; 2]; [0; 0; 1; 3]; [0; 0; 5; 1]].

(** A 5x5 Hessenberg matrix whose last subdiagonal entry only is small. *)
Definition last5 : DynamicMatrix Z :=
  of_rows 5 [[1; 2; 3; 4; 5]; [5; 1; 4; 2; 3]; [0; 5; 1; 3; 2];
             [0; 0; 5; 1; 4]; [0; 0; 0; 0; 1]].

(** The 2x2 input of the first example of the specification. *)
Definition symmetric2 : DynamicMatrix Z := of_rows 2 [[2; 1]; [1; 2]].

(** A matrix over [double] from its rows. *)
Definition double_rows (n : Z) (l : list (list float)) : DynamicMatrix float :=
  {| rows := n;
     cols := n;
     coeff := fun i j => nth (Z.to_nat j) (nth (Z.to_nat i) l []) 0%float |}.

(** An object over [double] whose Schur form is [t], with the identity as
    accumulator. *)
Definition double_object (precision : float) (t : DynamicMatrix float) (c : Z)
  : SchurDecomposition float :=
  {| precision_ := precision;
     p_schur_form_ := Some t;
     p_unitary_ := Some (identity (rows t));
     cur_size_ := c |}.


(** A 3x3 upper Hessenberg matrix over [double] whose trailing 2x2 block is
    [[1, 1], [3, 4]], of determinant 1. *)
Definition pivoted3 : DynamicMatrix float :=
  double_rows 3 [[1; 2; 3]; [4; 1; 1]; [0; 3; 4]]%float.

(** An object just constructed with precision 1. *)
Definition fresh_object : SchurDecomposition Z :=
  {| precision_ := 1; p_schur_form_ := None; p_unitary_ := None; cur_size_ := 0 |}.


(** ** What the QR loop keeps *)

Section LoopProperties.
Context {Scalar : Type} {A : Arithmetic Scalar} {H : HessenbergReduction Scalar}.

(** The extents of the matrix a pointer member points to. *)
Definition extents (q : option (DynamicMatrix Scalar)) : option (Z * Z) :=
  match q with
  | Some m => Some (rows m, cols m)
  | None => None
  end.

(** The rows after row [c] are the same in both buffers. *)
Definition rows_frozen (c : Z) (q q' : option (DynamicMatrix Scalar)) : Prop :=
  forall t t', q = Some t -> q' = Some t' ->
               forall i j, c < i -> coeff t' i j = coeff t i j.

(** The columns after column [c] are the same in both buffers. *)
Definition cols_frozen (c : Z) (q q' : option (DynamicMatrix Scalar)) : Prop :=
  forall t t', q = Some t -> q' = Some t' ->
               forall i j, c < j -> coeff t' i j = coeff t i j.

(** From [s] to [s']: the precision and the extents of the two buffers
    are kept, [cur_size_] has not grown, and nothing has changed in the
    rows of the Schur form and in the columns of the accumulator after
    index [max(cur_size_, 2)] of [s]. *)
Definition loop_frame (s s' : SchurDecomposition Scalar) : Prop :=
  precision_ s' = precision_ s
  /\ cur_size_ s' <= cur_size_ s
  /\ extents (p_schur_form_ s') = extents (p_schur_form_ s)
  /\ extents (p_unitary_ s') = extents (p_unitary_ s)
  /\ rows_frozen (Z.max (cur_size_ s) 2) (p_schur_form_ s) (p_schur_form_ s')
  /\ cols_frozen (Z.max (cur_size_ s) 2) (p_unitary_ s) (p_unitary_ s').

(** Both buffers are there and are [n] by [n]. *)
Definition well_formed (n : Z) (s : SchurDecomposition Scalar) : Prop :=
  extents (p_schur_form_ s) = Some (n, n) /\ extents (p_unitary_ s) = Some (n, n).

(** The assertions of the reflector class never fail. *)
Definition reflectors_never_fail : Prop :=
  (forall v, make_reflector v <> None)
  /\ (forall r m, reflect_left_values r m <> None)
  /\ (forall r m, reflect_right_values r m <> None).

(** From [s] to [s'] by deflation only: precision and accumulator are the
    same, the extents of the Schur form too, and an entry of the Schur form
    that differs is a subdiagonal entry, now zero, of a row between the new
    [cur_size_] (excluded) and the old one. *)
Definition deflation_frame (s s' : SchurDecomposition Scalar) : Prop :=
  precision_ s' = precision_ s
  /\ p_unitary_ s' = p_unitary_ s
  /\ cur_size_ s' <= cur_size_ s
  /\ extents (p_schur_form_ s') = extents (p_schur_form_ s)
  /\ forall t t', p_schur_form_ s = Some t -> p_schur_form_ s' = Some t' ->
                  forall i j,
                    coeff t' i j = coeff t i j
                    \/ (coeff t' i j = zero /\ j = i - 1
                        /\ cur_size_ s' < i <= cur_size_ s).

(** A member function that, started with [cur_size_ = c], keeps
    [cur_size_] and what [loop_frame] names, however it ends. *)
Definition framed (c : Z) (R : Type) (m : M Scalar R) : Prop :=
  forall s, cur_size_ s = c ->
            loop_frame s (state_of (m s)) /\ cur_size_ (state_of (m s)) = c.

(** A member function that, started on [n] by [n] buffers with
    [cur_size_ = c], never stops at an index, a block or a pointer: it
    returns, with the buffers still [n] by [n] and [cur_size_] still [c],
    or it stops inside the reflector class. *)
Definition in_bounds (n c : Z) (R : Type) (m : M Scalar R) : Prop :=
  forall s, well_formed n s -> cur_size_ s = c ->
            match m s with
            | Ok _ s' => well_formed n s' /\ cur_size_ s' = c
            | Fault e _ => e = CollaboratorFailed
            | OutOfFuel _ => False
            end.

(** A member function that leaves [precision_] alone, however it ends. *)
Definition keeps_precision (R : Type) (m : M Scalar R) : Prop :=
  forall s, precision_ (state_of (m s)) = precision_ s.

End LoopProperties.

(** * Facts about the member functions *)

Section MemberFacts.
Context {Scalar : Type} {A : Arithmetic Scalar} {H : HessenbergReduction Scalar}.

Local Abbreviation State := (SchurDecomposition Scalar).
Local Abbreviation Matrix := (DynamicMatrix Scalar).
Local Abbreviation Member := (M Scalar).

(** A member function that only reads: it returns or faults in the state
    it started from. *)
Definition reads (R : Type) (m : Member R) : Prop :=
  forall s, (exists r, m s = Ok r s) \/ (exists e, m s = Fault e s).

(** A member function that leaves [cur_size_] alone and always comes to an
    end. *)
Definition keeps_cur_size (R : Type) (m : Member R) : Prop :=
  forall s,
    match m s with
    | Ok _ s' => cur_size_ s' = cur_size_ s
    | Fault _ s' => cur_size_ s' = cur_size_ s
    | OutOfFuel _ => False
    end.

Lemma bind_Ok_inv (R R' : Type) (m : Member R) (f : R -> Member R') s r' s' :
  bind m f s = Ok r' s' -> exists r s1, m s = Ok r s1 /\ f r s1 = Ok r' s'.
Proof.
  unfold bind. destruct (m s) as [r s1|e s1|s1]; intros E; try discriminate.
  now exists r, s1.
Qed.

Lemma bind_OutOfFuel_inv (R R' : Type) (m : Member R) (f : R -> Member R') s s' :
  bind m f s = OutOfFuel s' ->
  m s = OutOfFuel s' \/ exists r s1, m s = Ok r s1 /\ f r s1 = OutOfFuel s'.
Proof.
  unfold bind. destruct (m s) as [r s1|e s1|s1]; intros E; try discriminate.
  - right. now exists r, s1.
  - left. now inversion E.
Qed.

Lemma reads_ret (R : Type) (r : R) : reads (ret r).
Proof. intros s. left. now exists r. Qed.

Lemma reads_fail (R : Type) (e : Error) : reads (@fail Scalar R e).
Proof. intros s. right. now exists e. Qed.

Lemma reads_bind (R R' : Type) (m : Member R) (f : R -> Member R') :
  reads m -> (forall r, reads (f r)) -> reads (bind m f).
Proof.
  intros Hm Hf s. destruct (Hm s) as [[r E]|[e E]].
  - unfold bind. rewrite E. apply Hf.
  - right. exists e. unfold bind. now rewrite E.
Qed.

Lemma reads_assert (b : bool) : reads (assert b).
Proof. destruct b; [apply reads_ret | apply reads_fail]. Qed.

Lemma reads_get_cur_size : reads get_cur_size.
Proof. intros s. left. now exists (cur_size_ s). Qed.

Lemma reads_get_precision : reads get_precision.
Proof. intros s. left. now exists (precision_ s). Qed.

Lemma reads_deref (p : Buffer) : reads (deref p).
Proof.
  intros s. unfold deref. destruct (pointer p s) as [m|].
  - left. now exists m.
  - right. now exists NullPointer.
Qed.

Ltac reads_step :=
  first
    [ apply reads_ret
    | apply reads_fail
    | apply reads_assert
    | apply reads_get_cur_size
    | apply reads_get_precision
    | apply reads_deref
    | apply reads_bind; [ | intros ]
    | match goal with
      | |- reads (if ?b then _ else _) => destruct b
      | |- reads (match ?x with _ => _ end) => destruct x
      end
    | assumption ].

Lemma reads_at_ (p : Buffer) (i j : Z) : reads (at_ p i j).
Proof. unfold at_. repeat reads_step. Qed.

Lemma reads_block (p : Buffer) (r0 c0 nr nc : Z) : reads (block p r0 c0 nr nc).
Proof. unfold block. repeat reads_step. Qed.

Lemma reads_values (b : Block) : reads (values b).
Proof. unfold values. repeat reads_step. Qed.

Lemma reads_Reflector (v : Matrix) : reads (Reflector v).
Proof. unfold Reflector. repeat reads_step. Qed.

Lemma reads_size : reads size.
Proof. unfold size. repeat reads_step. Qed.

Lemma reads_find_bottom_corner_trace : reads find_bottom_corner_trace.
Proof.
  unfold find_bottom_corner_trace.
  repeat first [ apply reads_block | apply reads_values | reads_step ].
Qed.

Lemma reads_find_bottom_corner_det : reads find_bottom_corner_det.
Proof.
  unfold find_bottom_corner_det.
  repeat first [ apply reads_block | apply reads_values | reads_step ].
Qed.

Lemma keeps_of_reads (R : Type) (m : Member R) : reads m -> keeps_cur_size m.
Proof.
  intros Hm s. destruct (Hm s) as [[r E]|[e E]]; now rewrite E.
Qed.

Lemma keeps_bind (R R' : Type) (m : Member R) (f : R -> Member R') :
  keeps_cur_size m -> (forall r, keeps_cur_size (f r)) -> keeps_cur_size (bind m f).
Proof.
  intros Hm Hf s. unfold bind. specialize (Hm s).
  destruct (m s) as [r s1|e s1|s1]; auto.
  specialize (Hf r s1). destruct (f r s1); auto; congruence.
Qed.

Lemma keeps_set_pointer (p : Buffer) (q : option Matrix) : keeps_cur_size (set_pointer p q).
Proof. intros s. destruct p; reflexivity. Qed.

Lemma keeps_store (p : Buffer) (m : Matrix) : keeps_cur_size (store p m).
Proof.
  intros s. unfold store. destruct (pointer p s); [apply keeps_set_pointer | reflexivity].
Qed.

Ltac keeps_step :=
  first
    [ apply keeps_store
    | apply keeps_set_pointer
    | apply keeps_of_reads;
      solve [ repeat first [ apply reads_at_ | apply reads_block | apply reads_values
                           | apply reads_Reflector | apply reads_size
                           | apply reads_find_bottom_corner_trace
                           | apply reads_find_bottom_corner_det
                           | reads_step ] ]
    | apply keeps_bind; [ | intros ]
    | match goal with
      | |- keeps_cur_size (if ?b then _ else _) => destruct b
      | |- keeps_cur_size (match ?x with _ => _ end) => destruct x
      end
    | assumption ].

Lemma keeps_assign (p : Buffer) (i j : Z) (v : Scalar) : keeps_cur_size (assign p i j v).
Proof. unfold assign. repeat keeps_step. Qed.

Lemma keeps_reflect_left (r : HouseholderReflector) (b : Block) :
  keeps_cur_size (reflect_left r b).
Proof. unfold reflect_left. repeat keeps_step. Qed.

Lemma keeps_reflect_right (r : HouseholderReflector) (b : Block) :
  keeps_cur_size (reflect_right r b).
Proof. unfold reflect_right. repeat keeps_step. Qed.

Lemma keeps_reduce_to_hessenberg_form : keeps_cur_size reduce_to_hessenberg_form.
Proof. unfold reduce_to_hessenberg_form. repeat keeps_step. Qed.

Lemma keeps_for_steps (body : Z -> Member unit) :
  (forall step, keeps_cur_size (body step)) ->
  forall n step, keeps_cur_size (for_steps n step body).
Proof.
  intros Hb n. induction n as [|n IH]; intros step; simpl.
  - apply keeps_of_reads, reads_ret.
  - apply keeps_bind; [apply Hb | intros; apply IH].
Qed.

End MemberFacts.

Ltac reads_step :=
  first
    [ apply reads_ret
    | apply reads_fail
    | apply reads_assert
    | apply reads_get_cur_size
    | apply reads_get_precision
    | apply reads_deref
    | apply reads_at_
    | apply reads_block
    | apply reads_values
    | apply reads_Reflector
    | apply reads_size
    | apply reads_find_bottom_corner_trace
    | apply reads_find_bottom_corner_det
    | apply reads_bind; [ | intros ]
    | match goal with
      | |- reads (if ?b then _ else _) => destruct b
      | |- reads (match ?x with _ => _ end) => destruct x
      end
    | assumption ].

Ltac keeps_step :=
  first
    [ apply keeps_store
    | apply keeps_set_pointer
    | apply keeps_assign
    | apply keeps_reflect_left
    | apply keeps_reflect_right
    | apply keeps_reduce_to_hessenberg_form
    | apply keeps_of_reads; solve [ repeat reads_step ]
    | apply keeps_bind; [ | intros ]
    | match goal with
      | |- keeps_cur_size (if ?b then _ else _) => destruct b
      | |- keeps_cur_size (match ?x with _ => _ end) => destruct x
      end
    | assumption ].

Section AccessFacts.
Context {Scalar : Type} {A : Arithmetic Scalar} {H : HessenbergReduction Scalar}.

Local Abbreviation State := (SchurDecomposition Scalar).
Local Abbreviation Matrix := (DynamicMatrix Scalar).

Lemma in_range_iff (m : Matrix) (i j : Z) :
  in_range m i j = true <-> 0 <= i < rows m /\ 0 <= j < cols m.
Proof. unfold in_range. rewrite !andb_true_iff. lia. Qed.

Lemma in_range_false (m : Matrix) (i j : Z) :
  in_range m i j = false <-> ~ (0 <= i < rows m /\ 0 <= j < cols m).
Proof.
  rewrite <- in_range_iff. destruct (in_range m i j); split; intros; congruence.
Qed.

Lemma at_value (p : Buffer) (i j : Z) (s : State) (m : Matrix) :
  pointer p s = Some m -> in_range m i j = true ->
  at_ p i j s = Ok (coeff m i j) s.
Proof.
  intros Hp Hr. unfold at_, bind, deref. now rewrite Hp, Hr.
Qed.

Lemma at_fault (p : Buffer) (i j : Z) (s : State) (m : Matrix) :
  pointer p s = Some m -> in_range m i j = false ->
  at_ p i j s = Fault (IndexOutOfRange i j) s.
Proof.
  intros Hp Hr. unfold at_, bind, deref. now rewrite Hp, Hr.
Qed.

Lemma at_null (p : Buffer) (i j : Z) (s : State) :
  pointer p s = None -> at_ p i j s = Fault NullPointer s.
Proof.
  intros Hp. unfold at_, bind, deref. now rewrite Hp.
Qed.

Lemma at_Ok_inv (p : Buffer) (i j : Z) (s s' : State) (v : Scalar) :
  at_ p i j s = Ok v s' ->
  s' = s /\ exists m, pointer p s = Some m /\ in_range m i j = true /\ v = coeff m i j.
Proof.
  unfold at_, bind, deref. destruct (pointer p s) as [m|]; [|discriminate].
  destruct (in_range m i j) eqn:Hr; [|discriminate].
  unfold ret. intros E. inversion E; subst. split; [reflexivity|].
  now exists m.
Qed.

Lemma assign_value (i j : Z) (v : Scalar) (s : State) (m : Matrix) :
  p_schur_form_ s = Some m -> in_range m i j = true ->
  assign SchurForm i j v s =
  Ok tt {| precision_ := precision_ s;
           p_schur_form_ := Some (set_coeff m i j v);
           p_unitary_ := p_unitary_ s;
           cur_size_ := cur_size_ s |}.
Proof.
  intros Hp Hr. unfold assign, bind, deref, store. simpl. now rewrite Hp, Hr, Hp.
Qed.

Lemma assign_cases (i j : Z) (v : Scalar) (s : State) :
  (exists e, assign SchurForm i j v s = Fault e s) \/
  (exists m, p_schur_form_ s = Some m /\ in_range m i j = true /\
             assign SchurForm i j v s =
             Ok tt {| precision_ := precision_ s;
                      p_schur_form_ := Some (set_coeff m i j v);
                      p_unitary_ := p_unitary_ s;
                      cur_size_ := cur_size_ s |}).
Proof.
  destruct (p_schur_form_ s) as [m|] eqn:Hp.
  - destruct (in_range m i j) eqn:Hr.
    + right. exists m. repeat split; auto. now apply assign_value.
    + left. exists (IndexOutOfRange i j).
      unfold assign, bind, deref. simpl. now rewrite Hp, Hr.
  - left. exists NullPointer. unfold assign, bind, deref. simpl. now rewrite Hp.
Qed.

End AccessFacts.

(** ** The relative-threshold class: deflation *)

Section RelativeFacts.
Context {Scalar : Type} {A : Arithmetic Scalar} {H : HessenbergReduction Scalar}.

Local Abbreviation State := (SchurDecomposition Scalar).
Local Abbreviation Matrix := (DynamicMatrix Scalar).

Import RelativeThreshold.

Lemma reads_zero_under_diagonal (index : Z) : reads (zero_under_diagonal index).
Proof. unfold zero_under_diagonal. repeat reads_step. Qed.

Lemma zero_under_diagonal_value (index : Z) (s : State) (t : Matrix) :
  p_schur_form_ s = Some t ->
  1 <= index < rows t -> index < cols t ->
  zero_under_diagonal index s = Ok (relative_test (precision_ s) t index) s.
Proof.
  intros Hp Hr Hc. unfold zero_under_diagonal, bind.
  erewrite at_value; [ | exact Hp | apply in_range_iff; lia ].
  erewrite at_value; [ | exact Hp | apply in_range_iff; lia ].
  erewrite at_value; [ | exact Hp | apply in_range_iff; lia ].
  reflexivity.
Qed.

Lemma zero_under_diagonal_Ok_inv (index : Z) (s s' : State) (b : bool) :
  zero_under_diagonal index s = Ok b s' ->
  s' = s /\
  exists t, p_schur_form_ s = Some t /\ 1 <= index < rows t /\ index < cols t /\
            b = relative_test (precision_ s) t index.
Proof.
  unfold zero_under_diagonal. intros E.
  apply bind_Ok_inv in E. destruct E as (x & s1 & E1 & E).
  apply at_Ok_inv in E1. destruct E1 as (-> & t & Hp & Hr1 & ->).
  apply bind_Ok_inv in E. destruct E as (d & s2 & E2 & E).
  apply at_Ok_inv in E2. destruct E2 as (-> & t2 & Hp2 & Hr2 & ->).
  apply bind_Ok_inv in E. destruct E as (d' & s3 & E3 & E).
  apply at_Ok_inv in E3. destruct E3 as (-> & t3 & Hp3 & Hr3 & ->).
  simpl in Hp, Hp2, Hp3. rewrite Hp in Hp2, Hp3.
  inversion Hp2; inversion Hp3; subst t2 t3.
  unfold bind, get_precision, ret in E. inversion E; subst.
  split; [reflexivity|]. exists t.
  apply in_range_iff in Hr1. apply in_range_iff in Hr2.
  repeat split; auto; lia.
Qed.

Lemma decrement_cur_size_cases (k : Z) (s : State) :
  (exists e, decrement_cur_size k s = Fault e s) \/
  (exists t, p_schur_form_ s = Some t /\
             in_range t (cur_size_ s + 1 - k) (cur_size_ s - k) = true /\
             decrement_cur_size k s = Ok tt (deflated s t k)).
Proof.
  destruct (assign_cases (cur_size_ s + 1 - k) (cur_size_ s - k) zero s)
    as [[e E]|(t & Hp & Hr & E)].
  - left. exists e. unfold decrement_cur_size, bind, get_cur_size. now rewrite E.
  - right. exists t. repeat split; auto.
    unfold decrement_cur_size, bind, get_cur_size. now rewrite E.
Qed.

(** The four ways a pass of the loop of [try_to_deflate] can go. *)
Lemma try_to_deflate_body_cases (s : State) :
  (exists e, try_to_deflate_body s = Fault e s) \/
  (try_to_deflate_body s = Ok false s /\ settled s) \/
  (exists t, p_schur_form_ s = Some t /\
             in_range t (cur_size_ s) (cur_size_ s - 1) = true /\
             zero_under_diagonal (cur_size_ s) s = Ok true s /\
             try_to_deflate_body s = Ok true (deflated s t 1)) \/
  (exists t, p_schur_form_ s = Some t /\
             in_range t (cur_size_ s - 1) (cur_size_ s - 2) = true /\
             zero_under_diagonal (cur_size_ s) s = Ok false s /\
             zero_under_diagonal (cur_size_ s - 1) s = Ok true s /\
             try_to_deflate_body s = Ok true (deflated s t 2)).
Proof.
  destruct (reads_zero_under_diagonal (cur_size_ s) s) as [[z E]|[e E]].
  2:{ left. exists e. unfold try_to_deflate_body, bind, get_cur_size. now rewrite E. }
  destruct z.
  - destruct (decrement_cur_size_cases 1 s) as [[e D]|(t & Hp & Hr & D)].
    + left. exists e. unfold try_to_deflate_body, bind, get_cur_size.
      now rewrite E, D.
    + right. right. left. exists t.
      replace (cur_size_ s + 1 - 1) with (cur_size_ s) in Hr by lia.
      repeat split; auto.
      unfold try_to_deflate_body, bind, get_cur_size. now rewrite E, D.
  - destruct (reads_zero_under_diagonal (cur_size_ s - 1) s) as [[z' E']|[e E']].
    2:{ left. exists e. unfold try_to_deflate_body, bind, get_cur_size.
        now rewrite E, E'. }
    destruct z'.
    + destruct (decrement_cur_size_cases 2 s) as [[e D]|(t & Hp & Hr & D)].
      * left. exists e. unfold try_to_deflate_body, bind, get_cur_size.
        now rewrite E, E', D.
      * right. right. right. exists t.
        replace (cur_size_ s + 1 - 2) with (cur_size_ s - 1) in Hr by lia.
        repeat split; auto.
        unfold try_to_deflate_body, bind, get_cur_size. now rewrite E, E', D.
    + right. left. split; [|split; assumption].
      unfold try_to_deflate_body, bind, get_cur_size. now rewrite E, E'.
Qed.

(** The cascade comes to an end within [cur_size_ + 1] passes; when it
    returns, neither test fires any more; [cur_size_] has not grown. *)
Lemma try_to_deflate_loop_spec (passes : nat) :
  forall s : State,
    (Z.to_nat (cur_size_ s) < passes)%nat ->
    match try_to_deflate_loop passes s with
    | Ok _ s' => settled s' /\ cur_size_ s' <= cur_size_ s
    | Fault _ s' => cur_size_ s' <= cur_size_ s
    | OutOfFuel _ => False
    end.
Proof.
  induction passes as [|passes IH]; intros s Hlt; [lia|].
  simpl. unfold bind.
  destruct (try_to_deflate_body_cases s)
    as [[e E]|[[E St]|[(t & Hp & Hr & _ & E)|(t & Hp & Hr & _ & _ & E)]]];
    rewrite E.
  - lia.
  - simpl. split; [exact St | lia].
  - apply in_range_iff in Hr.
    specialize (IH (deflated s t 1)). simpl in IH.
    assert (Hlt' : (Z.to_nat (cur_size_ s - 1) < passes)%nat) by lia.
    specialize (IH Hlt').
    destruct (try_to_deflate_loop passes (deflated s t 1)); simpl in *; try lia.
    destruct IH; split; auto; lia.
  - apply in_range_iff in Hr.
    specialize (IH (deflated s t 2)). simpl in IH.
    assert (Hlt' : (Z.to_nat (cur_size_ s - 2) < passes)%nat) by lia.
    specialize (IH Hlt').
    destruct (try_to_deflate_loop passes (deflated s t 2)); simpl in *; try lia.
    destruct IH; split; auto; lia.
Qed.

Lemma try_to_deflate_returns (s : State) :
  match try_to_deflate s with
  | Ok _ s' => settled s' /\ cur_size_ s' <= cur_size_ s
  | Fault _ s' => cur_size_ s' <= cur_size_ s
  | OutOfFuel _ => False
  end.
Proof.
  unfold try_to_deflate, bind, get_cur_size.
  apply try_to_deflate_loop_spec. lia.
Qed.

End RelativeFacts.

(** ** The relative-threshold class: the sweep and the QR loop *)

Section RelativeSweep.
Context {Scalar : Type} {A : Arithmetic Scalar} {H : HessenbergReduction Scalar}.

Local Abbreviation State := (SchurDecomposition Scalar).
Local Abbreviation Matrix := (DynamicMatrix Scalar).

Import RelativeThreshold.

Lemma decrement_cur_size_value (k : Z) (s : State) (t : Matrix) :
  p_schur_form_ s = Some t ->
  in_range t (cur_size_ s + 1 - k) (cur_size_ s - k) = true ->
  decrement_cur_size k s = Ok tt (deflated s t k).
Proof.
  intros Hp Hr. unfold decrement_cur_size, bind, get_cur_size.
  now rewrite (assign_value _ _ _ _ Hp Hr).
Qed.

Lemma reads_find_matching_column : reads find_matching_column.
Proof. unfold find_matching_column. repeat reads_step. Qed.

Lemma reads_get_reflected_column (step rows : Z) :
  reads (get_reflected_column step rows).
Proof. unfold get_reflected_column. repeat reads_step. Qed.

Lemma keeps_update_schur_form_left (r : HouseholderReflector) (step length : Z) :
  keeps_cur_size (update_schur_form_left r step length).
Proof. unfold update_schur_form_left. repeat keeps_step. Qed.

Lemma keeps_update_schur_form_right (r : HouseholderReflector) (step length : Z) :
  keeps_cur_size (update_schur_form_right r step length).
Proof. unfold update_schur_form_right. repeat keeps_step. Qed.

Lemma keeps_update_schur_form (r : HouseholderReflector) (step length : Z) :
  keeps_cur_size (update_schur_form r step length).
Proof.
  unfold update_schur_form. apply keeps_bind; intros;
    [apply keeps_update_schur_form_left | apply keeps_update_schur_form_right].
Qed.

Lemma keeps_update_unitary (r : HouseholderReflector) (step length : Z) :
  keeps_cur_size (update_unitary r step length).
Proof. unfold update_unitary. repeat keeps_step. Qed.

Ltac sweep_step :=
  first
    [ apply keeps_update_schur_form
    | apply keeps_update_unitary
    | apply keeps_of_reads;
      solve [ first [ apply reads_find_matching_column
                    | apply reads_get_reflected_column
                    | repeat reads_step ] ]
    | apply keeps_bind; [ | intros ] ].

Lemma keeps_set_matching_column : keeps_cur_size set_matching_column.
Proof. unfold set_matching_column. repeat sweep_step. Qed.

Lemma keeps_restore_step (step : Z) : keeps_cur_size (restore_step step).
Proof. unfold restore_step. repeat sweep_step. Qed.

Lemma keeps_restore_hessenberg_form : keeps_cur_size restore_hessenberg_form.
Proof.
  unfold restore_hessenberg_form.
  apply keeps_bind; [apply keeps_of_reads, reads_get_cur_size | intros c].
  apply keeps_bind; [apply keeps_for_steps, keeps_restore_step | intros step].
  repeat sweep_step.
Qed.

Lemma keeps_make_QR_iteration : keeps_cur_size make_QR_iteration.
Proof.
  unfold make_QR_iteration. apply keeps_bind; intros;
    [apply keeps_set_matching_column | apply keeps_restore_hessenberg_form].
Qed.

(** One pass of the QR loop: a sweep, then the cascade. *)
Lemma QR_pass_spec (s : State) :
  match (make_QR_iteration ;; try_to_deflate) s with
  | Ok _ s' => settled s' /\ cur_size_ s' <= cur_size_ s
  | Fault _ s' => cur_size_ s' <= cur_size_ s
  | OutOfFuel _ => False
  end.
Proof.
  unfold bind. pose proof (keeps_make_QR_iteration s) as K.
  destruct (make_QR_iteration s) as [r s1|e s1|s1]; [|lia|exact K].
  pose proof (try_to_deflate_returns s1) as T.
  destruct (try_to_deflate s1); [destruct T; split; auto; lia|lia|exact T].
Qed.

Lemma QR_loop_unfold (sweeps : nat) (s : State) :
  QR_loop sweeps s =
  if 2 <=? cur_size_ s
  then match sweeps with
       | O => OutOfFuel s
       | S sweeps' =>
           match (make_QR_iteration ;; try_to_deflate) s with
           | Ok _ s' => QR_loop sweeps' s'
           | Fault e s' => Fault e s'
           | OutOfFuel s' => OutOfFuel s'
           end
       end
  else Ok tt s.
Proof.
  destruct sweeps; simpl; [reflexivity|].
  destruct (2 <=? cur_size_ s); [|reflexivity].
  unfold bind. destruct (make_QR_iteration s); [|reflexivity|reflexivity].
  destruct (try_to_deflate s0); reflexivity.
Qed.

(** The loop never raises [cur_size_]; it returns only below 2; and a sweep
    is only ever started from a state where neither test fires. *)
Lemma QR_loop_spec (sweeps : nat) :
  forall s : State,
    match QR_loop sweeps s with
    | Ok _ s' => cur_size_ s' < 2 /\ cur_size_ s' <= cur_size_ s
    | Fault _ s' => cur_size_ s' <= cur_size_ s
    | OutOfFuel s' =>
        2 <= cur_size_ s' <= cur_size_ s /\ (settled s -> settled s')
    end.
Proof.
  induction sweeps as [|sweeps IH]; intros s; rewrite QR_loop_unfold;
    destruct (Z.leb_spec 2 (cur_size_ s)) as [Hc|Hc]; try (simpl; lia).
  - simpl. split; [lia | auto].
  - pose proof (QR_pass_spec s) as P.
    destruct ((make_QR_iteration ;; try_to_deflate) s) as [r s1|e s1|s1];
      [|exact P|destruct P].
    destruct P as [St Hle]. specialize (IH s1).
    destruct (QR_loop sweeps s1); simpl in *.
    + lia.
    + lia.
    + destruct IH as [Hb Hs]. split; [lia | auto].
Qed.

End RelativeSweep.

(** ** The absolute-threshold class *)

Section AbsoluteFacts.
Context {Scalar : Type} {A : Arithmetic Scalar} {H : HessenbergReduction Scalar}.

Local Abbreviation State := (SchurDecomposition Scalar).
Local Abbreviation Matrix := (DynamicMatrix Scalar).

Import AbsoluteThreshold.

Lemma reads_find_starter_column : reads find_starter_column.
Proof. unfold find_starter_column. repeat reads_step. Qed.

Lemma keeps_start : keeps_cur_size start.
Proof.
  unfold start.
  apply keeps_bind; [apply keeps_of_reads, reads_find_starter_column | intros v].
  repeat keeps_step.
Qed.

Lemma keeps_process_step (step : Z) : keeps_cur_size (process_step step).
Proof.
  unfold process_step, process_left, process_right, process_unitary.
  repeat keeps_step.
Qed.

Lemma keeps_process : keeps_cur_size process.
Proof.
  unfold process.
  apply keeps_bind; [apply keeps_of_reads, reads_get_cur_size | intros c].
  apply keeps_bind; [apply keeps_for_steps, keeps_process_step | intros step].
  apply keeps_of_reads, reads_ret.
Qed.

Lemma keeps_finish : keeps_cur_size finish.
Proof. unfold finish. repeat keeps_step. Qed.

Lemma deflate_once_value (s : State) (t : Matrix) :
  p_schur_form_ s = Some t ->
  in_range t (cur_size_ s) (cur_size_ s - 1) = true ->
  deflate_once s = Ok tt (deflated s t 1).
Proof.
  intros Hp Hr. unfold deflate_once, bind, get_cur_size.
  rewrite (assign_value _ _ _ _ Hp Hr). simpl. unfold deflated.
  now replace (cur_size_ s + 1 - 1) with (cur_size_ s) by lia.
Qed.

Lemma deflate_twice_value (s : State) (t : Matrix) :
  p_schur_form_ s = Some t ->
  in_range t (cur_size_ s - 1) (cur_size_ s - 2) = true ->
  deflate_twice s = Ok tt (deflated s t 2).
Proof.
  intros Hp Hr. unfold deflate_twice, bind, get_cur_size.
  rewrite (assign_value _ _ _ _ Hp Hr). simpl. unfold deflated.
  now replace (cur_size_ s + 1 - 2) with (cur_size_ s - 1) by lia.
Qed.

(** The four ways [try_deflate] can go. *)
Lemma try_deflate_cases (s : State) :
  (exists e, try_deflate s = Fault e s) \/
  (exists t, p_schur_form_ s = Some t /\
             absolute_test (precision_ s) t (cur_size_ s) = false /\
             absolute_test (precision_ s) t (cur_size_ s - 1) = false /\
             try_deflate s = Ok tt s) \/
  (exists t, p_schur_form_ s = Some t /\
             absolute_test (precision_ s) t (cur_size_ s) = true /\
             try_deflate s = Ok tt (deflated s t 1)) \/
  (exists t, p_schur_form_ s = Some t /\
             absolute_test (precision_ s) t (cur_size_ s) = false /\
             absolute_test (precision_ s) t (cur_size_ s - 1) = true /\
             try_deflate s = Ok tt (deflated s t 2)).
Proof.
  destruct (p_schur_form_ s) as [t|] eqn:Hp.
  2:{ left. exists NullPointer.
      unfold try_deflate, bind, get_cur_size.
      now rewrite (at_null SchurForm _ _ s Hp). }
  destruct (in_range t (cur_size_ s) (cur_size_ s - 1)) eqn:Hr.
  2:{ left. eexists. unfold try_deflate, bind, get_cur_size.
      now rewrite (at_fault SchurForm _ _ s Hp Hr). }
  destruct (absolute_test (precision_ s) t (cur_size_ s)) eqn:T1.
  - right. right. left. exists t. repeat split; auto.
    unfold try_deflate, bind, get_cur_size.
    rewrite (at_value SchurForm _ _ s Hp Hr).
    unfold near_zero, bind, get_precision, ret.
    unfold absolute_test in T1. rewrite T1.
    now apply deflate_once_value.
  - destruct (in_range t (cur_size_ s - 1) (cur_size_ s - 2)) eqn:Hr'.
    2:{ left. eexists. unfold try_deflate, bind, get_cur_size.
        rewrite (at_value SchurForm _ _ s Hp Hr).
        unfold near_zero, bind, get_precision, ret.
        unfold absolute_test in T1. rewrite T1.
        now rewrite (at_fault SchurForm _ _ s Hp Hr'). }
    assert (E : try_deflate s =
                if absolute_test (precision_ s) t (cur_size_ s - 1)
                then deflate_twice s else Ok tt s).
    { unfold try_deflate, bind, get_cur_size.
      rewrite (at_value SchurForm _ _ s Hp Hr).
      unfold near_zero, bind, get_precision, ret.
      unfold absolute_test in T1. rewrite T1.
      rewrite (at_value SchurForm _ _ s Hp Hr').
      unfold absolute_test.
      replace (cur_size_ s - 1 - 1) with (cur_size_ s - 2) by lia.
      now destruct (ltb (abs (coeff t (cur_size_ s - 1) (cur_size_ s - 2))) _). }
    destruct (absolute_test (precision_ s) t (cur_size_ s - 1)) eqn:T2.
    + right. right. right. exists t. repeat split; auto.
      rewrite E. now apply deflate_twice_value.
    + right. left. exists t. repeat split; auto.
Qed.

Lemma try_deflate_spec (s : State) :
  match try_deflate s with
  | Ok _ s' =>
      cur_size_ s' = cur_size_ s \/ cur_size_ s' = cur_size_ s - 1
      \/ cur_size_ s' = cur_size_ s - 2
  | Fault _ s' => cur_size_ s' = cur_size_ s
  | OutOfFuel _ => False
  end.
Proof.
  destruct (try_deflate_cases s)
    as [[e E]|[(t & _ & _ & _ & E)|[(t & _ & _ & E)|(t & _ & _ & _ & E)]]];
    rewrite E; simpl; auto.
Qed.

Lemma keeps_sweep : keeps_cur_size (start ;; process ;; finish).
Proof.
  apply keeps_bind; [apply keeps_start | intros].
  apply keeps_bind; [apply keeps_process | intros]. apply keeps_finish.
Qed.

Lemma abs_QR_pass_spec (s : State) :
  match (start ;; process ;; finish ;; try_deflate) s with
  | Ok _ s' => cur_size_ s' <= cur_size_ s
  | Fault _ s' => cur_size_ s' <= cur_size_ s
  | OutOfFuel _ => False
  end.
Proof.
  unfold bind. pose proof (keeps_start s) as K1.
  destruct (start s) as [r1 s1|e s1|s1]; [|lia|exact K1].
  pose proof (keeps_process s1) as K2.
  destruct (process s1) as [r2 s2|e s2|s2]; [|lia|exact K2].
  pose proof (keeps_finish s2) as K3.
  destruct (finish s2) as [r3 s3|e s3|s3]; [|lia|exact K3].
  pose proof (try_deflate_spec s3) as T.
  destruct (try_deflate s3); [lia|lia|exact T].
Qed.

Lemma abs_QR_loop_unfold (sweeps : nat) (s : State) :
  QR_loop sweeps s =
  if 2 <=? cur_size_ s
  then match sweeps with
       | O => OutOfFuel s
       | S sweeps' =>
           match (start ;; process ;; finish ;; try_deflate) s with
           | Ok _ s' => QR_loop sweeps' s'
           | Fault e s' => Fault e s'
           | OutOfFuel s' => OutOfFuel s'
           end
       end
  else Ok tt s.
Proof.
  destruct sweeps; simpl; [reflexivity|].
  destruct (2 <=? cur_size_ s); [|reflexivity].
  unfold bind. destruct (start s); [|reflexivity|reflexivity].
  destruct (process s0); [|reflexivity|reflexivity].
  destruct (finish s1); [|reflexivity|reflexivity].
  destruct (try_deflate s2); reflexivity.
Qed.

Lemma abs_QR_loop_spec (sweeps : nat) :
  forall s : State,
    match QR_loop sweeps s with
    | Ok _ s' => cur_size_ s' < 2 /\ cur_size_ s' <= cur_size_ s
    | Fault _ s' => cur_size_ s' <= cur_size_ s
    | OutOfFuel s' => 2 <= cur_size_ s' <= cur_size_ s
    end.
Proof.
  induction sweeps as [|sweeps IH]; intros s; rewrite abs_QR_loop_unfold;
    destruct (Z.leb_spec 2 (cur_size_ s)) as [Hc|Hc]; try (simpl; lia).
  pose proof (abs_QR_pass_spec s) as P.
  destruct ((start ;; process ;; finish ;; try_deflate) s) as [r s1|e s1|s1];
    [|exact P|destruct P].
  specialize (IH s1). destruct (QR_loop sweeps s1); simpl in *; lia.
Qed.

End AbsoluteFacts.

(** ** Evaluating a deflation step *)

Section DeflationSteps.
Context {Scalar : Type} {A : Arithmetic Scalar} {H : HessenbergReduction Scalar}.

Local Abbreviation State := (SchurDecomposition Scalar).
Local Abbreviation Matrix := (DynamicMatrix Scalar).

Lemma relative_first (s : State) (t : Matrix) :
  p_schur_form_ s = Some t ->
  1 <= cur_size_ s < rows t -> cur_size_ s < cols t ->
  relative_test (precision_ s) t (cur_size_ s) = true ->
  RelativeThreshold.try_to_deflate_body s = Ok true (deflated s t 1).
Proof.
  intros Hp Hr Hc T1.
  unfold RelativeThreshold.try_to_deflate_body, bind, get_cur_size.
  rewrite (zero_under_diagonal_value s Hp) by lia. rewrite T1.
  rewrite (decrement_cur_size_value 1 s Hp); [reflexivity|].
  apply in_range_iff. lia.
Qed.

Lemma relative_second (s : State) (t : Matrix) :
  p_schur_form_ s = Some t ->
  2 <= cur_size_ s < rows t -> cur_size_ s < cols t ->
  relative_test (precision_ s) t (cur_size_ s) = false ->
  relative_test (precision_ s) t (cur_size_ s - 1) = true ->
  RelativeThreshold.try_to_deflate_body s = Ok true (deflated s t 2).
Proof.
  intros Hp Hr Hc T1 T2.
  unfold RelativeThreshold.try_to_deflate_body, bind, get_cur_size.
  rewrite (zero_under_diagonal_value s Hp) by lia. rewrite T1.
  rewrite (zero_under_diagonal_value s Hp) by lia. rewrite T2.
  rewrite (decrement_cur_size_value 2 s Hp); [reflexivity|].
  apply in_range_iff. lia.
Qed.

Lemma relative_none (s : State) (t : Matrix) :
  p_schur_form_ s = Some t ->
  2 <= cur_size_ s < rows t -> cur_size_ s < cols t ->
  relative_test (precision_ s) t (cur_size_ s) = false ->
  relative_test (precision_ s) t (cur_size_ s - 1) = false ->
  RelativeThreshold.try_to_deflate_body s = Ok false s.
Proof.
  intros Hp Hr Hc T1 T2.
  unfold RelativeThreshold.try_to_deflate_body, bind, get_cur_size.
  rewrite (zero_under_diagonal_value s Hp) by lia. rewrite T1.
  rewrite (zero_under_diagonal_value s Hp) by lia. now rewrite T2.
Qed.

(** With [cur_size_ = 1] and the first test not firing, the second test
    reads the entry [(0, -1)]. *)
Lemma relative_outside (s : State) (t : Matrix) :
  p_schur_form_ s = Some t ->
  cur_size_ s = 1 -> 1 < rows t -> 1 < cols t ->
  relative_test (precision_ s) t 1 = false ->
  RelativeThreshold.try_to_deflate_body s = Fault (IndexOutOfRange 0 (-1)) s.
Proof.
  intros Hp Hc Hr Hc' T1.
  unfold RelativeThreshold.try_to_deflate_body, bind, get_cur_size.
  rewrite Hc.
  rewrite (zero_under_diagonal_value s Hp) by lia. rewrite T1.
  unfold RelativeThreshold.zero_under_diagonal, bind.
  rewrite (at_fault SchurForm (cur_size_ s - 1) (cur_size_ s - 1 - 1) s Hp).
  - now rewrite Hc.
  - apply in_range_false. lia.
Qed.

Lemma absolute_first (s : State) (t : Matrix) :
  p_schur_form_ s = Some t ->
  1 <= cur_size_ s < rows t -> cur_size_ s < cols t ->
  absolute_test (precision_ s) t (cur_size_ s) = true ->
  AbsoluteThreshold.try_deflate s = Ok tt (deflated s t 1).
Proof.
  intros Hp Hr Hc T1.
  assert (Hi : in_range t (cur_size_ s) (cur_size_ s - 1) = true)
    by (apply in_range_iff; lia).
  unfold AbsoluteThreshold.try_deflate, bind, get_cur_size.
  rewrite (at_value SchurForm _ _ s Hp Hi).
  unfold AbsoluteThreshold.near_zero, bind, get_precision, ret.
  unfold absolute_test in T1. rewrite T1.
  now apply deflate_once_value.
Qed.

Lemma absolute_later (s : State) (t : Matrix) :
  p_schur_form_ s = Some t ->
  2 <= cur_size_ s < rows t -> cur_size_ s < cols t ->
  absolute_test (precision_ s) t (cur_size_ s) = false ->
  AbsoluteThreshold.try_deflate s =
  if absolute_test (precision_ s) t (cur_size_ s - 1)
  then Ok tt (deflated s t 2) else Ok tt s.
Proof.
  intros Hp Hr Hc T1.
  assert (Hi : in_range t (cur_size_ s) (cur_size_ s - 1) = true)
    by (apply in_range_iff; lia).
  assert (Hi' : in_range t (cur_size_ s - 1) (cur_size_ s - 2) = true)
    by (apply in_range_iff; lia).
  unfold AbsoluteThreshold.try_deflate, bind, get_cur_size.
  rewrite (at_value SchurForm _ _ s Hp Hi).
  unfold AbsoluteThreshold.near_zero, bind, get_precision, ret.
  unfold absolute_test in T1. rewrite T1.
  rewrite (at_value SchurForm _ _ s Hp Hi').
  unfold absolute_test.
  replace (cur_size_ s - 1 - 1) with (cur_size_ s - 2) by lia.
  destruct (ltb (abs (coeff t (cur_size_ s - 1) (cur_size_ s - 2))) _);
    [|reflexivity].
  now apply deflate_twice_value.
Qed.

(** [try_deflate] with [cur_size_ = 1] and the first test not firing (the
    loop never calls it so). *)
Lemma absolute_outside (s : State) (t : Matrix) :
  p_schur_form_ s = Some t ->
  cur_size_ s = 1 -> 1 < rows t -> 1 < cols t ->
  absolute_test (precision_ s) t (cur_size_ s) = false ->
  AbsoluteThreshold.try_deflate s = Fault (IndexOutOfRange 0 (-1)) s.
Proof.
  intros Hp Hc Hr Hc' T1.
  assert (Hi : in_range t (cur_size_ s) (cur_size_ s - 1) = true)
    by (apply in_range_iff; lia).
  assert (Ho : in_range t (cur_size_ s - 1) (cur_size_ s - 2) = false)
    by (apply in_range_false; lia).
  unfold AbsoluteThreshold.try_deflate, bind, get_cur_size.
  rewrite (at_value SchurForm _ _ s Hp Hi).
  unfold AbsoluteThreshold.near_zero, bind, get_precision, ret.
  unfold absolute_test in T1. rewrite T1.
  rewrite (at_fault SchurForm _ _ s Hp Ho). now rewrite Hc.
Qed.

Lemma settled_tests (s : State) :
  settled s ->
  exists t, p_schur_form_ s = Some t /\
            2 <= cur_size_ s < rows t /\ cur_size_ s < cols t /\
            relative_test (precision_ s) t (cur_size_ s) = false /\
            relative_test (precision_ s) t (cur_size_ s - 1) = false.
Proof.
  intros [E1 E2].
  apply zero_under_diagonal_Ok_inv in E1. destruct E1 as (_ & t & Hp & Hr & Hc & T1).
  apply zero_under_diagonal_Ok_inv in E2. destruct E2 as (_ & t' & Hp' & Hr' & Hc' & T2).
  rewrite Hp in Hp'. inversion Hp'; subst t'.
  exists t. repeat split; auto; lia.
Qed.

End DeflationSteps.

(** * The statements about the specification *)

Section DeflationClaims.
Context {Scalar : Type} {A : Arithmetic Scalar} {H : HessenbergReduction Scalar}.

Local Abbreviation State := (SchurDecomposition Scalar).
Local Abbreviation Matrix := (DynamicMatrix Scalar).

(** C1, as amended.  In the class with the relative threshold: a deflation
    test on index [i] is the comparison of [|T(i, i-1)|] with
    [precision * (|T(i, i)| + |T(i-1, i-1)|)]; [try_to_deflate] always comes
    to an end, and when it returns neither test fires in the state it
    leaves ([settled], spelled out by the third part); in
    [run_QR_algorithm] the loop follows every sweep by [try_to_deflate],
    and every sweep, the first one too, starts from a state in which
    [try_to_deflate] has just found neither test firing: the state in which
    the loop stands after any number of sweeps, about to make one more, is
    [settled]. *)
Theorem relative_deflation_cascade :
  (forall (s : State) (t : Matrix) (index : Z),
      p_schur_form_ s = Some t ->
      1 <= index < rows t -> index < cols t ->
      RelativeThreshold.zero_under_diagonal index s
      = Ok (relative_test (precision_ s) t index) s)
  /\ (forall s : State,
         match RelativeThreshold.try_to_deflate s with
         | Ok _ s' => settled s'
         | Fault _ _ => True
         | OutOfFuel _ => False
         end)
  /\ (forall s : State,
         settled s ->
         exists t, p_schur_form_ s = Some t /\
                   2 <= cur_size_ s < rows t /\ cur_size_ s < cols t /\
                   relative_test (precision_ s) t (cur_size_ s) = false /\
                   relative_test (precision_ s) t (cur_size_ s - 1) = false)
  /\ (forall (sweeps : nat) (s : State),
         2 <= cur_size_ s ->
         RelativeThreshold.QR_loop (S sweeps) s
         = (RelativeThreshold.make_QR_iteration ;;
            RelativeThreshold.try_to_deflate ;;
            RelativeThreshold.QR_loop sweeps) s)
  /\ (forall (sweeps : nat) (s s' : State),
         RelativeThreshold.run_QR_algorithm sweeps s = OutOfFuel s' ->
         settled s' /\ 2 <= cur_size_ s').
Proof.
  split; [|split; [|split; [|split]]].
  - intros s t index Hp Hr Hc. now apply zero_under_diagonal_value.
  - intros s. pose proof (try_to_deflate_returns s) as T.
    destruct (RelativeThreshold.try_to_deflate s); tauto.
  - apply settled_tests.
  - intros sweeps s Hc. simpl.
    destruct (Z.leb_spec 2 (cur_size_ s)); [reflexivity | lia].
  - intros sweeps s s' E.
    unfold RelativeThreshold.run_QR_algorithm in E.
    apply bind_OutOfFuel_inv in E.
    destruct E as [E|(n & s1 & E1 & E)].
    { destruct (reads_size s) as [[r E']|[e E']]; congruence. }
    apply bind_OutOfFuel_inv in E.
    destruct E as [E|([] & s2 & E2 & E)]; [discriminate|].
    apply bind_OutOfFuel_inv in E.
    destruct E as [E|(c & s3 & E3 & E)]; [discriminate|].
    inversion E3; subst c s3. clear E3.
    apply bind_OutOfFuel_inv in E.
    destruct E as [E|([] & s4 & E4 & E)].
    + destruct (2 <=? cur_size_ s2); [|discriminate].
      pose proof (try_to_deflate_returns s2) as T. now rewrite E in T.
    + pose proof (QR_loop_spec sweeps s4) as L. rewrite E in L.
      destruct L as [Hb Hs]. split; [|lia]. apply Hs.
      destruct (Z.leb_spec 2 (cur_size_ s2)) as [Hc|Hc].
      * pose proof (try_to_deflate_returns s2) as T. rewrite E4 in T. tauto.
      * inversion E4; subst s4. lia.
Qed.

(** C2.  A deflation step on a Schur form with more than [cur_size_] rows
    and columns, [cur_size_ >= 1]: the entry [(cur_size_, cur_size_ - 1)]
    is tested first and, below the tolerance, zeroed with [cur_size_] one
    less; only otherwise is [(cur_size_ - 1, cur_size_ - 2)] tested (with
    [cur_size_ = 1] that read is outside the matrix) and, below the
    tolerance, zeroed with [cur_size_] two less, in that one step and with
    the entry [(cur_size_, cur_size_ - 1)] inside the 2x2 block left as it
    is; otherwise nothing changes.  This holds of the pass of
    [try_to_deflate], with the relative test, and of [try_deflate], with
    the absolute one. *)
Theorem deflation_step_order (s : State) (t : Matrix) :
  p_schur_form_ s = Some t ->
  1 <= cur_size_ s < rows t -> cur_size_ s < cols t ->
  RelativeThreshold.try_to_deflate_body s
  = (if relative_test (precision_ s) t (cur_size_ s)
     then Ok true (deflated s t 1)
     else if 2 <=? cur_size_ s
          then if relative_test (precision_ s) t (cur_size_ s - 1)
               then Ok true (deflated s t 2)
               else Ok false s
          else Fault (IndexOutOfRange 0 (-1)) s)
  /\ AbsoluteThreshold.try_deflate s
     = (if absolute_test (precision_ s) t (cur_size_ s)
        then Ok tt (deflated s t 1)
        else if 2 <=? cur_size_ s
             then if absolute_test (precision_ s) t (cur_size_ s - 1)
                  then Ok tt (deflated s t 2)
                  else Ok tt s
             else Fault (IndexOutOfRange 0 (-1)) s)
  /\ cur_size_ (deflated s t 1) = cur_size_ s - 1
  /\ (forall t', p_schur_form_ (deflated s t 1) = Some t' ->
                 coeff t' (cur_size_ s) (cur_size_ s - 1) = zero)
  /\ cur_size_ (deflated s t 2) = cur_size_ s - 2
  /\ (forall t', p_schur_form_ (deflated s t 2) = Some t' ->
                 coeff t' (cur_size_ s - 1) (cur_size_ s - 2) = zero /\
                 coeff t' (cur_size_ s) (cur_size_ s - 1)
                 = coeff t (cur_size_ s) (cur_size_ s - 1)).
Proof.
  intros Hp Hr Hc. split; [|split; [|split; [|split; [|split]]]].
  - destruct (relative_test (precision_ s) t (cur_size_ s)) eqn:T1.
    + apply (relative_first s Hp); auto.
    + destruct (Z.leb_spec 2 (cur_size_ s)) as [H2|H2].
      * destruct (relative_test (precision_ s) t (cur_size_ s - 1)) eqn:T2.
        -- apply (relative_second s Hp); auto; lia.
        -- apply (relative_none s Hp); auto; lia.
      * assert (H1 : cur_size_ s = 1) by lia. rewrite H1 in T1.
        apply (relative_outside s Hp); auto; lia.
  - destruct (absolute_test (precision_ s) t (cur_size_ s)) eqn:T1.
    + apply (absolute_first s Hp); auto.
    + destruct (Z.leb_spec 2 (cur_size_ s)) as [H2|H2].
      * apply (absolute_later s Hp); auto; lia.
      * apply (absolute_outside s Hp); auto; lia.
  - reflexivity.
  - intros t' E. simpl in E. inversion E; subst t'. simpl.
    replace (cur_size_ s =? cur_size_ s + 1 - 1) with true by (symmetry; lia).
    now rewrite Z.eqb_refl.
  - reflexivity.
  - intros t' E. simpl in E. inversion E; subst t'. simpl. split.
    + replace (cur_size_ s - 1 =? cur_size_ s + 1 - 2) with true by (symmetry; lia).
      now rewrite Z.eqb_refl.
    + replace (cur_size_ s =? cur_size_ s + 1 - 2) with false by (symmetry; lia).
      reflexivity.
Qed.

(** C4.  In the class with the relative threshold, with [cur_size_ = 2],
    the entry [(2, 1)] below the tolerance and the entry [(1, 0)] not,
    [try_to_deflate] deflates once, tests index 1, and then evaluates
    [zero_under_diagonal(0)], whose first read is the entry [(0, -1)],
    outside the matrix; nothing in the loop asks for [cur_size_ >= 2].  On
    a 3x3 Schur form [run_QR_algorithm] reaches this state at once. *)
Theorem deflation_reads_outside (s : State) (t : Matrix) :
  p_schur_form_ s = Some t ->
  rows t = cols t -> 3 <= rows t -> cur_size_ s = 2 ->
  relative_test (precision_ s) t 2 = true ->
  relative_test (precision_ s) t 1 = false ->
  RelativeThreshold.try_to_deflate s
  = Fault (IndexOutOfRange 0 (-1)) (deflated s t 1)
  /\ (rows t = 3 ->
      forall sweeps : nat,
        RelativeThreshold.run_QR_algorithm sweeps s
        = Fault (IndexOutOfRange 0 (-1)) (deflated s t 1)).
Proof.
  intros Hp Hsq Hn Hc T2 T1.
  assert (E : RelativeThreshold.try_to_deflate s
              = Fault (IndexOutOfRange 0 (-1)) (deflated s t 1)).
  { unfold RelativeThreshold.try_to_deflate, bind at 1. unfold get_cur_size at 1.
    rewrite Hc. change (S (Z.to_nat 2)) with 3%nat.
    cbn [RelativeThreshold.try_to_deflate_loop]. unfold bind at 1.
    rewrite (relative_first s Hp) by (rewrite ?Hc; auto; lia).
    unfold bind at 1.
    rewrite (@relative_outside _ _ (deflated s t 1)
               (set_coeff t (cur_size_ s + 1 - 1) (cur_size_ s - 1) zero));
      try reflexivity; simpl; try lia.
    unfold relative_test. simpl. rewrite Hc. simpl. exact T1. }
  split; [exact E|].
  intros H3 sweeps. unfold RelativeThreshold.run_QR_algorithm, bind at 1.
  unfold size, bind, deref. simpl. rewrite Hp.
  replace (rows t =? cols t) with true by (symmetry; lia). simpl.
  rewrite H3. simpl.
  assert (Es : {| precision_ := precision_ s;
                  p_schur_form_ := p_schur_form_ s;
                  p_unitary_ := p_unitary_ s;
                  cur_size_ := 2 |} = s).
  { destruct s; simpl in *. now subst. }
  unfold get_cur_size. simpl. rewrite Es, E. reflexivity.
Qed.

End DeflationClaims.

(** The cascade on [last5]: one deflation, then neither test fires; and a
    sweep of the run on [firm4] starts from a state where neither fires. *)
Lemma relative_deflation_cascade_witness :
  RelativeThreshold.zero_under_diagonal 4 (object_of 1 last5 4)
  = Ok true (object_of 1 last5 4)
  /\ settled (deflated (object_of 1 last5 4) last5 1)
  /\ settled (object_of 1 firm4 3).
Proof.
  destruct (@relative_deflation_cascade Z _ Z_collaborator) as (V & C & _ & _ & L).
  split; [|split].
  - apply (V (object_of 1 last5 4) last5 4); simpl; [reflexivity | lia | lia].
  - exact (C (object_of 1 last5 4)).
  - exact (proj1 (L 0%nat (object_of 1 firm4 0) (object_of 1 firm4 3) eq_refl)).
Defined.

(** On [block4] the trailing 2x2 block has converged: both classes take it
    off in one step. *)
Lemma deflation_step_order_witness :
  RelativeThreshold.try_to_deflate_body (object_of 1 block4 3)
  = Ok true (deflated (object_of 1 block4 3) block4 2)
  /\ AbsoluteThreshold.try_deflate (object_of 1 block4 3)
     = Ok tt (deflated (object_of 1 block4 3) block4 2).
Proof.
  destruct (@deflation_step_order Z _ (object_of 1 block4 3) block4 eq_refl)
    as (R & B & _); [simpl; lia | simpl; lia |].
  split; [exact R | exact B].
Defined.

(** On [ripe3] the run of the relative class reads the entry [(0, -1)]. *)
Lemma deflation_reads_outside_witness :
  RelativeThreshold.run_QR_algorithm 5 (object_of 1 ripe3 2)
  = Fault (IndexOutOfRange 0 (-1)) (deflated (object_of 1 ripe3 2) ripe3 1).
Proof.
  refine (proj2 (@deflation_reads_outside Z _ Z_collaborator
                   (object_of 1 ripe3 2) ripe3 eq_refl eq_refl _ eq_refl
                   eq_refl eq_refl) eq_refl 5%nat).
  simpl. lia.
Defined.

(** C1 fails of the class with the absolute threshold.  On [hollow3] with
    precision 1: the loop starts its first sweep with no deflation test
    made, in a state where the test of the class fires; that test deflates
    where the relative tolerance does not; and on [twice4] [try_deflate]
    returns after one deflation although its test fires again in the state
    it leaves. *)
Lemma absolute_threshold_differs :
  AbsoluteThreshold.run_QR_algorithm 0 (object_of 1 hollow3 0)
  = OutOfFuel (object_of 1 hollow3 2)
  /\ absolute_test 1 hollow3 2 = true
  /\ relative_test 1 hollow3 2 = false
  /\ RelativeThreshold.zero_under_diagonal 2 (object_of 1 hollow3 2)
     = Ok false (object_of 1 hollow3 2)
  /\ AbsoluteThreshold.try_deflate (object_of 1 hollow3 2)
     = Ok tt (deflated (object_of 1 hollow3 2) hollow3 1)
  /\ AbsoluteThreshold.try_deflate (object_of 1 twice4 3)
     = Ok tt (deflated (object_of 1 twice4 3) twice4 1)
  /\ absolute_test 1 (set_coeff twice4 3 2 0) 2 = true.
Proof.
  repeat (split; [reflexivity|]). reflexivity.
Qed.

Section StarterColumn.
Context {Scalar : Type} {A : Arithmetic Scalar} {H : HessenbergReduction Scalar}.

Local Abbreviation State := (SchurDecomposition Scalar).
Local Abbreviation Matrix := (DynamicMatrix Scalar).

Lemma block_value (p : Buffer) (r0 c0 nr nc : Z) (s : State) (m : Matrix) :
  pointer p s = Some m ->
  valid_block m {| startRow := r0; startCol := c0; blockRows := nr; blockCols := nc |}
  = true ->
  block p r0 c0 nr nc s
  = Ok {| owner := p;
          extent := {| startRow := r0; startCol := c0;
                       blockRows := nr; blockCols := nc |} |} s.
Proof.
  intros Hp Hv. unfold block, bind, deref. now rewrite Hp, Hv.
Qed.

Lemma valid_block_iff (m : Matrix) (r0 c0 nr nc : Z) :
  valid_block m {| startRow := r0; startCol := c0; blockRows := nr; blockCols := nc |}
  = true
  <-> 0 <= r0 /\ 0 <= nr /\ r0 + nr <= rows m /\ 0 <= c0 /\ 0 <= nc /\ c0 + nc <= cols m.
Proof. unfold valid_block. simpl. rewrite !andb_true_iff. lia. Qed.

Lemma values_value (b : Block) (s : State) (m : Matrix) :
  pointer (owner b) s = Some m ->
  values b s = Ok (block_values m (extent b)) s.
Proof.
  intros Hp. unfold values, bind, deref. now rewrite Hp.
Qed.

Lemma find_bottom_corner_trace_value (s : State) (t : Matrix) :
  p_schur_form_ s = Some t ->
  1 <= cur_size_ s < rows t -> cur_size_ s < cols t ->
  find_bottom_corner_trace s = Ok (bottom_trace t (cur_size_ s)) s.
Proof.
  intros Hp Hr Hc. unfold find_bottom_corner_trace, bind, get_cur_size.
  rewrite (block_value SchurForm _ _ _ _ s Hp) by (apply valid_block_iff; lia).
  erewrite values_value by exact Hp. unfold ret, bottom_trace. f_equal.
  unfold trace. simpl.
  rewrite Z.add_0_r. now replace (cur_size_ s - 1 + 1) with (cur_size_ s) by lia.
Qed.

Lemma find_bottom_corner_det_value (s : State) (t : Matrix) :
  p_schur_form_ s = Some t ->
  1 <= cur_size_ s < rows t -> cur_size_ s < cols t ->
  find_bottom_corner_det s = Ok (bottom_determinant t (cur_size_ s)) s.
Proof.
  intros Hp Hr Hc. unfold find_bottom_corner_det, bind, get_cur_size.
  rewrite (block_value SchurForm _ _ _ _ s Hp) by (apply valid_block_iff; lia).
  erewrite values_value by exact Hp. reflexivity.
Qed.



Section RingLaws.

(** The three-entry formula is the first column of the polynomial with the
    term of [T(2, 0)] left out and the entries regrouped: the two agree
    where the scalars obey the laws of a commutative ring. *)
Hypothesis ring_laws : ring_theory zero one add mul sub opp (@eq Scalar).

Add Ring scalar_ring_structure : ring_laws.


End RingLaws.


End StarterColumn.





Section LoopClaims.
Context {Scalar : Type} {A : Arithmetic Scalar} {H : HessenbergReduction Scalar}.

Local Abbreviation State := (SchurDecomposition Scalar).
Local Abbreviation Matrix := (DynamicMatrix Scalar).

Lemma try_to_deflate_body_decrements (s : State) :
  match RelativeThreshold.try_to_deflate_body s with
  | Ok _ s' =>
      cur_size_ s' = cur_size_ s \/ cur_size_ s' = cur_size_ s - 1
      \/ cur_size_ s' = cur_size_ s - 2
  | Fault _ s' => cur_size_ s' = cur_size_ s
  | OutOfFuel _ => False
  end.
Proof.
  destruct (try_to_deflate_body_cases s)
    as [[e E]|[[E _]|[(t & _ & _ & _ & E)|(t & _ & _ & _ & _ & E)]]];
    rewrite E; simpl; auto.
Qed.

(** In both classes: a sweep leaves [cur_size_] as it is; a deflation
    step lowers it by 0, 1 or 2; so, whatever the number of sweeps and
    however the loop ends (it returns, it faults, or it stands before one
    more sweep), [cur_size_] is at most what it was when the loop was
    entered.  The loop returns only with [cur_size_ < 2], returns at once
    when entered with [cur_size_ < 2], and with [cur_size_ >= 2] goes on to
    a sweep. *)
Theorem cur_size_never_grows :
  (keeps_cur_size RelativeThreshold.make_QR_iteration
   /\ (forall s : State,
          match RelativeThreshold.try_to_deflate_body s with
          | Ok _ s' =>
              cur_size_ s' = cur_size_ s \/ cur_size_ s' = cur_size_ s - 1
              \/ cur_size_ s' = cur_size_ s - 2
          | Fault _ s' => cur_size_ s' = cur_size_ s
          | OutOfFuel _ => False
          end)
   /\ (forall (sweeps : nat) (s : State),
          match RelativeThreshold.QR_loop sweeps s with
          | Ok _ s' => cur_size_ s' < 2 /\ cur_size_ s' <= cur_size_ s
          | Fault _ s' => cur_size_ s' <= cur_size_ s
          | OutOfFuel s' => 2 <= cur_size_ s' <= cur_size_ s
          end)
   /\ (forall (sweeps : nat) (s : State),
          RelativeThreshold.QR_loop sweeps s
          = if 2 <=? cur_size_ s
            then match sweeps with
                 | O => OutOfFuel s
                 | S sweeps' =>
                     (RelativeThreshold.make_QR_iteration ;;
                      RelativeThreshold.try_to_deflate ;;
                      RelativeThreshold.QR_loop sweeps') s
                 end
            else Ok tt s))
  /\
  (keeps_cur_size (AbsoluteThreshold.start ;; AbsoluteThreshold.process ;;
                   AbsoluteThreshold.finish)
   /\ (forall s : State,
          match AbsoluteThreshold.try_deflate s with
          | Ok _ s' =>
              cur_size_ s' = cur_size_ s \/ cur_size_ s' = cur_size_ s - 1
              \/ cur_size_ s' = cur_size_ s - 2
          | Fault _ s' => cur_size_ s' = cur_size_ s
          | OutOfFuel _ => False
          end)
   /\ (forall (sweeps : nat) (s : State),
          match AbsoluteThreshold.QR_loop sweeps s with
          | Ok _ s' => cur_size_ s' < 2 /\ cur_size_ s' <= cur_size_ s
          | Fault _ s' => cur_size_ s' <= cur_size_ s
          | OutOfFuel s' => 2 <= cur_size_ s' <= cur_size_ s
          end)
   /\ (forall (sweeps : nat) (s : State),
          AbsoluteThreshold.QR_loop sweeps s
          = if 2 <=? cur_size_ s
            then match sweeps with
                 | O => OutOfFuel s
                 | S sweeps' =>
                     (AbsoluteThreshold.start ;; AbsoluteThreshold.process ;;
                      AbsoluteThreshold.finish ;; AbsoluteThreshold.try_deflate ;;
                      AbsoluteThreshold.QR_loop sweeps') s
                 end
            else Ok tt s)).
Proof.
  split; repeat split.
  - apply keeps_make_QR_iteration.
  - apply try_to_deflate_body_decrements.
  - intros sweeps s. pose proof (QR_loop_spec sweeps s) as L.
    destruct (RelativeThreshold.QR_loop sweeps s); tauto.
  - intros sweeps s. destruct sweeps; reflexivity.
  - apply keeps_sweep.
  - apply try_deflate_spec.
  - apply abs_QR_loop_spec.
  - intros sweeps s. destruct sweeps; reflexivity.
Qed.

(** C7.  On a 2x2 input, with both output pointers set, [run] is the
    Hessenberg reduction alone: whatever the number of sweeps allowed (none
    is made, even when none is allowed) it returns with [cur_size_ = 1] and
    with the two buffers as the reduction left them, which is also what
    [set_internal_...] followed by [reduce_to_hessenberg_form] returns.  No
    shift, bulge step or deflation test is evaluated: on a 2x2 Schur form
    each of them would stop the run (the 3x3 top corner does not exist, and
    the deflation tests read the entry [(0, -1)]) or lower [cur_size_].
    The reduction is taken to work in place, so it keeps the extents. *)
Theorem two_by_two_skips_the_loop
  (data schur_form unitary t' u' : Matrix) (sweeps : nat) (s : State) :
  rows data = 2 -> cols data = 2 ->
  hessenberg_run data unitary = Some (t', u') ->
  rows t' = 2 -> cols t' = 2 ->
  let reduced c := {| precision_ := precision_ s;
                      p_schur_form_ := Some t';
                      p_unitary_ := Some u';
                      cur_size_ := c |} in
  RelativeThreshold.run data (Some schur_form) (Some unitary) sweeps s
  = Ok tt (reduced 1)
  /\ (RelativeThreshold.set_internal_resources data (Some schur_form) (Some unitary) ;;
      reduce_to_hessenberg_form) s
     = Ok tt (reduced (cur_size_ s))
  /\ AbsoluteThreshold.run data (Some schur_form) (Some unitary) sweeps s
     = Ok tt (reduced 1)
  /\ (AbsoluteThreshold.set_internal_members data (Some schur_form) (Some unitary) ;;
      reduce_to_hessenberg_form) s
     = Ok tt (reduced (cur_size_ s)).
Proof.
  intros Hr Hc Hh Hr' Hc' reduced.
  assert (R : (RelativeThreshold.set_internal_resources data (Some schur_form)
                 (Some unitary) ;; reduce_to_hessenberg_form) s
              = Ok tt (reduced (cur_size_ s))).
  { unfold RelativeThreshold.set_internal_resources, reduce_to_hessenberg_form,
      bind, assert, store, deref. simpl. rewrite Hr, Hc. simpl. now rewrite Hh. }
  assert (B : (AbsoluteThreshold.set_internal_members data (Some schur_form)
                 (Some unitary) ;; reduce_to_hessenberg_form) s
              = Ok tt (reduced (cur_size_ s))).
  { unfold AbsoluteThreshold.set_internal_members, reduce_to_hessenberg_form,
      bind, assert, store, deref. simpl. rewrite Hr, Hc. simpl. now rewrite Hh. }
  assert (QR : forall c, RelativeThreshold.run_QR_algorithm sweeps (reduced c)
                         = Ok tt (reduced 1)).
  { intros c. unfold RelativeThreshold.run_QR_algorithm, size, bind, assert, deref.
    simpl. rewrite Hr', Hc'. simpl. now destruct sweeps. }
  assert (QB : forall c, AbsoluteThreshold.run_QR_algorithm sweeps (reduced c)
                         = Ok tt (reduced 1)).
  { intros c. unfold AbsoluteThreshold.run_QR_algorithm, size, bind, assert, deref.
    simpl. rewrite Hr', Hc'. simpl. now destruct sweeps. }
  repeat split; auto.
  - unfold RelativeThreshold.run, RelativeThreshold.set_internal_resources,
      reduce_to_hessenberg_form, bind, assert, store, deref.
    simpl. rewrite Hr, Hc. simpl. rewrite Hh. simpl. apply QR.
  - unfold AbsoluteThreshold.run, AbsoluteThreshold.set_internal_members,
      reduce_to_hessenberg_form, bind, assert, store, deref.
    simpl. rewrite Hr, Hc. simpl. rewrite Hh. simpl. apply QB.
Qed.

End LoopClaims.

(** The loop of the absolute-threshold class on [hollow3], with the
    collaborator of the examples: it returns, below 2. *)
Lemma cur_size_never_grows_witness :
  match AbsoluteThreshold.QR_loop 5 (object_of 1 hollow3 2) with
  | Ok _ s' => cur_size_ s' < 2 /\ cur_size_ s' <= 2
  | Fault _ s' => cur_size_ s' <= 2
  | OutOfFuel s' => 2 <= cur_size_ s' <= 2
  end
  /\ AbsoluteThreshold.QR_loop 5 (object_of 1 hollow3 2)
     = Ok tt (state_of (AbsoluteThreshold.QR_loop 5 (object_of 1 hollow3 2))).
Proof.
  destruct (@cur_size_never_grows Z _ Z_collaborator) as (_ & _ & _ & L & _).
  split; [exact (L 5%nat (object_of 1 hollow3 2)) | reflexivity].
Defined.

(** On [symmetric2], with no sweep allowed, [run] returns what the
    reduction returns. *)
Lemma two_by_two_skips_the_loop_witness :
  RelativeThreshold.run symmetric2 (Some (identity 2)) (Some (identity 2)) 0
    (object_of 1 hollow3 7)
  = Ok tt {| precision_ := 1;
             p_schur_form_ := Some symmetric2;
             p_unitary_ := Some (identity 2);
             cur_size_ := 1 |}
  /\ AbsoluteThreshold.run symmetric2 (Some (identity 2)) (Some (identity 2)) 0
       (object_of 1 hollow3 7)
     = Ok tt {| precision_ := 1;
                p_schur_form_ := Some symmetric2;
                p_unitary_ := Some (identity 2);
                cur_size_ := 1 |}.
Proof.
  destruct (@two_by_two_skips_the_loop Z _ Z_collaborator
              symmetric2 (identity 2) (identity 2) symmetric2 (identity 2)
              0%nat (object_of 1 hollow3 7) eq_refl eq_refl eq_refl eq_refl eq_refl)
    as (R & _ & B & _).
  split; [exact R | exact B].
Defined.

(** ** The band of the right-application *)

Section BandClaim.
Context {Scalar : Type} {A : Arithmetic Scalar} {H : HessenbergReduction Scalar}.

Local Abbreviation State := (SchurDecomposition Scalar).
Local Abbreviation Matrix := (DynamicMatrix Scalar).

Lemma reflect_right_schur_frame (r : HouseholderReflector) (e : Extent) (s s' : State) :
  reflect_right r {| owner := SchurForm; extent := e |} s = Ok tt s' ->
  exists t t', p_schur_form_ s = Some t /\ p_schur_form_ s' = Some t' /\
               rows t' = rows t /\ cols t' = cols t /\
               (forall i j, inside e i j = false -> coeff t' i j = coeff t i j) /\
               cur_size_ s' = cur_size_ s.
Proof.
  unfold reflect_right, bind, deref, store. simpl.
  destruct (p_schur_form_ s) as [t|] eqn:Hp; [|discriminate].
  destruct (reflect_right_values r (block_values t e)) as [v|]; [|discriminate].
  simpl. rewrite Hp. intros E. inversion E. simpl.
  exists t, (block_assign t e v). repeat split; auto.
  intros i j Hi. simpl. now rewrite Hi.
Qed.

Lemma reflect_right_unitary_frame (r : HouseholderReflector) (e : Extent) (s s' : State) :
  reflect_right r {| owner := Unitary; extent := e |} s = Ok tt s' ->
  p_schur_form_ s' = p_schur_form_ s.
Proof.
  unfold reflect_right, bind, deref, store. simpl.
  destruct (p_unitary_ s) as [u|] eqn:Hp; [|discriminate].
  destruct (reflect_right_values r (block_values u e)) as [v|]; [|discriminate].
  simpl. rewrite Hp. intros E. now inversion E.
Qed.

(** The second statement of [update_schur_form], which is also the second
    part of the loop body of [process]. *)
Lemma right_application_frame (r : HouseholderReflector) (step : Z) (s s' : State) :
  RelativeThreshold.update_schur_form_right r step 3 s = Ok tt s' ->
  exists t t', p_schur_form_ s = Some t /\ p_schur_form_ s' = Some t' /\
               unchanged_outside_band (cur_size_ s) step t t'.
Proof.
  unfold RelativeThreshold.update_schur_form_right. intros E.
  apply bind_Ok_inv in E. destruct E as (c & s1 & E1 & E).
  inversion E1; subst c s1. clear E1.
  apply bind_Ok_inv in E. destruct E as (b & s1 & E1 & E).
  destruct (reads_block SchurForm 0 (step + 1) (Z.min (cur_size_ s) (step + 4) + 1) 3 s)
    as [[b' Eb]|[e Eb]]; [|congruence].
  rewrite Eb in E1. inversion E1; subst b' s1. clear E1.
  unfold block, bind, deref in Eb. simpl in Eb.
  destruct (p_schur_form_ s) as [t|] eqn:Hp; [|discriminate].
  destruct (valid_block t _); [|discriminate].
  inversion Eb; subst b. clear Eb.
  apply reflect_right_schur_frame in E.
  destruct E as (t0 & t' & Hp0 & Hp' & Hr & Hc & Hf & _).
  rewrite Hp in Hp0. inversion Hp0; subst t0.
  exists t, t'. repeat split; auto.
  intros i j Hout. apply Hf. unfold inside. simpl.
  rewrite !andb_false_iff, !Z.leb_gt, !Z.ltb_ge. lia.
Qed.

(** C6.  The right-application of the reflector of a bulge-chase step to
    the Schur form -- the second statement of [update_schur_form] called
    with length 3, and the second part of the loop body of [process] --
    leaves the extents of the Schur form and every entry outside rows
    [0 .. min(cur_size_, step + 4)] of the columns [step + 1 .. step + 3]
    as they were after the left-application.  For [0 <= step <=
    cur_size_ - 3] on a square Schur form larger than [cur_size_], that
    band of [min(cur_size_, step + 4) + 1] rows lies inside the matrix. *)
Theorem right_application_band :
  (forall (r : HouseholderReflector) (step : Z) (s s' : State),
      RelativeThreshold.update_schur_form r step 3 s = Ok tt s' ->
      exists s1 t t',
        RelativeThreshold.update_schur_form_left r step 3 s = Ok tt s1 /\
        RelativeThreshold.update_schur_form_right r step 3 s1 = Ok tt s' /\
        p_schur_form_ s1 = Some t /\ p_schur_form_ s' = Some t' /\
        unchanged_outside_band (cur_size_ s1) step t t')
  /\ (forall (step : Z) (s s' : State),
         AbsoluteThreshold.process_step step s = Ok tt s' ->
         exists r s1 s2 t t',
           AbsoluteThreshold.process_left step s = Ok r s1 /\
           AbsoluteThreshold.process_right r step s1 = Ok tt s2 /\
           AbsoluteThreshold.process_unitary r step s2 = Ok tt s' /\
           p_schur_form_ s1 = Some t /\ p_schur_form_ s2 = Some t' /\
           p_schur_form_ s' = Some t' /\
           unchanged_outside_band (cur_size_ s1) step t t')
  /\ (forall (t : Matrix) (c step : Z),
         rows t = cols t -> c < rows t -> 0 <= step <= c - 3 ->
         valid_block t {| startRow := 0; startCol := step + 1;
                          blockRows := Z.min c (step + 4) + 1; blockCols := 3 |}
         = true).
Proof.
  split; [|split].
  - intros r step s s' E. unfold RelativeThreshold.update_schur_form in E.
    apply bind_Ok_inv in E. destruct E as ([] & s1 & E1 & E).
    destruct (right_application_frame _ _ _ E) as (t & t' & Hp & Hp' & Hb).
    exists s1, t, t'. repeat split; auto; apply Hb.
  - intros step s s' E. unfold AbsoluteThreshold.process_step in E.
    apply bind_Ok_inv in E. destruct E as (r & s1 & E1 & E).
    apply bind_Ok_inv in E. destruct E as ([] & s2 & E2 & E).
    destruct (right_application_frame _ _ _ E2) as (t & t' & Hp & Hp' & Hb).
    exists r, s1, s2, t, t'. repeat split; auto; try apply Hb.
    unfold AbsoluteThreshold.process_unitary in E.
    apply bind_Ok_inv in E. destruct E as (n & s3 & E3 & E).
    destruct (reads_size s2) as [[n' En]|[e En]]; [|congruence].
    rewrite En in E3. inversion E3; subst n' s3. clear E3.
    apply bind_Ok_inv in E. destruct E as (b & s3 & E3 & E).
    destruct (reads_block Unitary 0 (step + 1) n 3 s2) as [[b' Eb]|[e Eb]];
      [|congruence].
    rewrite Eb in E3. inversion E3; subst b' s3. clear E3.
    unfold block, bind, deref in Eb. simpl in Eb.
    destruct (p_unitary_ s2) as [u|]; [|discriminate].
    destruct (valid_block u _); [|discriminate].
    inversion Eb; subst b. clear Eb.
    apply reflect_right_unitary_frame in E. now rewrite E.
  - intros t c step Hsq Hc Hs. apply valid_block_iff. lia.
Qed.

End BandClaim.

(** On [firm4] with [cur_size_ = 3], step 0: the reflector exchanges
    columns 1 and 2 in rows 0 to 3 and no other entry changes. *)
Lemma right_application_band_witness :
  exists s1 t t',
    RelativeThreshold.update_schur_form_left tt 0 3 (object_of 1 firm4 3) = Ok tt s1 /\
    RelativeThreshold.update_schur_form_right tt 0 3 s1
    = Ok tt (state_of (RelativeThreshold.update_schur_form tt 0 3 (object_of 1 firm4 3))) /\
    p_schur_form_ s1 = Some t /\
    p_schur_form_
      (state_of (RelativeThreshold.update_schur_form tt 0 3 (object_of 1 firm4 3)))
    = Some t' /\
    unchanged_outside_band (cur_size_ s1) 0 t t'.
Proof.
  exact (proj1 (@right_application_band Z _ Z_collaborator) tt 0
           (object_of 1 firm4 3)
           (state_of (RelativeThreshold.update_schur_form tt 0 3 (object_of 1 firm4 3)))
           eq_refl).
Defined.

(** ** The checks of the arguments of [run] *)

Section ArgumentChecks.
Context {Scalar : Type} {A : Arithmetic Scalar} {H : HessenbergReduction Scalar}.

Local Abbreviation State := (SchurDecomposition Scalar).
Local Abbreviation Matrix := (DynamicMatrix Scalar).

(** [set_internal_members] checks the three conditions before it writes:
    when it fails nothing has changed, and when it returns the Schur-form
    buffer holds the copy of [data]. *)
Lemma set_internal_members_spec (data : Matrix) (schur_form unitary : option Matrix)
  (s : State) :
  match AbsoluteThreshold.set_internal_members data schur_form unitary s with
  | Ok _ s' =>
      rows data = cols data /\ schur_form <> None /\ unitary <> None /\
      p_schur_form_ s' = Some data /\ p_unitary_ s' = unitary
  | Fault e s' =>
      e = AssertionFailed /\ s' = s /\
      (rows data <> cols data \/ schur_form = None \/ unitary = None)
  | OutOfFuel _ => False
  end.
Proof.
  unfold AbsoluteThreshold.set_internal_members, bind, assert, store. simpl.
  destruct (Z.eqb_spec (rows data) (cols data)) as [Hsq|Hsq]; simpl; [|auto].
  destruct schur_form as [m|]; simpl; [|auto].
  destruct unitary as [u|]; simpl; [|auto].
  repeat split; auto; discriminate.
Qed.

(** [set_internal_resources] checks each condition where it is needed: a
    null [unitary] is found after [data] has been copied into the
    Schur-form buffer. *)
Lemma set_internal_resources_spec (data : Matrix) (schur_form unitary : option Matrix)
  (s : State) :
  match RelativeThreshold.set_internal_resources data schur_form unitary s with
  | Ok _ s' =>
      rows data = cols data /\ schur_form <> None /\ unitary <> None /\
      p_schur_form_ s' = Some data /\ p_unitary_ s' = unitary
  | Fault e s' =>
      e = AssertionFailed /\
      ((schur_form = None /\ s' = s) \/
       (rows data <> cols data /\ p_schur_form_ s' = schur_form) \/
       (unitary = None /\ rows data = cols data /\ schur_form <> None /\
        p_schur_form_ s' = Some data))
  | OutOfFuel _ => False
  end.
Proof.
  unfold RelativeThreshold.set_internal_resources, bind, assert, store. simpl.
  destruct schur_form as [m|]; simpl; [|auto].
  destruct (Z.eqb_spec (rows data) (cols data)) as [Hsq|Hsq]; simpl; [|auto].
  destruct unitary as [u|]; simpl.
  - repeat split; auto; discriminate.
  - split; [reflexivity|]. right. right. repeat split; auto. discriminate.
Qed.

End ArgumentChecks.

(** C8, where the code departs from it.  [run] of the relative-threshold
    class, called with a square [data], a Schur-form buffer (holding
    [hollow3]) and a null [unitary]: the assertion on [unitary] fails, and
    by then the Schur-form buffer holds [data].  The absolute-threshold
    class, called the same way, fails with nothing written. *)
Theorem null_unitary_found_after_copy :
  RelativeThreshold.construct 1 0 = Some fresh_object
  /\ RelativeThreshold.run firm4 (Some hollow3) None 7 fresh_object
     = Fault AssertionFailed
         {| precision_ := 1;
            p_schur_form_ := Some firm4;
            p_unitary_ := None;
            cur_size_ := 0 |}
  /\ AbsoluteThreshold.run firm4 (Some hollow3) None 7 fresh_object
     = Fault AssertionFailed fresh_object.
Proof.
  repeat (split; [reflexivity|]). reflexivity.
Qed.

(** ** [TridiagonalSymmetric] *)

Section TridiagonalClaim.
Context {Scalar : Type}.

Variable indeterminate : Z -> Scalar.

Lemma writes_keep_size (ws : list (Tridiagonal.Write (Scalar := Scalar))) :
  forall t, Tridiagonal.get_size (fold_left (@Tridiagonal.write Scalar) ws t)
            = Tridiagonal.get_size t.
Proof.
  induction ws as [|w ws IH]; intros t; simpl; [reflexivity|].
  rewrite IH. now destruct w.
Qed.

(** C10.  Constructed with an [int] size [n >= 2], the object has a major
    diagonal of length [n], a side diagonal of length [n - 1] and
    [get_size() = n]; no sequence of assignments through the references
    the accessors hand out changes [get_size()]; and the construction with a
    size below 2 fails on its assertion. *)
Theorem tridiagonal_extents (n : Z) :
  2 <= n < 2 ^ 31 ->
  (exists t,
      Tridiagonal.construct indeterminate n = Some t /\
      Tridiagonal.length_of (Tridiagonal.get_major_diagonal t) = n /\
      Tridiagonal.length_of (Tridiagonal.get_side_diagonal t) = n - 1 /\
      Tridiagonal.get_size t = n /\
      forall ws, Tridiagonal.get_size (fold_left (@Tridiagonal.write Scalar) ws t) = n)
  /\ forall m, m < 2 -> Tridiagonal.construct indeterminate m = None.
Proof.
  intros Hn. split.
  - unfold Tridiagonal.construct.
    replace (2 <=? n) with true by (symmetry; apply Z.leb_le; lia).
    eexists. split; [reflexivity|].
    assert (Hs : Tridiagonal.to_size_t n = n)
      by (unfold Tridiagonal.to_size_t; apply Z.mod_small; lia).
    assert (Hi : forall k, 0 <= k < 2 ^ 31 -> Tridiagonal.to_Index k = k).
    { intros k Hk. unfold Tridiagonal.to_Index.
      rewrite Z.mod_small by lia.
      replace (k <? 2 ^ 63) with true by (symmetry; apply Z.ltb_lt; lia).
      reflexivity. }
    unfold Tridiagonal.length_of, Tridiagonal.get_major_diagonal,
      Tridiagonal.get_side_diagonal, Tridiagonal.get_size. simpl.
    rewrite Hs.
    assert (Hs' : Tridiagonal.to_size_t (n - 1) = n - 1)
      by (unfold Tridiagonal.to_size_t; apply Z.mod_small; lia).
    rewrite Hs', !Hi by lia.
    repeat split; try lia.
    intros ws. rewrite writes_keep_size. simpl. rewrite ?Hs. reflexivity.
  - intros m Hm. unfold Tridiagonal.construct.
    now replace (2 <=? m) with false by (symmetry; apply Z.leb_gt; lia).
Qed.

End TridiagonalClaim.

Lemma tridiagonal_extents_witness :
  (exists t,
      Tridiagonal.construct (fun _ => 0) 5 = Some t /\
      Tridiagonal.length_of (Tridiagonal.get_major_diagonal t) = 5 /\
      Tridiagonal.length_of (Tridiagonal.get_side_diagonal t) = 5 - 1 /\
      Tridiagonal.get_size t = 5 /\
      forall ws, Tridiagonal.get_size (fold_left (@Tridiagonal.write Z) ws t) = 5)
  /\ forall m, m < 2 -> Tridiagonal.construct (fun _ : Z => 0) m = None.
Proof.
  apply (@tridiagonal_extents Z (fun _ => 0) 5). lia.
Defined.

(** * Further facts: what the QR loop keeps, and where it is safe *)

Section FrameFacts.
Context {Scalar : Type} {A : Arithmetic Scalar} {H : HessenbergReduction Scalar}.

Local Abbreviation State := (SchurDecomposition Scalar).
Local Abbreviation Matrix := (DynamicMatrix Scalar).
Local Abbreviation Member := (M Scalar).

Lemma extents_Some (q : option Matrix) (d : Z * Z) :
  extents q = Some d -> exists m, q = Some m /\ rows m = fst d /\ cols m = snd d.
Proof.
  destruct q as [m|]; simpl; intros E; inversion E. now exists m.
Qed.

Lemma extents_same_Some (q q' : option Matrix) (m : Matrix) :
  extents q' = extents q -> q = Some m -> exists m', q' = Some m'.
Proof.
  intros E ->. destruct q' as [m'|]; [now exists m' | discriminate].
Qed.

Lemma loop_frame_refl (s : State) : loop_frame s s.
Proof.
  unfold loop_frame, rows_frozen, cols_frozen. repeat split; auto; try lia.
  - intros t t' E E' i j _. rewrite E in E'. now inversion E'.
  - intros t t' E E' i j _. rewrite E in E'. now inversion E'.
Qed.

Lemma loop_frame_trans (s1 s2 s3 : State) :
  loop_frame s1 s2 -> loop_frame s2 s3 -> loop_frame s1 s3.
Proof.
  intros (P1 & C1 & E1 & U1 & R1 & K1) (P2 & C2 & E2 & U2 & R2 & K2).
  unfold loop_frame. repeat split; try congruence; try lia.
  - intros t t'' Ht Ht'' i j Hi.
    destruct (extents_same_Some _ E1 Ht) as [t' Ht'].
    rewrite (R2 t' t'' Ht' Ht'' i j) by lia. now apply (R1 t t').
  - intros u u'' Hu Hu'' i j Hj.
    destruct (extents_same_Some _ U1 Hu) as [u' Hu'].
    rewrite (K2 u' u'' Hu' Hu'' i j) by lia. now apply (K1 u u').
Qed.

Lemma framed_reads (c : Z) (R : Type) (m : Member R) : reads m -> framed c m.
Proof.
  intros Hm s Hc. destruct (Hm s) as [[r E]|[e E]]; rewrite E; simpl;
    split; auto using loop_frame_refl.
Qed.

Lemma framed_bind (c : Z) (R R' : Type) (m : Member R) (f : R -> Member R') :
  framed c m -> (forall r, framed c (f r)) -> framed c (bind m f).
Proof.
  intros Hm Hf s Hc. unfold bind. destruct (Hm s Hc) as [F C].
  destruct (m s) as [r s1|e s1|s1]; simpl in *; auto.
  destruct (Hf r s1 C) as [F' C']. split; [|exact C'].
  eapply loop_frame_trans; eauto.
Qed.

Lemma framed_get_cur_size (c : Z) (R : Type) (f : Z -> Member R) :
  framed c (f c) -> framed c (bind get_cur_size f).
Proof.
  intros Hf s Hc. unfold bind, get_cur_size. rewrite Hc. now apply Hf.
Qed.

Lemma block_cases (p : Buffer) (r0 c0 nr nc : Z) (s : State) :
  block p r0 c0 nr nc s
  = Ok {| owner := p;
          extent := {| startRow := r0; startCol := c0;
                       blockRows := nr; blockCols := nc |} |} s
  \/ exists e, block p r0 c0 nr nc s = Fault e s.
Proof.
  unfold block, bind, deref.
  destruct (pointer p s) as [m|]; [|right; now eexists].
  destruct (valid_block m _); [now left | right; now eexists].
Qed.

Lemma framed_block (c : Z) (R : Type) (p : Buffer) (r0 c0 nr nc : Z)
  (f : Block -> Member R) :
  framed c (f {| owner := p;
                 extent := {| startRow := r0; startCol := c0;
                              blockRows := nr; blockCols := nc |} |}) ->
  framed c (bind (block p r0 c0 nr nc) f).
Proof.
  intros Hf s Hc. unfold bind.
  destruct (block_cases p r0 c0 nr nc s) as [E|[e E]]; rewrite E.
  - exact (Hf s Hc).
  - simpl. split; auto using loop_frame_refl.
Qed.

(** Writing a matrix of the same extents that agrees with the old one
    after row [max(c, 2)]. *)
Lemma frame_store_schur (s : State) (t t' : Matrix) :
  p_schur_form_ s = Some t ->
  rows t' = rows t -> cols t' = cols t ->
  (forall i j, Z.max (cur_size_ s) 2 < i -> coeff t' i j = coeff t i j) ->
  loop_frame s (state_of (store SchurForm t' s))
  /\ cur_size_ (state_of (store SchurForm t' s)) = cur_size_ s.
Proof.
  intros Hp Hr Hc Hf. unfold store. simpl. rewrite Hp. simpl.
  split; [|reflexivity].
  unfold loop_frame, rows_frozen, cols_frozen. simpl. rewrite Hp. simpl.
  repeat split; auto; try lia; try congruence.
  intros t0 t0' E E' i j Hi. inversion E; inversion E'; subst. now apply Hf.
Qed.

Lemma frame_store_unitary (s : State) (u u' : Matrix) :
  p_unitary_ s = Some u ->
  rows u' = rows u -> cols u' = cols u ->
  (forall i j, Z.max (cur_size_ s) 2 < j -> coeff u' i j = coeff u i j) ->
  loop_frame s (state_of (store Unitary u' s))
  /\ cur_size_ (state_of (store Unitary u' s)) = cur_size_ s.
Proof.
  intros Hp Hr Hc Hf. unfold store. simpl. rewrite Hp. simpl.
  split; [|reflexivity].
  unfold loop_frame, rows_frozen, cols_frozen. simpl. rewrite Hp. simpl.
  repeat split; auto; try lia; try congruence.
  intros u0 u0' E E' i j Hj. inversion E; inversion E'; subst. now apply Hf.
Qed.

Lemma inside_false_row (e : Extent) (i j : Z) :
  startRow e + blockRows e <= i -> inside e i j = false.
Proof.
  intros Hi. unfold inside. rewrite !andb_false_iff, !Z.leb_gt, !Z.ltb_ge. lia.
Qed.

Lemma inside_false_col (e : Extent) (i j : Z) :
  startCol e + blockCols e <= j -> inside e i j = false.
Proof.
  intros Hj. unfold inside. rewrite !andb_false_iff, !Z.leb_gt, !Z.ltb_ge. lia.
Qed.

(** A reflector applied to a block of the Schur form whose rows end at or
    before row [max(c, 2)]. *)
Lemma framed_reflect_left_schur (c : Z) (r : HouseholderReflector) (e : Extent) :
  startRow e + blockRows e <= Z.max c 2 + 1 ->
  framed c (reflect_left r {| owner := SchurForm; extent := e |}).
Proof.
  intros He s Hc. unfold reflect_left, bind, deref. simpl.
  destruct (p_schur_form_ s) as [t|] eqn:Hp; simpl;
    [|split; auto using loop_frame_refl].
  destruct (reflect_left_values r (block_values t e)) as [v|]; simpl;
    [|split; auto using loop_frame_refl].
  destruct (frame_store_schur s (block_assign t e v) Hp) as [F C]; auto.
  - intros i j Hi. simpl. rewrite inside_false_row; [reflexivity | lia].
  - split; [exact F | lia].
Qed.

Lemma framed_reflect_right_schur (c : Z) (r : HouseholderReflector) (e : Extent) :
  startRow e + blockRows e <= Z.max c 2 + 1 ->
  framed c (reflect_right r {| owner := SchurForm; extent := e |}).
Proof.
  intros He s Hc. unfold reflect_right, bind, deref. simpl.
  destruct (p_schur_form_ s) as [t|] eqn:Hp; simpl;
    [|split; auto using loop_frame_refl].
  destruct (reflect_right_values r (block_values t e)) as [v|]; simpl;
    [|split; auto using loop_frame_refl].
  destruct (frame_store_schur s (block_assign t e v) Hp) as [F C]; auto.
  - intros i j Hi. simpl. rewrite inside_false_row; [reflexivity | lia].
  - split; [exact F | lia].
Qed.

(** A reflector applied to a block of the accumulator whose columns end at
    or before column [max(c, 2)]. *)
Lemma framed_reflect_unitary (c : Z) (r : HouseholderReflector) (e : Extent) :
  startCol e + blockCols e <= Z.max c 2 + 1 ->
  framed c (reflect_right r {| owner := Unitary; extent := e |}).
Proof.
  intros He s Hc. unfold reflect_right, bind, deref. simpl.
  destruct (p_unitary_ s) as [u|] eqn:Hp; simpl;
    [|split; auto using loop_frame_refl].
  destruct (reflect_right_values r (block_values u e)) as [v|]; simpl;
    [|split; auto using loop_frame_refl].
  destruct (frame_store_unitary s (block_assign u e v) Hp) as [F C]; auto.
  - intros i j Hj. simpl. rewrite inside_false_col; [reflexivity | lia].
  - split; [exact F | lia].
Qed.

Lemma framed_for_steps (c : Z) (body : Z -> Member unit) (R : Type)
  (f : Z -> Member R) (n : nat) :
  forall lo,
    (forall k, lo <= k < lo + Z.of_nat n -> framed c (body k)) ->
    framed c (f (lo + Z.of_nat n)) ->
    framed c (bind (for_steps n lo body) f).
Proof.
  induction n as [|n IH]; intros lo Hb Hf.
  - simpl. replace (lo + Z.of_nat 0) with lo in Hf by lia.
    intros s Hc. unfold bind, ret. now apply Hf.
  - simpl for_steps.
    assert (E : forall s,
               bind (bind (body lo) (fun _ => for_steps n (lo + 1) body)) f s
               = bind (body lo) (fun _ => bind (for_steps n (lo + 1) body) f) s).
    { intros s. unfold bind. now destruct (body lo s). }
    intros s Hc. rewrite E. revert s Hc. apply framed_bind.
    + apply Hb. lia.
    + intros _. apply IH.
      * intros k Hk. apply Hb. lia.
      * now replace (lo + 1 + Z.of_nat n) with (lo + Z.of_nat (S n)) by lia.
Qed.

End FrameFacts.

(** ** The sweeps keep the deflated part *)

Ltac frame_reads :=
  apply framed_reads;
  solve [ first [ apply reads_find_matching_column
                | apply reads_get_reflected_column
                | apply reads_find_starter_column
                | repeat reads_step ] ].

Ltac frame_step :=
  first
    [ frame_reads
    | apply framed_get_cur_size
    | apply framed_block
    | apply framed_reflect_left_schur; simpl; lia
    | apply framed_reflect_right_schur; simpl; lia
    | apply framed_reflect_unitary; simpl; lia
    | apply framed_bind; [ | intros ? ] ].

Section RelativeFrame.
Context {Scalar : Type} {A : Arithmetic Scalar} {H : HessenbergReduction Scalar}.

Local Abbreviation State := (SchurDecomposition Scalar).
Local Abbreviation Matrix := (DynamicMatrix Scalar).

Import RelativeThreshold.

Lemma framed_update_schur_form (c : Z) (r : HouseholderReflector) (step length : Z) :
  step + length <= Z.max c 2 ->
  framed c (update_schur_form r step length).
Proof.
  intros Hs.
  unfold update_schur_form, update_schur_form_left, update_schur_form_right.
  repeat frame_step.
Qed.

Lemma framed_update_unitary (c : Z) (r : HouseholderReflector) (step length : Z) :
  step + length <= Z.max c 2 ->
  framed c (update_unitary r step length).
Proof.
  intros Hs. unfold update_unitary. repeat frame_step.
Qed.

Lemma framed_set_matching_column (c : Z) : framed c set_matching_column.
Proof.
  unfold set_matching_column.
  apply framed_bind; [frame_reads | intros v].
  apply framed_bind; [frame_reads | intros r].
  apply framed_bind; [apply framed_update_schur_form; lia | intros _].
  apply framed_update_unitary; lia.
Qed.

Lemma framed_restore_step (c step : Z) :
  0 <= step <= c - 3 -> framed c (restore_step step).
Proof.
  intros Hs. unfold restore_step.
  apply framed_bind; [frame_reads | intros v].
  apply framed_bind; [frame_reads | intros r].
  apply framed_bind; [apply framed_update_schur_form; lia | intros _].
  apply framed_update_unitary; lia.
Qed.

Lemma framed_restore_hessenberg_form (c : Z) : framed c restore_hessenberg_form.
Proof.
  unfold restore_hessenberg_form. apply framed_get_cur_size.
  apply framed_for_steps.
  - intros k Hk. apply framed_restore_step. lia.
  - apply framed_bind; [frame_reads | intros v].
    apply framed_bind; [frame_reads | intros r].
    apply framed_bind; [apply framed_update_schur_form; lia | intros _].
    apply framed_update_unitary; lia.
Qed.

Lemma framed_make_QR_iteration (c : Z) : framed c make_QR_iteration.
Proof.
  unfold make_QR_iteration.
  apply framed_bind; [apply framed_set_matching_column | intros _].
  apply framed_restore_hessenberg_form.
Qed.

End RelativeFrame.

Section AbsoluteFrame.
Context {Scalar : Type} {A : Arithmetic Scalar} {H : HessenbergReduction Scalar}.

Local Abbreviation State := (SchurDecomposition Scalar).
Local Abbreviation Matrix := (DynamicMatrix Scalar).

Import AbsoluteThreshold.

Lemma framed_start (c : Z) : framed c start.
Proof.
  unfold start.
  apply framed_bind; [frame_reads | intros v].
  repeat frame_step.
Qed.

Lemma framed_process_step (c step : Z) :
  0 <= step <= c - 3 -> framed c (process_step step).
Proof.
  intros Hs. unfold process_step, process_left, process_right, process_unitary.
  repeat frame_step.
Qed.

Lemma framed_process (c : Z) : framed c process.
Proof.
  unfold process. apply framed_get_cur_size.
  apply framed_for_steps.
  - intros k Hk. apply framed_process_step. lia.
  - frame_reads.
Qed.

Lemma framed_finish (c : Z) : framed c finish.
Proof.
  unfold finish. repeat frame_step.
Qed.

Lemma framed_sweep (c : Z) : framed c (start ;; process ;; finish).
Proof.
  apply framed_bind; [apply framed_start | intros _].
  apply framed_bind; [apply framed_process | intros _].
  apply framed_finish.
Qed.

End AbsoluteFrame.

(** ** What a deflation changes *)

Section DeflationFrame.
Context {Scalar : Type} {A : Arithmetic Scalar} {H : HessenbergReduction Scalar}.

Local Abbreviation State := (SchurDecomposition Scalar).
Local Abbreviation Matrix := (DynamicMatrix Scalar).

Lemma deflation_frame_refl (s : State) : deflation_frame s s.
Proof.
  unfold deflation_frame. repeat split; auto; try lia.
  intros t t' E E' i j. rewrite E in E'. inversion E'. now left.
Qed.

Lemma deflation_frame_trans (s1 s2 s3 : State) :
  deflation_frame s1 s2 -> deflation_frame s2 s3 -> deflation_frame s1 s3.
Proof.
  intros (P1 & U1 & C1 & E1 & F1) (P2 & U2 & C2 & E2 & F2).
  unfold deflation_frame. repeat split; try congruence; try lia.
  intros t t'' Ht Ht'' i j.
  destruct (extents_same_Some _ E1 Ht) as [t' Ht'].
  destruct (F2 t' t'' Ht' Ht'' i j) as [Q2|(Z2 & J2 & R2)];
    destruct (F1 t t' Ht Ht' i j) as [Q1|(Z1 & J1 & R1)].
  - left. congruence.
  - right. repeat split; try congruence; lia.
  - right. repeat split; try congruence; lia.
  - right. repeat split; try congruence; lia.
Qed.

Lemma deflation_frame_deflated (s : State) (t : Matrix) (k : Z) :
  p_schur_form_ s = Some t -> 1 <= k -> deflation_frame s (deflated s t k).
Proof.
  intros Hp Hk. unfold deflation_frame, deflated. simpl. rewrite Hp. simpl.
  repeat split; auto; try lia.
  intros t0 t0' E E' i j. inversion E; inversion E'; subst. simpl.
  destruct ((i =? cur_size_ s + 1 - k) && (j =? cur_size_ s - k)) eqn:B.
  - right. apply andb_true_iff in B. rewrite !Z.eqb_eq in B. repeat split; lia.
  - now left.
Qed.

Lemma deflation_frame_loop_frame (s s' : State) :
  deflation_frame s s' -> loop_frame s s'.
Proof.
  intros (P & U & C & E & F). unfold loop_frame, rows_frozen, cols_frozen.
  rewrite U. repeat split; auto.
  - intros t t' Ht Ht' i j Hi.
    destruct (F t t' Ht Ht' i j) as [Q|(_ & _ & R)]; [exact Q | lia].
  - intros u u' Hu Hu' i j _. rewrite Hu in Hu'. now inversion Hu'.
Qed.

Lemma try_to_deflate_loop_frame (passes : nat) :
  forall s : State,
    deflation_frame s (state_of (RelativeThreshold.try_to_deflate_loop passes s)).
Proof.
  induction passes as [|passes IH]; intros s; simpl;
    [apply deflation_frame_refl|].
  unfold bind.
  destruct (try_to_deflate_body_cases s)
    as [[e E]|[[E _]|[(t & Hp & _ & _ & E)|(t & Hp & _ & _ & _ & E)]]];
    rewrite E; simpl; try apply deflation_frame_refl.
  - eapply deflation_frame_trans; [|apply IH].
    apply deflation_frame_deflated; [exact Hp | lia].
  - eapply deflation_frame_trans; [|apply IH].
    apply deflation_frame_deflated; [exact Hp | lia].
Qed.

Lemma try_to_deflate_frame (s : State) :
  deflation_frame s (state_of (RelativeThreshold.try_to_deflate s)).
Proof.
  unfold RelativeThreshold.try_to_deflate, bind, get_cur_size.
  apply try_to_deflate_loop_frame.
Qed.

Lemma try_deflate_frame (s : State) :
  deflation_frame s (state_of (AbsoluteThreshold.try_deflate s)).
Proof.
  destruct (try_deflate_cases s)
    as [[e E]|[(t & _ & _ & _ & E)|[(t & Hp & _ & E)|(t & Hp & _ & _ & E)]]];
    rewrite E; simpl; try apply deflation_frame_refl;
    apply deflation_frame_deflated; auto; lia.
Qed.

Lemma relative_QR_loop_frame (sweeps : nat) :
  forall s : State, loop_frame s (state_of (RelativeThreshold.QR_loop sweeps s)).
Proof.
  induction sweeps as [|sweeps IH]; intros s; rewrite QR_loop_unfold;
    destruct (2 <=? cur_size_ s); simpl; try apply loop_frame_refl.
  unfold bind.
  destruct (@framed_make_QR_iteration _ _ _ (cur_size_ s) s eq_refl) as [F _].
  destruct (RelativeThreshold.make_QR_iteration s) as [r s1|e s1|s1];
    simpl in *; try exact F.
  pose proof (deflation_frame_loop_frame (try_to_deflate_frame s1)) as D.
  destruct (RelativeThreshold.try_to_deflate s1) as [r2 s2|e s2|s2]; simpl in *;
    try (eapply loop_frame_trans; eassumption).
  eapply loop_frame_trans; [exact F|].
  eapply loop_frame_trans; [exact D | apply IH].
Qed.

Lemma absolute_QR_loop_frame (sweeps : nat) :
  forall s : State, loop_frame s (state_of (AbsoluteThreshold.QR_loop sweeps s)).
Proof.
  induction sweeps as [|sweeps IH]; intros s; rewrite abs_QR_loop_unfold;
    destruct (2 <=? cur_size_ s); simpl; try apply loop_frame_refl.
  assert (P : loop_frame s
                (state_of ((AbsoluteThreshold.start ;; AbsoluteThreshold.process ;;
                            AbsoluteThreshold.finish ;; AbsoluteThreshold.try_deflate) s))
              /\ forall r s1,
                  (AbsoluteThreshold.start ;; AbsoluteThreshold.process ;;
                   AbsoluteThreshold.finish ;; AbsoluteThreshold.try_deflate) s
                  = Ok r s1 -> loop_frame s s1).
  { assert (Q : loop_frame s
                  (state_of ((AbsoluteThreshold.start ;; AbsoluteThreshold.process ;;
                              AbsoluteThreshold.finish ;; AbsoluteThreshold.try_deflate) s))).
    { destruct (@framed_sweep _ _ _ (cur_size_ s) s eq_refl) as [F _].
      unfold bind in *.
      destruct (AbsoluteThreshold.start s) as [r1 s1|e s1|s1]; simpl in *;
        try exact F.
      destruct (AbsoluteThreshold.process s1) as [r2 s2|e s2|s2]; simpl in *;
        try exact F.
      destruct (AbsoluteThreshold.finish s2) as [r3 s3|e s3|s3]; simpl in *;
        try exact F.
      eapply loop_frame_trans; [exact F|].
      apply deflation_frame_loop_frame, try_deflate_frame. }
    split; [exact Q|]. intros r s1 E. rewrite E in Q. exact Q. }
  destruct P as [Q Q'].
  destruct ((AbsoluteThreshold.start ;; AbsoluteThreshold.process ;;
             AbsoluteThreshold.finish ;; AbsoluteThreshold.try_deflate) s)
    as [r s1|e s1|s1]; simpl in *; try exact Q.
  eapply loop_frame_trans; [exact Q | apply IH].
Qed.

End DeflationFrame.

(** ** Every index and block of a sweep is in range *)

Section BoundsFacts.
Context {Scalar : Type} {A : Arithmetic Scalar} {H : HessenbergReduction Scalar}.

Local Abbreviation State := (SchurDecomposition Scalar).
Local Abbreviation Matrix := (DynamicMatrix Scalar).
Local Abbreviation Member := (M Scalar).

Lemma well_formed_buffers (n : Z) (s : State) :
  well_formed n s ->
  exists t u, p_schur_form_ s = Some t /\ p_unitary_ s = Some u /\
              rows t = n /\ cols t = n /\ rows u = n /\ cols u = n.
Proof.
  intros [Ht Hu].
  apply extents_Some in Ht. destruct Ht as (t & Ht & Hr & Hc).
  apply extents_Some in Hu. destruct Hu as (u & Hu & Hr' & Hc').
  exists t, u. simpl in *. auto 10.
Qed.

Lemma well_formed_pointer (n : Z) (s : State) (p : Buffer) :
  well_formed n s -> exists m, pointer p s = Some m /\ rows m = n /\ cols m = n.
Proof.
  intros W. destruct (well_formed_buffers W) as (t & u & Ht & Hu & ? & ? & ? & ?).
  destruct p; simpl; [exists t | exists u]; auto.
Qed.

Lemma well_formed_store (n : Z) (s : State) (p : Buffer) (m : Matrix) :
  well_formed n s -> rows m = n -> cols m = n ->
  exists s', store p m s = Ok tt s' /\ well_formed n s'
             /\ cur_size_ s' = cur_size_ s /\ precision_ s' = precision_ s.
Proof.
  intros W Hr Hc. pose proof W as [Wt Wu].
  destruct (well_formed_pointer p W) as (m0 & Hp & _ & _).
  unfold store. rewrite Hp. eexists. split; [reflexivity|].
  destruct p; simpl; unfold well_formed; simpl; rewrite ?Hr, ?Hc; auto.
Qed.

Lemma in_bounds_ret (n c : Z) (R : Type) (r : R) :
  in_bounds n c (ret r : Member R).
Proof. intros s W C. simpl. auto. Qed.

Lemma in_bounds_bind (n c : Z) (R R' : Type) (m : Member R) (f : R -> Member R') :
  in_bounds n c m -> (forall r, in_bounds n c (f r)) -> in_bounds n c (bind m f).
Proof.
  intros Hm Hf s W C. unfold bind. specialize (Hm s W C).
  destruct (m s) as [r s1|e s1|s1]; auto.
  destruct Hm as [W1 C1]. exact (Hf r s1 W1 C1).
Qed.

Lemma in_bounds_get_cur_size (n c : Z) (R : Type) (f : Z -> Member R) :
  in_bounds n c (f c) -> in_bounds n c (bind get_cur_size f).
Proof.
  intros Hf s W C. unfold bind, get_cur_size. rewrite C. exact (Hf s W C).
Qed.

Lemma size_value (n : Z) (s : State) : well_formed n s -> size s = Ok n s.
Proof.
  intros W. destruct (well_formed_buffers W) as (t & u & Ht & _ & Hr & Hc & _).
  unfold size, bind, deref, assert. simpl. rewrite Ht, Hr, Hc, Z.eqb_refl.
  reflexivity.
Qed.

Lemma in_bounds_size (n c : Z) (R : Type) (f : Z -> Member R) :
  in_bounds n c (f n) -> in_bounds n c (bind size f).
Proof.
  intros Hf s W C. unfold bind. rewrite (size_value W). exact (Hf s W C).
Qed.

Lemma in_bounds_block (n c : Z) (R : Type) (p : Buffer) (r0 c0 nr nc : Z)
  (f : Block -> Member R) :
  0 <= r0 /\ 0 <= nr /\ r0 + nr <= n /\ 0 <= c0 /\ 0 <= nc /\ c0 + nc <= n ->
  in_bounds n c (f {| owner := p;
                      extent := {| startRow := r0; startCol := c0;
                                   blockRows := nr; blockCols := nc |} |}) ->
  in_bounds n c (bind (block p r0 c0 nr nc) f).
Proof.
  intros Hb Hf s W C. unfold bind.
  destruct (well_formed_pointer p W) as (m & Hp & Hr & Hc).
  rewrite (block_value p _ _ _ _ s Hp) by (apply valid_block_iff; lia).
  exact (Hf s W C).
Qed.

Lemma in_bounds_values (n c : Z) (b : Block) : in_bounds n c (values b).
Proof.
  intros s W C. destruct (well_formed_pointer (owner b) W) as (m & Hp & _ & _).
  erewrite values_value by exact Hp. auto.
Qed.

Lemma in_bounds_at (n c : Z) (i j : Z) :
  0 <= i < n -> 0 <= j < n -> in_bounds n c (at_ SchurForm i j : Member Scalar).
Proof.
  intros Hi Hj s W C.
  destruct (well_formed_buffers W) as (t & u & Ht & _ & Hr & Hc & _).
  rewrite (at_value SchurForm i j s Ht) by (apply in_range_iff; lia). auto.
Qed.

Lemma in_bounds_Reflector (n c : Z) (v : Matrix) : in_bounds n c (Reflector v).
Proof.
  intros s W C. unfold Reflector. destruct (make_reflector v); simpl; auto.
Qed.

Lemma in_bounds_reflect_left (n c : Z) (r : HouseholderReflector) (b : Block) :
  in_bounds n c (reflect_left r b).
Proof.
  intros s W C. destruct (well_formed_pointer (owner b) W) as (m & Hp & Hr & Hc).
  unfold reflect_left, bind, deref. rewrite Hp.
  destruct (reflect_left_values r (block_values m (extent b))) as [v|];
    [|reflexivity].
  destruct (well_formed_store (owner b) (block_assign m (extent b) v) W Hr Hc)
    as (s' & E & W' & C' & _).
  rewrite E. split; [exact W' | congruence].
Qed.

Lemma in_bounds_reflect_right (n c : Z) (r : HouseholderReflector) (b : Block) :
  in_bounds n c (reflect_right r b).
Proof.
  intros s W C. destruct (well_formed_pointer (owner b) W) as (m & Hp & Hr & Hc).
  unfold reflect_right, bind, deref. rewrite Hp.
  destruct (reflect_right_values r (block_values m (extent b))) as [v|];
    [|reflexivity].
  destruct (well_formed_store (owner b) (block_assign m (extent b) v) W Hr Hc)
    as (s' & E & W' & C' & _).
  rewrite E. split; [exact W' | congruence].
Qed.

Lemma in_bounds_for_steps (n c : Z) (body : Z -> Member unit) (R : Type)
  (f : Z -> Member R) (k : nat) :
  forall lo,
    (forall i, lo <= i < lo + Z.of_nat k -> in_bounds n c (body i)) ->
    in_bounds n c (f (lo + Z.of_nat k)) ->
    in_bounds n c (bind (for_steps k lo body) f).
Proof.
  induction k as [|k IH]; intros lo Hb Hf.
  - simpl. replace (lo + Z.of_nat 0) with lo in Hf by lia.
    intros s W C. unfold bind, ret. exact (Hf s W C).
  - simpl for_steps.
    assert (E : forall s,
               bind (bind (body lo) (fun _ => for_steps k (lo + 1) body)) f s
               = bind (body lo) (fun _ => bind (for_steps k (lo + 1) body) f) s).
    { intros s. unfold bind. now destruct (body lo s). }
    intros s W C. rewrite E. revert s W C. apply in_bounds_bind.
    + apply Hb. lia.
    + intros _. apply IH.
      * intros i Hi. apply Hb. lia.
      * now replace (lo + 1 + Z.of_nat k) with (lo + Z.of_nat (S k)) by lia.
Qed.

End BoundsFacts.

Ltac bounds_step :=
  first
    [ apply in_bounds_ret
    | apply in_bounds_values
    | apply in_bounds_Reflector
    | apply in_bounds_reflect_left
    | apply in_bounds_reflect_right
    | apply in_bounds_at; lia
    | apply in_bounds_get_cur_size
    | apply in_bounds_size
    | apply in_bounds_block; [ lia | ]
    | apply in_bounds_bind; [ | intros ? ] ].

Section RelativeBounds.
Context {Scalar : Type} {A : Arithmetic Scalar} {H : HessenbergReduction Scalar}.

Local Abbreviation State := (SchurDecomposition Scalar).
Local Abbreviation Matrix := (DynamicMatrix Scalar).

Import RelativeThreshold.

Variables n c : Z.
Hypothesis active : 2 <= c < n.

Lemma in_bounds_find_bottom_corner_trace : in_bounds n c find_bottom_corner_trace.
Proof. unfold find_bottom_corner_trace. repeat bounds_step. Qed.

Lemma in_bounds_find_bottom_corner_det : in_bounds n c find_bottom_corner_det.
Proof. unfold find_bottom_corner_det. repeat bounds_step. Qed.

Lemma in_bounds_find_matching_column : in_bounds n c find_matching_column.
Proof.
  unfold find_matching_column.
  apply in_bounds_bind; [apply in_bounds_find_bottom_corner_trace | intros ?].
  apply in_bounds_bind; [apply in_bounds_find_bottom_corner_det | intros ?].
  repeat bounds_step.
Qed.

Lemma in_bounds_update_schur_form (r : HouseholderReflector) (step length : Z) :
  -1 <= step -> 0 <= length -> step + length <= c ->
  in_bounds n c (update_schur_form r step length).
Proof.
  intros Hs Hl Hsl.
  unfold update_schur_form, update_schur_form_left, update_schur_form_right.
  repeat bounds_step.
Qed.

Lemma in_bounds_update_unitary (r : HouseholderReflector) (step length : Z) :
  -1 <= step -> 0 <= length -> step + length <= c ->
  in_bounds n c (update_unitary r step length).
Proof.
  intros Hs Hl Hsl. unfold update_unitary. repeat bounds_step.
Qed.

Lemma in_bounds_get_reflected_column (step rows : Z) :
  0 <= step -> 0 <= rows -> step + rows <= c ->
  in_bounds n c (get_reflected_column step rows).
Proof.
  intros Hs Hr Hsr. unfold get_reflected_column. repeat bounds_step.
Qed.

Lemma in_bounds_set_matching_column : in_bounds n c set_matching_column.
Proof.
  unfold set_matching_column.
  apply in_bounds_bind; [apply in_bounds_find_matching_column | intros v].
  apply in_bounds_bind; [apply in_bounds_Reflector | intros r].
  apply in_bounds_bind; [apply in_bounds_update_schur_form; lia | intros _].
  apply in_bounds_update_unitary; lia.
Qed.

Lemma in_bounds_restore_step (step : Z) :
  0 <= step <= c - 3 -> in_bounds n c (restore_step step).
Proof.
  intros Hs. unfold restore_step.
  apply in_bounds_bind; [apply in_bounds_get_reflected_column; lia | intros v].
  apply in_bounds_bind; [apply in_bounds_Reflector | intros r].
  apply in_bounds_bind; [apply in_bounds_update_schur_form; lia | intros _].
  apply in_bounds_update_unitary; lia.
Qed.

Lemma in_bounds_restore_hessenberg_form : in_bounds n c restore_hessenberg_form.
Proof.
  unfold restore_hessenberg_form. apply in_bounds_get_cur_size.
  apply in_bounds_for_steps.
  - intros k Hk. apply in_bounds_restore_step. lia.
  - apply in_bounds_bind; [apply in_bounds_get_reflected_column; lia | intros v].
    apply in_bounds_bind; [apply in_bounds_Reflector | intros r].
    apply in_bounds_bind; [apply in_bounds_update_schur_form; lia | intros _].
    apply in_bounds_update_unitary; lia.
Qed.

Lemma in_bounds_make_QR_iteration : in_bounds n c make_QR_iteration.
Proof.
  unfold make_QR_iteration.
  apply in_bounds_bind; [apply in_bounds_set_matching_column | intros _].
  apply in_bounds_restore_hessenberg_form.
Qed.

End RelativeBounds.

Section AbsoluteBounds.
Context {Scalar : Type} {A : Arithmetic Scalar} {H : HessenbergReduction Scalar}.

Local Abbreviation State := (SchurDecomposition Scalar).
Local Abbreviation Matrix := (DynamicMatrix Scalar).

Import AbsoluteThreshold.

Variables n c : Z.
Hypothesis active : 2 <= c < n.

Lemma in_bounds_find_starter_column : in_bounds n c find_starter_column.
Proof.
  unfold find_starter_column.
  apply in_bounds_bind;
    [apply in_bounds_find_bottom_corner_trace; exact active | intros ?].
  apply in_bounds_bind;
    [apply in_bounds_find_bottom_corner_det; exact active | intros ?].
  repeat bounds_step.
Qed.

Lemma in_bounds_start : in_bounds n c start.
Proof.
  unfold start.
  apply in_bounds_bind; [apply in_bounds_find_starter_column | intros v].
  repeat bounds_step.
Qed.

Lemma in_bounds_process_step (step : Z) :
  0 <= step <= c - 3 -> in_bounds n c (process_step step).
Proof.
  intros Hs. unfold process_step, process_left, process_right, process_unitary.
  repeat bounds_step.
Qed.

Lemma in_bounds_process : in_bounds n c process.
Proof.
  unfold process. apply in_bounds_get_cur_size.
  apply in_bounds_for_steps.
  - intros k Hk. apply in_bounds_process_step. lia.
  - apply in_bounds_ret.
Qed.

Lemma in_bounds_finish : in_bounds n c finish.
Proof. unfold finish. repeat bounds_step. Qed.

Lemma in_bounds_sweep : in_bounds n c (start ;; process ;; finish).
Proof.
  apply in_bounds_bind; [apply in_bounds_start | intros _].
  apply in_bounds_bind; [apply in_bounds_process | intros _].
  apply in_bounds_finish.
Qed.

End AbsoluteBounds.

(** ** Where the loops can stop *)

Section LoopBounds.
Context {Scalar : Type} {A : Arithmetic Scalar} {H : HessenbergReduction Scalar}.

Local Abbreviation State := (SchurDecomposition Scalar).
Local Abbreviation Matrix := (DynamicMatrix Scalar).

Lemma well_formed_deflated (n : Z) (s : State) (t : Matrix) (k : Z) :
  well_formed n s -> p_schur_form_ s = Some t -> well_formed n (deflated s t k).
Proof.
  intros [Wt Wu] Hp. unfold well_formed, deflated. simpl.
  rewrite Hp in Wt. simpl in Wt. auto.
Qed.

Lemma well_formed_set_cur_size (n : Z) (s : State) (c : Z) :
  well_formed n s -> well_formed n (state_of (set_cur_size c s)).
Proof. intros [Wt Wu]. split; assumption. Qed.

Lemma size_Ok_inv (s s' : State) (n : Z) :
  size s = Ok n s' ->
  s' = s /\ exists t, p_schur_form_ s = Some t /\ rows t = n /\ cols t = n.
Proof.
  unfold size, bind, deref, assert. simpl.
  destruct (p_schur_form_ s) as [t|]; [|discriminate].
  destruct (Z.eqb_spec (rows t) (cols t)) as [E|E]; simpl; [|discriminate].
  intros Q. inversion Q; subst. split; [reflexivity|]. exists t. auto.
Qed.

(** With [cur_size_ = 0] the first test reads the entry [(0, -1)]. *)
Lemma relative_at_zero (s : State) (t : Matrix) :
  p_schur_form_ s = Some t -> cur_size_ s = 0 ->
  RelativeThreshold.try_to_deflate_body s = Fault (IndexOutOfRange 0 (-1)) s.
Proof.
  intros Hp Hc.
  unfold RelativeThreshold.try_to_deflate_body, bind, get_cur_size.
  unfold RelativeThreshold.zero_under_diagonal, bind.
  rewrite (at_fault SchurForm (cur_size_ s) (cur_size_ s - 1) s Hp).
  - now rewrite Hc.
  - apply in_range_false. lia.
Qed.

Lemma relative_cascade_bounds (n : Z) (passes : nat) :
  forall s : State,
    well_formed n s -> 0 <= cur_size_ s < n ->
    match RelativeThreshold.try_to_deflate_loop passes s with
    | Ok _ s' => well_formed n s' /\ 2 <= cur_size_ s' < n
    | Fault e _ => e = IndexOutOfRange 0 (-1)
    | OutOfFuel _ => True
    end.
Proof.
  induction passes as [|passes IH]; intros s W C; simpl; [trivial|].
  unfold bind.
  destruct (well_formed_buffers W) as (t & u & Ht & _ & Hr & Hc & _).
  assert (Cases : cur_size_ s = 0 \/ cur_size_ s = 1 \/ 2 <= cur_size_ s) by lia.
  destruct Cases as [C0|[C1|C2]].
  - now rewrite (relative_at_zero s Ht C0).
  - destruct (relative_test (precision_ s) t (cur_size_ s)) eqn:T1.
    + rewrite (relative_first s Ht) by (auto; lia).
      apply IH; [now apply well_formed_deflated | simpl; lia].
    + rewrite C1 in T1. now rewrite (relative_outside s Ht C1) by (auto; lia).
  - destruct (relative_test (precision_ s) t (cur_size_ s)) eqn:T1.
    + rewrite (relative_first s Ht) by (auto; lia).
      apply IH; [now apply well_formed_deflated | simpl; lia].
    + destruct (relative_test (precision_ s) t (cur_size_ s - 1)) eqn:T2.
      * rewrite (relative_second s Ht) by (auto; lia).
        apply IH; [now apply well_formed_deflated | simpl; lia].
      * rewrite (relative_none s Ht) by (auto; lia). simpl. split; [exact W | lia].
Qed.

Lemma relative_try_to_deflate_bounds (n : Z) (s : State) :
  well_formed n s -> 0 <= cur_size_ s < n ->
  match RelativeThreshold.try_to_deflate s with
  | Ok _ s' => well_formed n s' /\ 2 <= cur_size_ s' < n
  | Fault e _ => e = IndexOutOfRange 0 (-1)
  | OutOfFuel _ => False
  end.
Proof.
  intros W C. pose proof (try_to_deflate_returns s) as T.
  unfold RelativeThreshold.try_to_deflate, bind, get_cur_size in *.
  pose proof (relative_cascade_bounds (S (Z.to_nat (cur_size_ s))) W C) as B.
  destruct (RelativeThreshold.try_to_deflate_loop (S (Z.to_nat (cur_size_ s))) s);
    auto.
Qed.

Lemma relative_QR_loop_bounds (n : Z) (sweeps : nat) :
  forall s : State,
    well_formed n s -> 2 <= cur_size_ s < n ->
    match RelativeThreshold.QR_loop sweeps s with
    | Ok _ _ => False
    | Fault e _ => e = CollaboratorFailed \/ e = IndexOutOfRange 0 (-1)
    | OutOfFuel s' => well_formed n s' /\ 2 <= cur_size_ s' < n
    end.
Proof.
  induction sweeps as [|sweeps IH]; intros s W C; rewrite QR_loop_unfold;
    replace (2 <=? cur_size_ s) with true by (symmetry; apply Z.leb_le; lia).
  - auto.
  - unfold bind.
    pose proof (@in_bounds_make_QR_iteration Scalar A H n (cur_size_ s) C s W eq_refl)
      as B.
    destruct (RelativeThreshold.make_QR_iteration s) as [r s1|e s1|s1];
      [|now left|contradiction].
    destruct B as [W1 C1].
    assert (C1' : 0 <= cur_size_ s1 < n) by lia.
    pose proof (relative_try_to_deflate_bounds W1 C1') as D.
    destruct (RelativeThreshold.try_to_deflate s1) as [r2 s2|e s2|s2];
      [|now right|contradiction].
    destruct D as [W2 C2]. now apply IH.
Qed.

(** Entered with [cur_size_ >= 2], the loop of the relative-threshold class
    does not return. *)
Lemma relative_QR_loop_never_returns (sweeps : nat) :
  forall s s' : State,
    2 <= cur_size_ s -> RelativeThreshold.QR_loop sweeps s <> Ok tt s'.
Proof.
  induction sweeps as [|sweeps IH]; intros s s' C; rewrite QR_loop_unfold;
    replace (2 <=? cur_size_ s) with true by (symmetry; apply Z.leb_le; lia).
  - discriminate.
  - pose proof (QR_pass_spec s) as P.
    destruct ((RelativeThreshold.make_QR_iteration ;;
               RelativeThreshold.try_to_deflate) s) as [r s1|e s1|s1];
      try discriminate.
    destruct P as [St _]. apply settled_tests in St.
    destruct St as (t & _ & Hc & _). apply IH. lia.
Qed.

Lemma relative_try_to_deflate_never_below (s s' : State) :
  RelativeThreshold.try_to_deflate s = Ok tt s' -> 2 <= cur_size_ s'.
Proof.
  intros E. pose proof (try_to_deflate_returns s) as T. rewrite E in T.
  destruct T as [St _]. apply settled_tests in St.
  destruct St as (t & _ & Hc & _). lia.
Qed.

Lemma absolute_try_deflate_bounds (n : Z) (s : State) :
  well_formed n s -> 2 <= cur_size_ s < n ->
  exists s', AbsoluteThreshold.try_deflate s = Ok tt s' /\ well_formed n s'
             /\ cur_size_ s' <= cur_size_ s.
Proof.
  intros W C.
  destruct (well_formed_buffers W) as (t & u & Ht & _ & Hr & Hc & _).
  destruct (absolute_test (precision_ s) t (cur_size_ s)) eqn:T1.
  - rewrite (absolute_first s Ht) by (auto; lia).
    eexists. split; [reflexivity|].
    split; [now apply well_formed_deflated | simpl; lia].
  - rewrite (absolute_later s Ht) by (auto; lia).
    destruct (absolute_test (precision_ s) t (cur_size_ s - 1)).
    + eexists. split; [reflexivity|].
      split; [now apply well_formed_deflated | simpl; lia].
    + exists s. repeat split; auto; try apply W. lia.
Qed.

Lemma absolute_QR_loop_bounds (n : Z) (sweeps : nat) :
  forall s : State,
    well_formed n s -> cur_size_ s < n ->
    match AbsoluteThreshold.QR_loop sweeps s with
    | Ok _ s' => well_formed n s' /\ cur_size_ s' < 2
    | Fault e _ => e = CollaboratorFailed
    | OutOfFuel s' => well_formed n s' /\ 2 <= cur_size_ s' < n
    end.
Proof.
  induction sweeps as [|sweeps IH]; intros s W C; rewrite abs_QR_loop_unfold;
    destruct (Z.leb_spec 2 (cur_size_ s)) as [C2|C2]; auto.
  assert (Act : 2 <= cur_size_ s < n) by lia.
  pose proof (@in_bounds_sweep Scalar A H n (cur_size_ s) Act s W eq_refl) as B.
  unfold bind in *.
  destruct (AbsoluteThreshold.start s) as [r1 s1|e s1|s1]; [|exact B|contradiction].
  destruct (AbsoluteThreshold.process s1) as [r2 s2|e s2|s2];
    [|exact B|contradiction].
  destruct (AbsoluteThreshold.finish s2) as [r3 s3|e s3|s3];
    [|exact B|contradiction].
  destruct B as [W3 C3].
  assert (Act3 : 2 <= cur_size_ s3 < n) by lia.
  destruct (absolute_try_deflate_bounds W3 Act3) as (s4 & E & W4 & C4).
  rewrite E. apply IH; [exact W4 | lia].
Qed.

End LoopBounds.

(** ** The exit of the QR loop *)

(** C5, where the code departs from it.  [cur_size_] never grows in either
    class ([cur_size_never_grows]), but the loop of the relative-threshold
    class does not exit when [cur_size_] drops below 2.  On the upper
    Hessenberg [ripe3], precision 1: the first cascade lowers [cur_size_]
    from 2 to 1 and, instead of returning to the loop test, goes on to its
    second test, which reads the entry [(0, -1)]; the run stops there with
    [cur_size_ = 1], for any number of sweeps allowed.  In general the
    loop of this class, entered with [cur_size_ >= 2], never returns,
    since [try_to_deflate] only returns with [cur_size_ >= 2].  The class
    with the absolute threshold, whose [try_deflate] returns after one
    deflation, exits on the same input with [cur_size_ = 0]. *)
Theorem relative_loop_misses_its_exit :
  (forall sweeps : nat,
      RelativeThreshold.run_QR_algorithm sweeps (object_of 1 ripe3 0)
      = Fault (IndexOutOfRange 0 (-1)) (deflated (object_of 1 ripe3 2) ripe3 1))
  /\ cur_size_ (deflated (object_of 1 ripe3 2) ripe3 1) = 1
  /\ (forall (sweeps : nat) (s s' : SchurDecomposition Z),
         RelativeThreshold.try_to_deflate s = Ok tt s' -> 2 <= cur_size_ s')
  /\ (forall (sweeps : nat) (s s' : SchurDecomposition Z),
         2 <= cur_size_ s -> RelativeThreshold.QR_loop sweeps s <> Ok tt s')
  /\ AbsoluteThreshold.run_QR_algorithm 1 (object_of 1 ripe3 0)
     = Ok tt (state_of (AbsoluteThreshold.run_QR_algorithm 1 (object_of 1 ripe3 0)))
  /\ cur_size_ (state_of (AbsoluteThreshold.run_QR_algorithm 1 (object_of 1 ripe3 0)))
     = 0.
Proof.
  split; [|split; [|split; [|split; [|split]]]].
  - intros sweeps. reflexivity.
  - reflexivity.
  - intros _ s s'. apply relative_try_to_deflate_never_below.
  - intros sweeps s s'. apply relative_QR_loop_never_returns.
  - reflexivity.
  - reflexivity.
Qed.

(** ** The precision *)

Section PrecisionFacts.
Context {Scalar : Type} {A : Arithmetic Scalar} {H : HessenbergReduction Scalar}.

Local Abbreviation State := (SchurDecomposition Scalar).
Local Abbreviation Matrix := (DynamicMatrix Scalar).
Local Abbreviation Member := (M Scalar).

Lemma keeps_precision_reads (R : Type) (m : Member R) : reads m -> keeps_precision m.
Proof.
  intros Hm s. destruct (Hm s) as [[r E]|[e E]]; now rewrite E.
Qed.

Lemma keeps_precision_bind (R R' : Type) (m : Member R) (f : R -> Member R') :
  keeps_precision m -> (forall r, keeps_precision (f r)) -> keeps_precision (bind m f).
Proof.
  intros Hm Hf s. unfold bind. specialize (Hm s).
  destruct (m s) as [r s1|e s1|s1]; simpl in *; auto.
  now rewrite (Hf r s1).
Qed.

Lemma keeps_precision_set_pointer (p : Buffer) (q : option Matrix) :
  keeps_precision (set_pointer p q).
Proof. intros s. now destruct p. Qed.

Lemma keeps_precision_store (p : Buffer) (m : Matrix) : keeps_precision (store p m).
Proof.
  intros s. unfold store. destruct (pointer p s); [|reflexivity]. now destruct p.
Qed.

Lemma keeps_precision_set_cur_size (c : Z) :
  keeps_precision (set_cur_size c : Member unit).
Proof. intros s. reflexivity. Qed.

Lemma keeps_precision_set_internal_members
  (data : Matrix) (schur_form unitary : option Matrix) :
  keeps_precision (AbsoluteThreshold.set_internal_members data schur_form unitary).
Proof.
  unfold AbsoluteThreshold.set_internal_members.
  repeat first [ apply keeps_precision_store | apply keeps_precision_set_pointer
               | apply keeps_precision_reads, reads_assert
               | apply keeps_precision_bind; [ | intros ? ] ].
Qed.

Lemma keeps_precision_set_internal_resources
  (data : Matrix) (schur_form unitary : option Matrix) :
  keeps_precision (RelativeThreshold.set_internal_resources data schur_form unitary).
Proof.
  unfold RelativeThreshold.set_internal_resources.
  repeat first [ apply keeps_precision_store | apply keeps_precision_set_pointer
               | apply keeps_precision_reads, reads_assert
               | apply keeps_precision_bind; [ | intros ? ] ].
Qed.

Lemma keeps_precision_reduce_to_hessenberg_form :
  keeps_precision (reduce_to_hessenberg_form : Member unit).
Proof.
  unfold reduce_to_hessenberg_form.
  apply keeps_precision_bind; [apply keeps_precision_reads, reads_deref | intros t].
  apply keeps_precision_bind; [apply keeps_precision_reads, reads_deref | intros u].
  destruct (hessenberg_run t u) as [[t' u']|].
  - apply keeps_precision_bind; [apply keeps_precision_store | intros _].
    apply keeps_precision_store.
  - intros s. reflexivity.
Qed.

Lemma keeps_precision_relative_run_QR_algorithm (sweeps : nat) :
  keeps_precision (RelativeThreshold.run_QR_algorithm sweeps : Member unit).
Proof.
  unfold RelativeThreshold.run_QR_algorithm.
  apply keeps_precision_bind; [apply keeps_precision_reads, reads_size | intros n].
  apply keeps_precision_bind; [apply keeps_precision_set_cur_size | intros _].
  apply keeps_precision_bind;
    [apply keeps_precision_reads, reads_get_cur_size | intros c].
  apply keeps_precision_bind.
  - destruct (2 <=? c).
    + intros s. apply (try_to_deflate_frame s).
    + intros s. reflexivity.
  - intros _ s. apply (relative_QR_loop_frame sweeps s).
Qed.

Lemma keeps_precision_absolute_run_QR_algorithm (sweeps : nat) :
  keeps_precision (AbsoluteThreshold.run_QR_algorithm sweeps : Member unit).
Proof.
  unfold AbsoluteThreshold.run_QR_algorithm.
  apply keeps_precision_bind; [apply keeps_precision_reads, reads_size | intros n].
  apply keeps_precision_bind; [apply keeps_precision_set_cur_size | intros _].
  intros s. apply (absolute_QR_loop_frame sweeps s).
Qed.

Lemma keeps_precision_relative_run
  (data : Matrix) (schur_form unitary : option Matrix) (sweeps : nat) :
  keeps_precision (RelativeThreshold.run data schur_form unitary sweeps).
Proof.
  unfold RelativeThreshold.run.
  apply keeps_precision_bind;
    [apply keeps_precision_set_internal_resources | intros _].
  apply keeps_precision_bind;
    [apply keeps_precision_reduce_to_hessenberg_form | intros _].
  apply keeps_precision_relative_run_QR_algorithm.
Qed.

Lemma keeps_precision_absolute_run
  (data : Matrix) (schur_form unitary : option Matrix) (sweeps : nat) :
  keeps_precision (AbsoluteThreshold.run data schur_form unitary sweeps).
Proof.
  unfold AbsoluteThreshold.run.
  apply keeps_precision_bind;
    [apply keeps_precision_set_internal_members | intros _].
  apply keeps_precision_bind;
    [apply keeps_precision_reduce_to_hessenberg_form | intros _].
  apply keeps_precision_absolute_run_QR_algorithm.
Qed.

End PrecisionFacts.

(** ** What a reflector application writes *)

Section BandFacts.
Context {Scalar : Type} {A : Arithmetic Scalar} {H : HessenbergReduction Scalar}.

Local Abbreviation State := (SchurDecomposition Scalar).
Local Abbreviation Matrix := (DynamicMatrix Scalar).

Lemma block_Ok_inv (p : Buffer) (r0 c0 nr nc : Z) (s s' : State) (b : Block) :
  block p r0 c0 nr nc s = Ok b s' ->
  s' = s /\ b = {| owner := p;
                   extent := {| startRow := r0; startCol := c0;
                                blockRows := nr; blockCols := nc |} |}.
Proof.
  intros E. destruct (block_cases p r0 c0 nr nc s) as [E'|[e E']];
    rewrite E' in E; [|discriminate].
  inversion E. auto.
Qed.

Lemma reflect_left_schur_change (r : HouseholderReflector) (e : Extent) (s s' : State) :
  reflect_left r {| owner := SchurForm; extent := e |} s = Ok tt s' ->
  exists t t', p_schur_form_ s = Some t /\ p_schur_form_ s' = Some t' /\
               rows t' = rows t /\ cols t' = cols t /\
               (forall i j, inside e i j = false -> coeff t' i j = coeff t i j) /\
               p_unitary_ s' = p_unitary_ s /\ cur_size_ s' = cur_size_ s.
Proof.
  unfold reflect_left, bind, deref, store. simpl.
  destruct (p_schur_form_ s) as [t|] eqn:Hp; [|discriminate].
  destruct (reflect_left_values r (block_values t e)) as [v|]; [|discriminate].
  simpl. rewrite Hp. intros E. inversion E. simpl.
  exists t, (block_assign t e v). repeat split; auto.
  intros i j Hi. simpl. now rewrite Hi.
Qed.

Lemma reflect_right_schur_change (r : HouseholderReflector) (e : Extent) (s s' : State) :
  reflect_right r {| owner := SchurForm; extent := e |} s = Ok tt s' ->
  exists t t', p_schur_form_ s = Some t /\ p_schur_form_ s' = Some t' /\
               rows t' = rows t /\ cols t' = cols t /\
               (forall i j, inside e i j = false -> coeff t' i j = coeff t i j) /\
               p_unitary_ s' = p_unitary_ s /\ cur_size_ s' = cur_size_ s.
Proof.
  unfold reflect_right, bind, deref, store. simpl.
  destruct (p_schur_form_ s) as [t|] eqn:Hp; [|discriminate].
  destruct (reflect_right_values r (block_values t e)) as [v|]; [|discriminate].
  simpl. rewrite Hp. intros E. inversion E. simpl.
  exists t, (block_assign t e v). repeat split; auto.
  intros i j Hi. simpl. now rewrite Hi.
Qed.

Lemma reflect_right_unitary_change (r : HouseholderReflector) (e : Extent) (s s' : State) :
  reflect_right r {| owner := Unitary; extent := e |} s = Ok tt s' ->
  exists u u', p_unitary_ s = Some u /\ p_unitary_ s' = Some u' /\
               rows u' = rows u /\ cols u' = cols u /\
               (forall i j, inside e i j = false -> coeff u' i j = coeff u i j) /\
               p_schur_form_ s' = p_schur_form_ s /\ cur_size_ s' = cur_size_ s.
Proof.
  unfold reflect_right, bind, deref, store. simpl.
  destruct (p_unitary_ s) as [u|] eqn:Hp; [|discriminate].
  destruct (reflect_right_values r (block_values u e)) as [v|]; [|discriminate].
  simpl. rewrite Hp. intros E. inversion E. simpl.
  exists u, (block_assign u e v). repeat split; auto.
  intros i j Hi. simpl. now rewrite Hi.
Qed.

Lemma size_reads_inv (s s' : State) (n : Z) : size s = Ok n s' -> s' = s.
Proof. intros E. now apply size_Ok_inv in E. Qed.

End BandFacts.

(** ** The bulge chase of the two classes *)

Section SweepFacts.
Context {Scalar : Type} {A : Arithmetic Scalar} {H : HessenbergReduction Scalar}.

Local Abbreviation State := (SchurDecomposition Scalar).
Local Abbreviation Matrix := (DynamicMatrix Scalar).
Local Abbreviation Member := (M Scalar).

Lemma for_steps_ext (body body' : Z -> Member unit) (n : nat) :
  forall lo s,
    (forall k s1, lo <= k -> body k s1 = body' k s1) ->
    for_steps n lo body s = for_steps n lo body' s.
Proof.
  induction n as [|n IH]; intros lo s Hb; simpl; [reflexivity|].
  unfold bind. rewrite Hb by lia.
  destruct (body' lo s) as [r s1|e s1|s1]; try reflexivity.
  apply IH. intros k s2 Hk. apply Hb. lia.
Qed.

Lemma for_steps_result (body : Z -> Member unit) (n : nat) :
  forall lo s step s',
    for_steps n lo body s = Ok step s' -> step = lo + Z.of_nat n.
Proof.
  induction n as [|n IH]; intros lo s step s' E; simpl in E.
  - inversion E. lia.
  - unfold bind in E. destruct (body lo s) as [r s1|e s1|s1]; try discriminate.
    apply IH in E. lia.
Qed.

Ltac same_steps :=
  repeat (simpl;
          match goal with
          | |- context [match ?m ?s with
                        | Ok _ _ => _ | Fault _ _ => _ | OutOfFuel _ => _ end] =>
              destruct (m s) as [? ?|? ?|?]
          end);
  try reflexivity.

Lemma restore_step_is_process_step (step : Z) (s : State) :
  0 <= step ->
  RelativeThreshold.restore_step step s = AbsoluteThreshold.process_step step s.
Proof.
  intros Hs.
  unfold RelativeThreshold.restore_step, RelativeThreshold.get_reflected_column,
    RelativeThreshold.update_schur_form, RelativeThreshold.update_schur_form_left,
    RelativeThreshold.update_schur_form_right, RelativeThreshold.update_unitary,
    AbsoluteThreshold.process_step, AbsoluteThreshold.process_left,
    AbsoluteThreshold.process_right, AbsoluteThreshold.process_unitary.
  rewrite (Z.max_l step 0) by lia.
  unfold bind, ret. same_steps.
Qed.

End SweepFacts.

Ltac read_step :=
  match goal with
  | |- context [match block ?p ?a ?b ?c ?d ?s with
                | Ok _ _ => _ | Fault _ _ => _ | OutOfFuel _ => _ end] =>
      let E := fresh "E" in
      destruct (reads_block p a b c d s) as [[? E]|[? E]];
      rewrite !E; clear E; cbv beta iota; [|reflexivity]
  | |- context [match values ?b ?s with
                | Ok _ _ => _ | Fault _ _ => _ | OutOfFuel _ => _ end] =>
      let E := fresh "E" in
      destruct (reads_values b s) as [[? E]|[? E]];
      rewrite !E; clear E; cbv beta iota; [|reflexivity]
  | |- context [match Reflector ?v ?s with
                | Ok _ _ => _ | Fault _ _ => _ | OutOfFuel _ => _ end] =>
      let E := fresh "E" in
      destruct (reads_Reflector v s) as [[? E]|[? E]];
      rewrite !E; clear E; cbv beta iota; [|reflexivity]
  | |- context [match size ?s with
                | Ok _ _ => _ | Fault _ _ => _ | OutOfFuel _ => _ end] =>
      let E := fresh "E" in
      destruct (reads_size s) as [[? E]|[? E]];
      rewrite !E; clear E; cbv beta iota; [|reflexivity]
  end.

Ltac write_step K :=
  match goal with
  | |- context [match reflect_left ?r ?b ?s with
                | Ok _ _ => _ | Fault _ _ => _ | OutOfFuel _ => _ end] =>
      pose proof (keeps_reflect_left r b s) as K;
      destruct (reflect_left r b s) as [? ?|? ?|?]; cbv beta iota;
      [|reflexivity|reflexivity]
  | |- context [match reflect_right ?r ?b ?s with
                | Ok _ _ => _ | Fault _ _ => _ | OutOfFuel _ => _ end] =>
      pose proof (keeps_reflect_right r b s) as K;
      destruct (reflect_right r b s) as [? ?|? ?|?]; cbv beta iota;
      [|reflexivity|reflexivity]
  end.

Section LastStep.
Context {Scalar : Type} {A : Arithmetic Scalar} {H : HessenbergReduction Scalar}.

Local Abbreviation State := (SchurDecomposition Scalar).
Local Abbreviation Matrix := (DynamicMatrix Scalar).

(** What [restore_hessenberg_form] does after its loop is [finish]. *)
Lemma last_step_is_finish (s : State) :
  2 <= cur_size_ s ->
  (v <- RelativeThreshold.get_reflected_column (cur_size_ s - 2) 2 ;;
   r <- Reflector v ;;
   RelativeThreshold.update_schur_form r (cur_size_ s - 2) 2 ;;
   RelativeThreshold.update_unitary r (cur_size_ s - 2) 2) s
  = AbsoluteThreshold.finish s.
Proof.
  intros Hc.
  unfold RelativeThreshold.get_reflected_column,
    RelativeThreshold.update_schur_form, RelativeThreshold.update_schur_form_left,
    RelativeThreshold.update_schur_form_right, RelativeThreshold.update_unitary,
    AbsoluteThreshold.finish.
  rewrite (Z.max_l (cur_size_ s - 2) 0) by lia.
  replace (cur_size_ s - 2 + 1) with (cur_size_ s - 1) by lia.
  unfold bind, get_cur_size.
  do 4 read_step.
  match goal with
  | |- context [block SchurForm _ _ 2 (?n - (cur_size_ s - 2))] =>
      replace (n - (cur_size_ s - 2)) with (n - cur_size_ s + 2) by lia
  end.
  read_step. write_step K1. rewrite K1.
  replace (Z.min (cur_size_ s) (cur_size_ s - 2 + 4) + 1) with (cur_size_ s + 1)
    by lia.
  read_step. write_step K2. rewrite K2, K1.
  reflexivity.
Qed.

Lemma try_deflate_at_precision_zero (s s' : State) :
  (forall x : Scalar, ltb (abs x) zero = false) ->
  precision_ s = zero ->
  AbsoluteThreshold.try_deflate s = Ok tt s' -> s' = s.
Proof.
  intros Hz Hp E.
  destruct (try_deflate_cases s)
    as [[e E']|[(t & _ & _ & _ & E')|[(t & _ & T & _)|(t & _ & _ & T & _)]]].
  - congruence.
  - congruence.
  - unfold absolute_test in T. rewrite Hp, Hz in T. discriminate.
  - unfold absolute_test in T. rewrite Hp, Hz in T. discriminate.
Qed.

Lemma absolute_QR_loop_at_precision_zero (sweeps : nat) :
  (forall x : Scalar, ltb (abs x) zero = false) ->
  forall s s' : State,
    precision_ s = zero -> 2 <= cur_size_ s ->
    AbsoluteThreshold.QR_loop sweeps s <> Ok tt s'.
Proof.
  intros Hz. induction sweeps as [|sweeps IH]; intros s s' Hp C;
    rewrite abs_QR_loop_unfold;
    replace (2 <=? cur_size_ s) with true by (symmetry; apply Z.leb_le; lia).
  - discriminate.
  - destruct (@framed_sweep _ _ _ (cur_size_ s) s eq_refl) as [F K].
    unfold bind in *.
    destruct (AbsoluteThreshold.start s) as [r1 s1|e s1|s1]; try discriminate.
    destruct (AbsoluteThreshold.process s1) as [r2 s2|e s2|s2]; try discriminate.
    destruct (AbsoluteThreshold.finish s2) as [r3 s3|e s3|s3]; try discriminate.
    simpl in F, K. destruct F as (P & _).
    destruct (AbsoluteThreshold.try_deflate s3) as [[] s4|e s4|s4] eqn:E;
      try discriminate.
    apply try_deflate_at_precision_zero in E; [|exact Hz|congruence].
    subst s4. apply IH; [congruence | lia].
Qed.

End LastStep.

(** * Further statements about the code *)

(** ** The arguments of [run] *)

Section ArgumentOrder.
Context {Scalar : Type} {A : Arithmetic Scalar} {H : HessenbergReduction Scalar}.

Local Abbreviation State := (SchurDecomposition Scalar).
Local Abbreviation Matrix := (DynamicMatrix Scalar).

(** X1.  [run] of the absolute-threshold class checks its three arguments
    before it writes anything: called with a [data] that is not square or
    with a null pointer it stops at an assertion with the object, and so
    the caller's buffers, as they were; otherwise it goes on to the
    reduction with the two pointers set and [data] copied into the
    Schur-form buffer, precision and [cur_size_] as they were. *)
Theorem absolute_run_checks_before_writing
  (data : Matrix) (schur_form unitary : option Matrix) (sweeps : nat) (s : State) :
  (rows data <> cols data \/ schur_form = None \/ unitary = None ->
   AbsoluteThreshold.run data schur_form unitary sweeps s = Fault AssertionFailed s)
  /\ (rows data = cols data -> schur_form <> None -> unitary <> None ->
      AbsoluteThreshold.run data schur_form unitary sweeps s
      = (reduce_to_hessenberg_form ;; AbsoluteThreshold.run_QR_algorithm sweeps)
          {| precision_ := precision_ s;
             p_schur_form_ := Some data;
             p_unitary_ := unitary;
             cur_size_ := cur_size_ s |}).
Proof.
  unfold AbsoluteThreshold.run, AbsoluteThreshold.set_internal_members.
  split.
  - intros Hbad. unfold bind, assert.
    destruct (Z.eqb_spec (rows data) (cols data)) as [Hsq|Hsq]; [|reflexivity].
    destruct schur_form as [m|]; [|reflexivity].
    destruct unitary as [u|]; [|reflexivity].
    exfalso. destruct Hbad as [B|[B|B]]; [contradiction|discriminate|discriminate].
  - intros Hsq Hm Hu. unfold bind at 1 2 3 4 5 6, assert.
    destruct (Z.eqb_spec (rows data) (cols data)) as [_|Hn]; [|contradiction].
    destruct schur_form as [m|]; [|contradiction].
    destruct unitary as [u|]; [|contradiction].
    reflexivity.
Qed.

(** X2.  [run] of the relative-threshold class checks each argument where
    it first needs it.  A null [schur_form] stops it with nothing changed.
    A [data] that is not square stops it after the member pointer has been
    set to the caller's buffer, whose contents are as they were.  A null
    [unitary] stops it after [data] has been copied into the caller's
    Schur-form buffer.  Otherwise it goes on to the reduction from the same
    state as the other class. *)
Theorem relative_run_checks_while_writing
  (data : Matrix) (schur_form unitary : option Matrix) (sweeps : nat) (s : State) :
  (schur_form = None ->
   RelativeThreshold.run data schur_form unitary sweeps s = Fault AssertionFailed s)
  /\ (forall m, schur_form = Some m -> rows data <> cols data ->
        RelativeThreshold.run data schur_form unitary sweeps s
        = Fault AssertionFailed
            {| precision_ := precision_ s;
               p_schur_form_ := Some m;
               p_unitary_ := p_unitary_ s;
               cur_size_ := cur_size_ s |})
  /\ (schur_form <> None -> rows data = cols data -> unitary = None ->
      RelativeThreshold.run data schur_form unitary sweeps s
      = Fault AssertionFailed
          {| precision_ := precision_ s;
             p_schur_form_ := Some data;
             p_unitary_ := p_unitary_ s;
             cur_size_ := cur_size_ s |})
  /\ (schur_form <> None -> rows data = cols data -> unitary <> None ->
      RelativeThreshold.run data schur_form unitary sweeps s
      = (reduce_to_hessenberg_form ;; RelativeThreshold.run_QR_algorithm sweeps)
          {| precision_ := precision_ s;
             p_schur_form_ := Some data;
             p_unitary_ := unitary;
             cur_size_ := cur_size_ s |}).
Proof.
  unfold RelativeThreshold.run, RelativeThreshold.set_internal_resources.
  repeat split.
  - intros ->. reflexivity.
  - intros m -> Hn. unfold bind, assert. simpl.
    destruct (Z.eqb_spec (rows data) (cols data)) as [Hsq|_]; [contradiction|].
    reflexivity.
  - intros Hm Hsq ->. unfold bind, assert, store.
    destruct schur_form as [m|]; [|contradiction]. simpl.
    destruct (Z.eqb_spec (rows data) (cols data)) as [_|Hn]; [|contradiction].
    reflexivity.
  - intros Hm Hsq Hu. unfold bind at 1 2 3 4 5 6, assert, store.
    destruct schur_form as [m|]; [|contradiction].
    destruct unitary as [u|]; [|contradiction]. simpl.
    destruct (Z.eqb_spec (rows data) (cols data)) as [_|Hn]; [|contradiction].
    reflexivity.
Qed.

End ArgumentOrder.

(** ** The precision *)

Section PrecisionStatements.
Context {Scalar : Type} {A : Arithmetic Scalar} {H : HessenbergReduction Scalar}.

Local Abbreviation State := (SchurDecomposition Scalar).
Local Abbreviation Matrix := (DynamicMatrix Scalar).

(** X3.  [run] never writes [precision_]: in both classes, however the call
    ends (it returns, it stops at an assertion or at an index, or the
    sweeps allowed are used up), the precision of the object is the one it
    had when [run] was called. *)
Theorem run_keeps_precision
  (data : Matrix) (schur_form unitary : option Matrix) (sweeps : nat) (s : State) :
  precision_ (state_of (RelativeThreshold.run data schur_form unitary sweeps s))
  = precision_ s
  /\ precision_ (state_of (AbsoluteThreshold.run data schur_form unitary sweeps s))
     = precision_ s.
Proof.
  split.
  - apply keeps_precision_relative_run.
  - apply keeps_precision_absolute_run.
Qed.

(** X4.  The precision of an object is never negative.  Both constructors
    refuse a negative precision and store a non-negative one;
    [set_precision] with a negative value stops at its assertion and
    leaves the object as it was; with a non-negative value it changes
    [precision_] only, and [get_precision] then returns that value; and a
    [set_precision] followed by a [run], however they end, leave a
    non-negative precision in an object that had one. *)
Theorem precision_is_never_negative :
  (forall (p : Scalar) (i : Z) (s : State),
      RelativeThreshold.construct p i = Some s
      \/ AbsoluteThreshold.construct p i = Some s ->
      precision_ s = p /\ leb zero p = true)
  /\ (forall (p : Scalar) (i : Z),
         leb zero p = false ->
         RelativeThreshold.construct p i = None
         /\ AbsoluteThreshold.construct p i = None)
  /\ (forall (p : Scalar) (s : State),
         leb zero p = false -> set_precision p s = Fault AssertionFailed s)
  /\ (forall (p : Scalar) (s : State),
         leb zero p = true ->
         (set_precision p ;; get_precision) s
         = Ok p {| precision_ := p;
                   p_schur_form_ := p_schur_form_ s;
                   p_unitary_ := p_unitary_ s;
                   cur_size_ := cur_size_ s |})
  /\ (forall (p : Scalar) (data : Matrix) (schur_form unitary : option Matrix)
             (sweeps : nat) (s : State),
         leb zero (precision_ s) = true ->
         leb zero (precision_
                     (state_of ((set_precision p ;;
                                 RelativeThreshold.run data schur_form unitary sweeps) s)))
         = true
         /\ leb zero (precision_
                        (state_of ((set_precision p ;;
                                    AbsoluteThreshold.run data schur_form unitary sweeps)
                                     s)))
            = true).
Proof.
  split; [|split; [|split; [|split]]].
  - intros p i s.
    unfold RelativeThreshold.construct, AbsoluteThreshold.construct.
    destruct (leb zero p); intros [E|E]; inversion E; auto.
  - intros p i Hp.
    unfold RelativeThreshold.construct, AbsoluteThreshold.construct.
    now rewrite Hp.
  - intros p s Hp. unfold set_precision, bind, assert. now rewrite Hp.
  - intros p s Hp. unfold set_precision, bind, assert, get_precision.
    now rewrite Hp.
  - intros p data schur_form unitary sweeps s Hs.
    unfold set_precision, bind, assert.
    destruct (leb zero p) eqn:Hp; simpl.
    + now rewrite keeps_precision_relative_run, keeps_precision_absolute_run.
    + auto.
Qed.

End PrecisionStatements.

(** ** What a deflation writes *)

Section DeflationStatements.
Context {Scalar : Type} {A : Arithmetic Scalar} {H : HessenbergReduction Scalar}.

Local Abbreviation State := (SchurDecomposition Scalar).
Local Abbreviation Matrix := (DynamicMatrix Scalar).

Lemma decrement_cur_size_frame (k : Z) (s : State) :
  1 <= k -> deflation_frame s (state_of (RelativeThreshold.decrement_cur_size k s)).
Proof.
  intros Hk.
  destruct (decrement_cur_size_cases k s) as [[e E]|(t & Hp & _ & E)]; rewrite E;
    simpl; [apply deflation_frame_refl | now apply deflation_frame_deflated].
Qed.

(** X5.  A deflation of the relative-threshold class writes zeros on the
    subdiagonal and nothing else.  Whatever the state and however it ends,
    [decrement_cur_size] (by 1 or by 2) and the whole cascade
    [try_to_deflate] leave the precision and the accumulator as they
    were, do not raise [cur_size_], keep the extents of the Schur form,
    and an entry of the Schur form that has changed is a subdiagonal entry
    [(i, i - 1)], now zero, with [i] above the new [cur_size_] and not
    above the old one. *)
Theorem relative_deflation_writes_zeros_only (s : State) :
  deflation_frame s (state_of (RelativeThreshold.decrement_cur_size 1 s))
  /\ deflation_frame s (state_of (RelativeThreshold.decrement_cur_size 2 s))
  /\ deflation_frame s (state_of (RelativeThreshold.try_to_deflate s)).
Proof.
  split; [|split].
  - apply decrement_cur_size_frame. lia.
  - apply decrement_cur_size_frame. lia.
  - apply try_to_deflate_frame.
Qed.

(** X6.  A deflation of the absolute-threshold class writes zeros on the
    subdiagonal and nothing else: the same as X5 for [deflate_once],
    [deflate_twice] and [try_deflate]. *)
Theorem absolute_deflation_writes_zeros_only (s : State) :
  deflation_frame s (state_of (AbsoluteThreshold.deflate_once s))
  /\ deflation_frame s (state_of (AbsoluteThreshold.deflate_twice s))
  /\ deflation_frame s (state_of (AbsoluteThreshold.try_deflate s)).
Proof.
  split; [|split].
  - destruct (assign_cases (cur_size_ s) (cur_size_ s - 1) zero s)
      as [[e E]|(t & Hp & Hr & _)].
    + unfold AbsoluteThreshold.deflate_once, bind, get_cur_size. rewrite E.
      apply deflation_frame_refl.
    + rewrite (deflate_once_value s Hp Hr).
      apply deflation_frame_deflated; [exact Hp | lia].
  - destruct (assign_cases (cur_size_ s - 1) (cur_size_ s - 2) zero s)
      as [[e E]|(t & Hp & Hr & _)].
    + unfold AbsoluteThreshold.deflate_twice, bind, get_cur_size. rewrite E.
      apply deflation_frame_refl.
    + rewrite (deflate_twice_value s Hp Hr).
      apply deflation_frame_deflated; [exact Hp | lia].
  - apply try_deflate_frame.
Qed.

End DeflationStatements.

(** ** The deflated part is final *)

Section FrameStatements.
Context {Scalar : Type} {A : Arithmetic Scalar} {H : HessenbergReduction Scalar}.

Local Abbreviation State := (SchurDecomposition Scalar).
Local Abbreviation Matrix := (DynamicMatrix Scalar).

Lemma loop_frame_frozen (s s' : State) :
  (cur_size_ s < 2 -> s' = s) ->
  loop_frame s s' ->
  precision_ s' = precision_ s
  /\ extents (p_schur_form_ s') = extents (p_schur_form_ s)
  /\ extents (p_unitary_ s') = extents (p_unitary_ s)
  /\ rows_frozen (cur_size_ s) (p_schur_form_ s) (p_schur_form_ s')
  /\ cols_frozen (cur_size_ s) (p_unitary_ s) (p_unitary_ s').
Proof.
  intros Hlow (P & _ & E & U & R & K).
  repeat split; auto.
  - destruct (Z.lt_ge_cases (cur_size_ s) 2) as [Lt|Ge].
    + rewrite (Hlow Lt). intros t t' Ht Ht' i j _. rewrite Ht in Ht'.
      now inversion Ht'.
    + now rewrite Z.max_l in R by lia.
  - destruct (Z.lt_ge_cases (cur_size_ s) 2) as [Lt|Ge].
    + rewrite (Hlow Lt). intros u u' Hu Hu' i j _. rewrite Hu in Hu'.
      now inversion Hu'.
    + now rewrite Z.max_l in K by lia.
Qed.

(** X7.  In the relative-threshold class, what lies beyond the active
    window is final.  Whatever the number of sweeps and however the QR
    loop ends, the rows of the Schur form after row [cur_size_] and the
    columns of the accumulator after column [cur_size_] ([cur_size_] as it
    was when the loop was entered) hold what they held; the extents of the
    two buffers and the precision are as they were.  The two buffers are
    distinct objects. *)
Theorem relative_loop_keeps_deflated_part (sweeps : nat) (s : State) :
  let s' := state_of (RelativeThreshold.QR_loop sweeps s) in
  precision_ s' = precision_ s
  /\ extents (p_schur_form_ s') = extents (p_schur_form_ s)
  /\ extents (p_unitary_ s') = extents (p_unitary_ s)
  /\ rows_frozen (cur_size_ s) (p_schur_form_ s) (p_schur_form_ s')
  /\ cols_frozen (cur_size_ s) (p_unitary_ s) (p_unitary_ s').
Proof.
  intros s'. apply loop_frame_frozen; [|apply relative_QR_loop_frame].
  intros Lt. subst s'. rewrite QR_loop_unfold.
  now replace (2 <=? cur_size_ s) with false by (symmetry; apply Z.leb_gt; lia).
Qed.

(** X8.  The same in the absolute-threshold class: the QR loop never
    writes a row of the Schur form after row [cur_size_] or a column of
    the accumulator after column [cur_size_], and keeps the extents and the
    precision. *)
Theorem absolute_loop_keeps_deflated_part (sweeps : nat) (s : State) :
  let s' := state_of (AbsoluteThreshold.QR_loop sweeps s) in
  precision_ s' = precision_ s
  /\ extents (p_schur_form_ s') = extents (p_schur_form_ s)
  /\ extents (p_unitary_ s') = extents (p_unitary_ s)
  /\ rows_frozen (cur_size_ s) (p_schur_form_ s) (p_schur_form_ s')
  /\ cols_frozen (cur_size_ s) (p_unitary_ s) (p_unitary_ s').
Proof.
  intros s'. apply loop_frame_frozen; [|apply absolute_QR_loop_frame].
  intros Lt. subst s'. rewrite abs_QR_loop_unfold.
  now replace (2 <=? cur_size_ s) with false by (symmetry; apply Z.leb_gt; lia).
Qed.

End FrameStatements.

(** ** Where [run_QR_algorithm] can stop *)

Section BoundsStatements.
Context {Scalar : Type} {A : Arithmetic Scalar} {H : HessenbergReduction Scalar}.

Local Abbreviation State := (SchurDecomposition Scalar).
Local Abbreviation Matrix := (DynamicMatrix Scalar).

(** X9.  In the absolute-threshold class every index and every block of
    [run_QR_algorithm] is in range.  Started with the two buffers [n] by
    [n] (any [n], any contents, any [cur_size_]), it never stops at an
    index, block, pointer or squareness assertion: the only fault it can
    end in comes from inside the reflector class.  When it returns,
    [cur_size_ < 2]; when the sweeps allowed are used up,
    [2 <= cur_size_ < n]; in both cases the buffers are still [n] by
    [n]. *)
Theorem absolute_run_stays_in_range (n : Z) (sweeps : nat) (s : State) :
  well_formed n s ->
  match AbsoluteThreshold.run_QR_algorithm sweeps s with
  | Ok _ s' => well_formed n s' /\ cur_size_ s' < 2
  | Fault e _ => e = CollaboratorFailed
  | OutOfFuel s' => well_formed n s' /\ 2 <= cur_size_ s' < n
  end.
Proof.
  intros W. unfold AbsoluteThreshold.run_QR_algorithm, bind.
  rewrite (size_value W). simpl.
  apply absolute_QR_loop_bounds; [exact W | simpl; lia].
Qed.

(** X10.  In the relative-threshold class, started with the two buffers
    [n] by [n], [run_QR_algorithm] can stop in two ways only: inside the
    reflector class, or at the read of the entry [(0, -1)] of the Schur
    form by the deflation test.  Every other index and every block is in
    range.  It returns only for [n <= 2]. *)
Theorem relative_run_stops_at_one_index_only (n : Z) (sweeps : nat) (s : State) :
  well_formed n s ->
  match RelativeThreshold.run_QR_algorithm sweeps s with
  | Ok _ s' => n <= 2 /\ well_formed n s' /\ cur_size_ s' = n - 1
  | Fault e _ => e = CollaboratorFailed \/ e = IndexOutOfRange 0 (-1)
  | OutOfFuel s' => well_formed n s' /\ 2 <= cur_size_ s' < n
  end.
Proof.
  intros W. unfold RelativeThreshold.run_QR_algorithm, bind.
  rewrite (size_value W). simpl.
  pose proof (well_formed_set_cur_size (n - 1) W) as W1. simpl in W1.
  set (s1 := {| precision_ := precision_ s;
                p_schur_form_ := p_schur_form_ s;
                p_unitary_ := p_unitary_ s;
                cur_size_ := n - 1 |}) in *.
  destruct (Z.leb_spec 2 (n - 1)) as [Ge|Lt].
  - assert (C1 : 0 <= cur_size_ s1 < n) by (simpl; lia).
    pose proof (relative_try_to_deflate_bounds W1 C1) as D.
    destruct (RelativeThreshold.try_to_deflate s1) as [r2 s2|e s2|s2];
      [|now right|contradiction].
    destruct D as [W2 C2].
    pose proof (relative_QR_loop_bounds sweeps W2 C2) as L.
    destruct (RelativeThreshold.QR_loop sweeps s2); [contradiction|exact L|exact L].
  - unfold ret. rewrite QR_loop_unfold. simpl.
    replace (2 <=? n - 1) with false by (symmetry; apply Z.leb_gt; lia).
    repeat split; try apply W1; lia.
Qed.

(** X11.  [run_QR_algorithm] of the relative-threshold class does not
    return on a Schur form with three rows or more, whatever its contents,
    the precision and the number of sweeps: the cascade of
    [try_to_deflate] ends only when its second test has been evaluated
    and has failed, which needs [cur_size_ >= 2], and then the loop goes
    on.  So the call ends at a fault (X10) or goes on for ever. *)
Theorem relative_run_never_returns (sweeps : nat) (s s' : State) (t : Matrix) :
  p_schur_form_ s = Some t -> 3 <= rows t ->
  RelativeThreshold.run_QR_algorithm sweeps s <> Ok tt s'.
Proof.
  intros Hp Hr E. unfold RelativeThreshold.run_QR_algorithm in E.
  apply bind_Ok_inv in E. destruct E as (n & s0 & E0 & E).
  apply size_Ok_inv in E0. destruct E0 as (-> & t0 & Hp0 & Hn & _).
  rewrite Hp in Hp0. inversion Hp0; subst t0.
  unfold bind in E. simpl in E.
  replace (2 <=? n - 1) with true in E by (symmetry; apply Z.leb_le; lia).
  destruct (RelativeThreshold.try_to_deflate _) as [[] s2|e s2|s2] eqn:D;
    try discriminate.
  apply relative_try_to_deflate_never_below in D.
  now apply relative_QR_loop_never_returns in E.
Qed.

(** X12.  With precision 0, which the constructor and [set_precision]
    accept, [run_QR_algorithm] of the absolute-threshold class does not
    return on a Schur form with three rows or more: [near_zero] asks for
    [|x| < 0], so no deflation is ever made and [cur_size_] stays where it
    is.  The scalar type is one where no absolute value is below zero. *)
Theorem absolute_precision_zero_never_returns
  (sweeps : nat) (s s' : State) (t : Matrix) :
  (forall x : Scalar, ltb (abs x) zero = false) ->
  precision_ s = zero ->
  p_schur_form_ s = Some t -> 3 <= rows t ->
  AbsoluteThreshold.run_QR_algorithm sweeps s <> Ok tt s'.
Proof.
  intros Hz Hprec Hp Hr E. unfold AbsoluteThreshold.run_QR_algorithm in E.
  apply bind_Ok_inv in E. destruct E as (n & s0 & E0 & E).
  apply size_Ok_inv in E0. destruct E0 as (-> & t0 & Hp0 & Hn & _).
  rewrite Hp in Hp0. inversion Hp0; subst t0.
  unfold bind in E. simpl in E.
  revert E. apply absolute_QR_loop_at_precision_zero; simpl; auto. lia.
Qed.

End BoundsStatements.

(** The absolute-threshold class on [hollow3], five sweeps allowed. *)
Lemma absolute_run_stays_in_range_witness :
  well_formed 3 (object_of 1 hollow3 0)
  /\ match AbsoluteThreshold.run_QR_algorithm 5 (object_of 1 hollow3 0) with
     | Ok _ s' => well_formed 3 s' /\ cur_size_ s' < 2
     | Fault e _ => e = CollaboratorFailed
     | OutOfFuel s' => well_formed 3 s' /\ 2 <= cur_size_ s' < 3
     end.
Proof.
  assert (W : well_formed 3 (object_of 1 hollow3 0)) by (split; reflexivity).
  pose proof (@absolute_run_stays_in_range Z _ Z_collaborator 3 5
                (object_of 1 hollow3 0) W) as P.
  split; [exact W | exact P].
Defined.

(** The relative-threshold class on [ripe3]: the first cascade ends at the
    read of the entry [(0, -1)]. *)
Lemma relative_run_stops_at_one_index_only_witness :
  well_formed 3 (object_of 1 ripe3 0)
  /\ match RelativeThreshold.run_QR_algorithm 5 (object_of 1 ripe3 0) with
     | Ok _ s' => 3 <= 2 /\ well_formed 3 s' /\ cur_size_ s' = 3 - 1
     | Fault e _ => e = CollaboratorFailed \/ e = IndexOutOfRange 0 (-1)
     | OutOfFuel s' => well_formed 3 s' /\ 2 <= cur_size_ s' < 3
     end.
Proof.
  assert (W : well_formed 3 (object_of 1 ripe3 0)) by (split; reflexivity).
  pose proof (@relative_run_stops_at_one_index_only Z _ Z_collaborator 3 5
                (object_of 1 ripe3 0) W) as P.
  split; [exact W | exact P].
Defined.

(** The relative-threshold class on [ripe3], a 3x3 Schur form. *)
Lemma relative_run_never_returns_witness :
  ~ exists s', RelativeThreshold.run_QR_algorithm 5 (object_of 1 ripe3 0) = Ok tt s'.
Proof.
  intros [s' E].
  assert (Hr : 3 <= rows ripe3) by (simpl; lia).
  exact (@relative_run_never_returns Z _ Z_collaborator 5 (object_of 1 ripe3 0) s'
           ripe3 eq_refl Hr E).
Defined.

(** The absolute-threshold class with precision 0 on [hollow3], whose entry
    [(2, 1)] is zero: not even that entry is deflated. *)
Lemma absolute_precision_zero_never_returns_witness :
  ~ exists s', AbsoluteThreshold.run_QR_algorithm 5 (object_of 0 hollow3 0) = Ok tt s'.
Proof.
  intros [s' E].
  assert (Hz : forall x : Z, ltb (abs x) zero = false)
    by (intros x; simpl; apply Z.ltb_ge, Z.abs_nonneg).
  assert (Hr : 3 <= rows hollow3) by (simpl; lia).
  exact (@absolute_precision_zero_never_returns Z _ Z_collaborator 5
           (object_of 0 hollow3 0) s' hollow3 Hz eq_refl eq_refl Hr E).
Defined.

(** ** What one reflector application of the relative-threshold class writes *)

Section BandStatements.
Context {Scalar : Type} {A : Arithmetic Scalar} {H : HessenbergReduction Scalar}.

Local Abbreviation State := (SchurDecomposition Scalar).
Local Abbreviation Matrix := (DynamicMatrix Scalar).

(** X13.  [update_schur_form(reflector, step, length)], when it returns,
    has written the Schur form only in two bands: rows [step + 1 ..
    step + length] from column [max(step, 0)] on (the left application),
    and rows [0 .. min(cur_size_, step + 4)] of columns [step + 1 ..
    step + length] (the right application).  Every other entry, the
    extents, the accumulator and [cur_size_] are as they were; so nothing
    is written left of column [max(step, 0)]. *)
Theorem schur_update_band
  (r : HouseholderReflector) (step length : Z) (s s' : State) :
  RelativeThreshold.update_schur_form r step length s = Ok tt s' ->
  p_unitary_ s' = p_unitary_ s /\ cur_size_ s' = cur_size_ s /\
  exists t t',
    p_schur_form_ s = Some t /\ p_schur_form_ s' = Some t' /\
    rows t' = rows t /\ cols t' = cols t /\
    forall i j,
      ~ (step + 1 <= i <= step + length /\ Z.max step 0 <= j) ->
      ~ (0 <= i <= Z.min (cur_size_ s) (step + 4) /\ step + 1 <= j <= step + length) ->
      coeff t' i j = coeff t i j.
Proof.
  unfold RelativeThreshold.update_schur_form. intros E.
  apply bind_Ok_inv in E. destruct E as ([] & s1 & E1 & E2).
  unfold RelativeThreshold.update_schur_form_left in E1.
  apply bind_Ok_inv in E1. destruct E1 as (n & s0 & En & E1).
  apply size_reads_inv in En. subst s0.
  apply bind_Ok_inv in E1. destruct E1 as (b & s0 & Eb & E1).
  apply block_Ok_inv in Eb. destruct Eb as [-> ->].
  apply reflect_left_schur_change in E1.
  destruct E1 as (t & t1 & Hp & Hp1 & Hr1 & Hc1 & Hf1 & Hu1 & Hk1).
  unfold RelativeThreshold.update_schur_form_right in E2.
  apply bind_Ok_inv in E2. destruct E2 as (c & s0 & Ec & E2).
  inversion Ec; subst c s0. clear Ec.
  apply bind_Ok_inv in E2. destruct E2 as (b & s0 & Eb & E2).
  apply block_Ok_inv in Eb. destruct Eb as [-> ->].
  apply reflect_right_schur_change in E2.
  destruct E2 as (t1' & t2 & Hp1' & Hp2 & Hr2 & Hc2 & Hf2 & Hu2 & Hk2).
  rewrite Hp1 in Hp1'. inversion Hp1'; subst t1'.
  split; [congruence|]. split; [congruence|].
  exists t, t2. repeat split; try congruence.
  intros i j Hl Hrt. rewrite Hf2, Hf1; auto.
  - unfold inside. simpl. rewrite !andb_false_iff, !Z.leb_gt, !Z.ltb_ge. lia.
  - unfold inside. simpl. rewrite !andb_false_iff, !Z.leb_gt, !Z.ltb_ge. lia.
Qed.

(** X14.  [update_unitary(reflector, step, length)], when it returns, has
    written the accumulator only in its columns [step + 1 ..
    step + length]; every other column, the extents of the accumulator,
    the Schur form and [cur_size_] are as they were. *)
Theorem accumulator_update_band
  (r : HouseholderReflector) (step length : Z) (s s' : State) :
  RelativeThreshold.update_unitary r step length s = Ok tt s' ->
  p_schur_form_ s' = p_schur_form_ s /\ cur_size_ s' = cur_size_ s /\
  exists u u',
    p_unitary_ s = Some u /\ p_unitary_ s' = Some u' /\
    rows u' = rows u /\ cols u' = cols u /\
    forall i j, ~ (step + 1 <= j <= step + length) -> coeff u' i j = coeff u i j.
Proof.
  unfold RelativeThreshold.update_unitary. intros E.
  apply bind_Ok_inv in E. destruct E as (n & s0 & En & E).
  apply size_reads_inv in En. subst s0.
  apply bind_Ok_inv in E. destruct E as (b & s0 & Eb & E).
  apply block_Ok_inv in Eb. destruct Eb as [-> ->].
  apply reflect_right_unitary_change in E.
  destruct E as (u & u' & Hp & Hp' & Hr & Hc & Hf & Ht & Hk).
  split; [exact Ht|]. split; [exact Hk|].
  exists u, u'. repeat split; auto.
  intros i j Hj. apply Hf.
  unfold inside. simpl. rewrite !andb_false_iff, !Z.leb_gt, !Z.ltb_ge. lia.
Qed.

End BandStatements.

(** On [firm4] with [cur_size_ = 3], step 0, length 3: rows 1 to 3 and
    columns 1 to 3 are written, the entry [(0, 0)] is not. *)
Lemma schur_update_band_witness :
  p_unitary_ (state_of (RelativeThreshold.update_schur_form tt 0 3 (object_of 1 firm4 3)))
  = p_unitary_ (object_of 1 firm4 3)
  /\ cur_size_ (state_of (RelativeThreshold.update_schur_form tt 0 3
                            (object_of 1 firm4 3)))
     = cur_size_ (object_of 1 firm4 3)
  /\ exists t t',
      p_schur_form_ (object_of 1 firm4 3) = Some t /\
      p_schur_form_
        (state_of (RelativeThreshold.update_schur_form tt 0 3 (object_of 1 firm4 3)))
      = Some t' /\
      rows t' = rows t /\ cols t' = cols t /\
      forall i j,
        ~ (0 + 1 <= i <= 0 + 3 /\ Z.max 0 0 <= j) ->
        ~ (0 <= i <= Z.min (cur_size_ (object_of 1 firm4 3)) (0 + 4)
           /\ 0 + 1 <= j <= 0 + 3) ->
        coeff t' i j = coeff t i j.
Proof.
  exact (@schur_update_band Z _ Z_collaborator tt 0 3 (object_of 1 firm4 3)
           (state_of (RelativeThreshold.update_schur_form tt 0 3 (object_of 1 firm4 3)))
           eq_refl).
Defined.

(** On the accumulator of [object_of 1 firm4 3], step 0, length 3: column 0
    is not written. *)
Lemma accumulator_update_band_witness :
  p_schur_form_
    (state_of (RelativeThreshold.update_unitary tt 0 3 (object_of 1 firm4 3)))
  = p_schur_form_ (object_of 1 firm4 3)
  /\ cur_size_ (state_of (RelativeThreshold.update_unitary tt 0 3 (object_of 1 firm4 3)))
     = cur_size_ (object_of 1 firm4 3)
  /\ exists u u',
      p_unitary_ (object_of 1 firm4 3) = Some u /\
      p_unitary_
        (state_of (RelativeThreshold.update_unitary tt 0 3 (object_of 1 firm4 3)))
      = Some u' /\
      rows u' = rows u /\ cols u' = cols u /\
      forall i j, ~ (0 + 1 <= j <= 0 + 3) -> coeff u' i j = coeff u i j.
Proof.
  exact (@accumulator_update_band Z _ Z_collaborator tt 0 3 (object_of 1 firm4 3)
           (state_of (RelativeThreshold.update_unitary tt 0 3 (object_of 1 firm4 3)))
           eq_refl).
Defined.

(** ** The sweeps of the two classes *)

Section SweepStatements.
Context {Scalar : Type} {A : Arithmetic Scalar} {H : HessenbergReduction Scalar}.

Local Abbreviation State := (SchurDecomposition Scalar).
Local Abbreviation Matrix := (DynamicMatrix Scalar).

(** X15.  The bulge chase is the same in the two classes:
    [restore_hessenberg_form] of the relative-threshold class, entered with
    [cur_size_ >= 2], does what [process] followed by [finish] of the
    absolute-threshold class does: the same outcome and the same final
    object from every state, faults included. *)
Theorem restore_is_process_then_finish (s : State) :
  2 <= cur_size_ s ->
  RelativeThreshold.restore_hessenberg_form s
  = (AbsoluteThreshold.process ;; AbsoluteThreshold.finish) s.
Proof.
  intros Hc.
  assert (L : RelativeThreshold.restore_hessenberg_form s
              = match for_steps (Z.to_nat (cur_size_ s - 2)) 0
                        RelativeThreshold.restore_step s with
                | Ok step s1 =>
                    (v <- RelativeThreshold.get_reflected_column step 2 ;;
                     r <- Reflector v ;;
                     RelativeThreshold.update_schur_form r step 2 ;;
                     RelativeThreshold.update_unitary r step 2) s1
                | Fault e s1 => Fault e s1
                | OutOfFuel s1 => OutOfFuel s1
                end) by reflexivity.
  assert (R : (AbsoluteThreshold.process ;; AbsoluteThreshold.finish) s
              = match for_steps (Z.to_nat (cur_size_ s - 2)) 0
                        AbsoluteThreshold.process_step s with
                | Ok _ s1 => AbsoluteThreshold.finish s1
                | Fault e s1 => Fault e s1
                | OutOfFuel s1 => OutOfFuel s1
                end).
  { unfold AbsoluteThreshold.process, bind, get_cur_size, ret.
    now destruct (for_steps _ 0 AbsoluteThreshold.process_step s). }
  rewrite L, R.
  rewrite (for_steps_ext RelativeThreshold.restore_step AbsoluteThreshold.process_step)
    by (intros; apply restore_step_is_process_step; lia).
  pose proof (keeps_for_steps AbsoluteThreshold.process_step keeps_process_step
                (Z.to_nat (cur_size_ s - 2)) 0 s) as K.
  destruct (for_steps (Z.to_nat (cur_size_ s - 2)) 0 AbsoluteThreshold.process_step s)
    as [step s1|e s1|s1] eqn:E; try reflexivity.
  apply for_steps_result in E.
  replace step with (cur_size_ s1 - 2) by lia.
  apply last_step_is_finish. lia.
Qed.

(** X16.  [start] of the absolute-threshold class applies its reflector as
    [set_matching_column] of the relative-threshold class does: it is
    [update_schur_form(reflector, -1, 3)] followed by
    [update_unitary(reflector, -1, 3)], the same blocks in the same order,
    for the reflector of the vector [find_starter_column] returns (where
    [set_matching_column] takes that of [find_matching_column]); the same
    outcome and the same final object from every state, faults
    included. *)
Theorem start_is_set_matching_column (s : State) :
  AbsoluteThreshold.start s
  = (v <- AbsoluteThreshold.find_starter_column ;;
     r <- Reflector v ;;
     RelativeThreshold.update_schur_form r (-1) 3 ;;
     RelativeThreshold.update_unitary r (-1) 3) s.
Proof.
  unfold AbsoluteThreshold.start, RelativeThreshold.update_schur_form,
    RelativeThreshold.update_schur_form_left,
    RelativeThreshold.update_schur_form_right, RelativeThreshold.update_unitary.
  change (-1 + 1) with 0. change (Z.max (-1) 0) with 0. change (-1 + 4) with 3.
  unfold bind, get_cur_size.
  destruct (reads_find_starter_column s) as [[v E]|[e E]]; rewrite !E;
    cbv beta iota; [|reflexivity].
  do 2 read_step.
  match goal with
  | |- context [block SchurForm 0 0 3 (?n - 0)] => rewrite (Z.sub_0_r n)
  end.
  read_step. write_step K1. read_step. write_step K2.
  reflexivity.
Qed.

End SweepStatements.

(** On [firm4] with [cur_size_ = 3] both go through step 0 and the last
    step. *)
Lemma restore_is_process_then_finish_witness :
  RelativeThreshold.restore_hessenberg_form (object_of 1 firm4 3)
  = (AbsoluteThreshold.process ;; AbsoluteThreshold.finish) (object_of 1 firm4 3).
Proof.
  assert (Hc : 2 <= cur_size_ (object_of 1 firm4 3)) by (simpl; lia).
  exact (@restore_is_process_then_finish Z _ Z_collaborator (object_of 1 firm4 3) Hc).
Defined.

(** ** The trailing 2x2 block *)

Section BottomCorner.
Context {Scalar : Type} {A : Arithmetic Scalar} {H : HessenbergReduction Scalar}.

Local Abbreviation State := (SchurDecomposition Scalar).
Local Abbreviation Matrix := (DynamicMatrix Scalar).

Lemma block_fault (p : Buffer) (r0 c0 nr nc : Z) (s : State) (m : Matrix) :
  pointer p s = Some m ->
  valid_block m {| startRow := r0; startCol := c0; blockRows := nr; blockCols := nc |}
  = false ->
  block p r0 c0 nr nc s
  = Fault (BlockOutOfRange {| startRow := r0; startCol := c0;
                              blockRows := nr; blockCols := nc |}) s.
Proof.
  intros Hp Hv. unfold block, bind, deref. now rewrite Hp, Hv.
Qed.

(** X17.  [find_bottom_corner_trace] and [find_bottom_corner_det] need
    [1 <= cur_size_] and a Schur form with more than [cur_size_] rows and
    columns; otherwise both stop at the assertion of the block
    [(c-1, c-1, 2, 2)], [c = cur_size_], which does not lie inside the
    matrix.  Inside, they leave the object as it is; the trace is
    [T(c-1, c-1) + T(c, c)], and the determinant is the one of Eigen's LU
    decomposition with partial pivoting: with [a, b] the first row of the
    block and [l, d] the second, [1 * (a * (d - (l / a) * b))], or, when
    [|a| < |l|], [-1 * (l * (b - (a / l) * d))], the quotient being left
    out when the pivot is zero. *)
Theorem bottom_corner_needs_active_window (s : State) (t : Matrix) :
  p_schur_form_ s = Some t ->
  let c := cur_size_ s in
  let a := coeff t (c - 1) (c - 1) in
  let b := coeff t (c - 1) c in
  let l := coeff t c (c - 1) in
  let d := coeff t c c in
  (1 <= c < rows t /\ c < cols t ->
   find_bottom_corner_trace s = Ok (add a d) s
   /\ find_bottom_corner_det s
      = Ok (if ltb (abs a) (abs l)
            then mul (opp one) (mul l (sub b (mul (elimination_factor a l) d)))
            else mul one (mul a (sub d (mul (elimination_factor l a) b)))) s)
  /\ (~ (1 <= c < rows t /\ c < cols t) ->
      find_bottom_corner_trace s = Fault (BlockOutOfRange (bottom_corner c)) s
      /\ find_bottom_corner_det s = Fault (BlockOutOfRange (bottom_corner c)) s).
Proof.
  intros Hp c a b l d. subst c a b l d. split.
  - intros [Hr Hc]. split.
    + now apply find_bottom_corner_trace_value.
    + rewrite (find_bottom_corner_det_value s Hp) by lia.
      unfold bottom_determinant, determinant.
      set (m := block_values t (bottom_corner (cur_size_ s))).
      assert (E00 : coeff m 0 0 = coeff t (cur_size_ s - 1) (cur_size_ s - 1))
        by (simpl; now rewrite Z.add_0_r).
      assert (E01 : coeff m 0 1 = coeff t (cur_size_ s - 1) (cur_size_ s))
        by (simpl; rewrite Z.add_0_r; f_equal; lia).
      assert (E10 : coeff m 1 0 = coeff t (cur_size_ s) (cur_size_ s - 1))
        by (simpl; rewrite Z.add_0_r; f_equal; lia).
      assert (E11 : coeff m 1 1 = coeff t (cur_size_ s) (cur_size_ s))
        by (simpl; f_equal; lia).
      cbv zeta. rewrite <- E00, <- E01, <- E10, <- E11.
      now destruct (ltb (abs (coeff m 0 0)) (abs (coeff m 1 0))).
  - intros Hout.
    assert (Hv : valid_block t (bottom_corner (cur_size_ s)) = false).
    { destruct (valid_block t _) eqn:V; [|reflexivity].
      apply valid_block_iff in V. exfalso. apply Hout. lia. }
    unfold find_bottom_corner_trace, find_bottom_corner_det, bind, get_cur_size.
    now rewrite (block_fault SchurForm _ _ _ _ s Hp Hv).
Qed.

End BottomCorner.

(** Over [double], on the trailing block [[1, 1], [3, 4]] of [pivoted3]:
    the rows are exchanged, the factor is the double nearest to 1/3, and
    the determinant returned is [1 - 2^-52]; with [cur_size_ = 3] the block
    would need a fourth row. *)
Lemma bottom_corner_needs_active_window_witness :
  (find_bottom_corner_trace (double_object 1 pivoted3 2)
   = Ok 5%float (double_object 1 pivoted3 2)
   /\ find_bottom_corner_det (double_object 1 pivoted3 2)
      = Ok 0x1.ffffffffffffep-1%float (double_object 1 pivoted3 2))
  /\ find_bottom_corner_trace (double_object 1 pivoted3 3)
     = Fault (BlockOutOfRange (bottom_corner 3)) (double_object 1 pivoted3 3).
Proof.
  split.
  - assert (Hin : 1 <= 2 < rows pivoted3 /\ 2 < cols pivoted3) by (simpl; lia).
    exact (proj1 (@bottom_corner_needs_active_window float _
                    (double_object 1 pivoted3 2) pivoted3 eq_refl) Hin).
  - assert (Hout : ~ (1 <= 3 < rows pivoted3 /\ 3 < cols pivoted3)) by (simpl; lia).
    exact (proj1 (proj2 (@bottom_corner_needs_active_window float _
                           (double_object 1 pivoted3 3) pivoted3 eq_refl) Hout)).
Defined.
